(** * libsvt_hevc adapter: submission, retrieval, metadata correlation, flush

    A shallow embedding of the SVT-HEVC encoder plugin (the second document
    of [src/libavutil/list.h]: [error_mapping], [free_buffer],
    [alloc_buffer], [read_in_data], [eb_encode_frame], [eb_enc_close])
    together with the list primitive of [libavutil/list.h] it uses.

    The external encoder library and the libavcodec helpers are not part of
    the sources.  Every call to them is recorded in a trace of events, and
    what they answer is supplied per call by an environment record, so that
    the theorems hold for all answers. *)

From Stdlib Require Import ZArith List Bool Lia.
From Stdlib.Strings Require Import Byte.
Import ListNotations.
Open Scope Z_scope.

Set Implicit Arguments.

(** ** Machine integers *)

Module Int.

Definition to_uint32 (x : Z) : Z := x mod 2 ^ 32.
Definition to_uint64 (x : Z) : Z := x mod 2 ^ 64.

(** Conversion to a 32-bit [int] (two's complement). *)
Definition to_int32 (x : Z) : Z :=
  let r := x mod 2 ^ 32 in
  if r <? 2 ^ 31 then r else r - 2 ^ 32.

End Int.

(** ** libavutil/list.h

    The intrusive circular list is represented by the sequence of its
    entries from [head->next] round to [head->prev]. *)

Module ListH.

Section Ops.
Variable A : Type.

(** [INIT_LIST_HEAD]: [next] and [prev] point at the head itself. *)
Definition INIT_LIST_HEAD : list A := [].

(** [list_add]: insertion right after the head. *)
Definition list_add (new : A) (head : list A) : list A := new :: head.

(** [list_add_tail]: insertion right before the head. *)
Definition list_add_tail (new : A) (head : list A) : list A :=
  head ++ [new].

(** [list_for_each_safe] with a body that leaves the loop at the first
    entry satisfying [stop]: the entries walked over before it, the
    entry itself, and the ones after it. *)
Fixpoint list_for_each_until (stop : A -> bool) (head : list A)
  : option (list A * A * list A) :=
  match head with
  | [] => None
  | pos :: n =>
      if stop pos then Some ([], pos, n)
      else match list_for_each_until stop n with
           | Some (before, p, after) => Some (pos :: before, p, after)
           | None => None
           end
  end.

End Ops.

End ListH.

(** ** Encoder library interface (EbApi.h, EbErrorCodes.h) *)

(** The status codes [error_mapping] distinguishes; every other value of
    [EB_ERRORTYPE] is [EB_ErrorOther]. *)
Inductive EB_ERRORTYPE : Type :=
| EB_ErrorNone
| EB_ErrorInsufficientResources
| EB_ErrorUndefined
| EB_ErrorInvalidComponent
| EB_ErrorBadParameter
| EB_ErrorDestroyThreadFailed
| EB_ErrorSemaphoreUnresponsive
| EB_ErrorDestroySemaphoreFailed
| EB_ErrorCreateMutexFailed
| EB_ErrorMutexUnresponsive
| EB_ErrorDestroyMutexFailed
| EB_NoErrorEmptyQueue
| EB_ErrorOther (code : Z).

Inductive EB_COLOR_FORMAT : Type := EB_YUV400 | EB_YUV420 | EB_YUV422 | EB_YUV444.

Definition EB_COLOR_FORMAT_eqb (a b : EB_COLOR_FORMAT) : bool :=
  match a, b with
  | EB_YUV400, EB_YUV400 | EB_YUV420, EB_YUV420
  | EB_YUV422, EB_YUV422 | EB_YUV444, EB_YUV444 => true
  | _, _ => false
  end.

Definition EB_BUFFERFLAG_EOS : Z := 1.

Definition EB_B_PICTURE : Z := 0.
Definition EB_P_PICTURE : Z := 1.
Definition EB_I_PICTURE : Z := 2.
Definition EB_IDR_PICTURE : Z := 3.
Definition EB_NON_REF_PICTURE : Z := 4.
Definition EB_INVALID_PICTURE : Z := 255.

(** The fields of [EB_H265_ENC_CONFIGURATION] read by [read_in_data]
    ([sourceWidth] and [sourceHeight] are 32-bit unsigned). *)
Record EB_H265_ENC_CONFIGURATION : Type := {
  sourceWidth : Z;
  sourceHeight : Z;
  encoderBitDepth : Z;
  encoderColorFormat : EB_COLOR_FORMAT
}.

(** [EB_H265_ENC_INPUT]: plane addresses and 32-bit unsigned strides. *)
Record EB_H265_ENC_INPUT : Type := {
  luma : Z;
  cb : Z;
  cr : Z;
  yStride : Z;
  cbStride : Z;
  crStride : Z
}.

(** What the [uint8_t *pBuffer] of a buffer header points at: nothing, the
    picture descriptor allocated by [alloc_buffer], or the bytes of an
    encoded packet. *)
Inductive Buffer : Type :=
| NullBuf
| InData (d : EB_H265_ENC_INPUT)
| Bytes (b : list byte).

(** [EB_BUFFERHEADERTYPE]; [nSize], [nFilledLen], [nAllocLen],
    [nTickCount], [sliceType] and [nFlags] are 32-bit unsigned, [pts] and
    [dts] 64-bit signed. *)
Record EB_BUFFERHEADERTYPE : Type := {
  nSize : Z;
  pBuffer : Buffer;
  nFilledLen : Z;
  nAllocLen : Z;
  nTickCount : Z;
  dts : Z;
  pts : Z;
  sliceType : Z;
  nFlags : Z
}.

(** ** libavutil / libavcodec interface *)

Definition AVERROR (e : Z) : Z := - e.
Definition ENOMEM : Z := 12.
Definition EINVAL : Z := 22.
Definition EAGAIN : Z := 11.
(** [FFERRTAG('E','X','T',' ')] and [FFERRTAG('U','N','K','N')]. *)
Definition AVERROR_EXTERNAL : Z := - 542398533.
Definition AVERROR_UNKNOWN : Z := - 1313558101.

Definition AV_PKT_FLAG_KEY : Z := 1.
Definition AV_PKT_FLAG_DISPOSABLE : Z := 16.

Inductive AVPacketSideDataType : Type :=
| AV_PKT_DATA_STRINGS_METADATA
| AV_PKT_DATA_OTHER (t : Z).

Record AVPacket : Type := {
  pkt_data : list byte;
  pkt_size : Z;
  pkt_pts : Z;
  pkt_dts : Z;
  pkt_flags : Z;
  pkt_side_data : list (AVPacketSideDataType * list byte)
}.

(** ** error_mapping *)

Definition error_mapping (svt_ret : EB_ERRORTYPE) : Z :=
  match svt_ret with
  | EB_ErrorInsufficientResources => AVERROR ENOMEM
  | EB_ErrorUndefined
  | EB_ErrorInvalidComponent
  | EB_ErrorBadParameter => AVERROR EINVAL
  | EB_ErrorDestroyThreadFailed
  | EB_ErrorSemaphoreUnresponsive
  | EB_ErrorDestroySemaphoreFailed
  | EB_ErrorCreateMutexFailed
  | EB_ErrorMutexUnresponsive
  | EB_ErrorDestroyMutexFailed => AVERROR_EXTERNAL
  | EB_NoErrorEmptyQueue => AVERROR EAGAIN
  | EB_ErrorNone => 0
  | EB_ErrorOther _ => AVERROR_UNKNOWN
  end.

(** ** Plugin state *)

Inductive EOS_STATUS : Type := EOS_NOT_REACHED | EOS_SENT | EOS_RECEIVED.

(** The numeric value of the enumerators. *)
Definition eos_rank (e : EOS_STATUS) : Z :=
  match e with EOS_NOT_REACHED => 0 | EOS_SENT => 1 | EOS_RECEIVED => 2 end.

(** [EB_FRAMEMETADATA] without its list link: the saved timestamp, the
    packed dictionary ([None] is a null pointer) and its size. *)
Record EB_FRAMEMETADATA : Type := {
  md_pts : Z;
  metadata : option (list byte);
  size : Z
}.

(** The fields of [SvtContext] used after initialisation.  [metadata_list]
    is the field [list]; [svt_handle] is [None] when the pointer is null. *)
Record SvtContext : Type := {
  enc_params : EB_H265_ENC_CONFIGURATION;
  svt_handle : option Z;
  in_buf : EB_BUFFERHEADERTYPE;
  eos_flag : EOS_STATUS;
  metadata_list : list EB_FRAMEMETADATA
}.

Definition set_in_buf (h : EB_BUFFERHEADERTYPE) (c : SvtContext) : SvtContext :=
  {| enc_params := enc_params c; svt_handle := svt_handle c; in_buf := h;
     eos_flag := eos_flag c; metadata_list := metadata_list c |}.

Definition set_eos_flag (e : EOS_STATUS) (c : SvtContext) : SvtContext :=
  {| enc_params := enc_params c; svt_handle := svt_handle c; in_buf := in_buf c;
     eos_flag := e; metadata_list := metadata_list c |}.

Definition set_metadata_list (l : list EB_FRAMEMETADATA) (c : SvtContext)
  : SvtContext :=
  {| enc_params := enc_params c; svt_handle := svt_handle c; in_buf := in_buf c;
     eos_flag := eos_flag c; metadata_list := l |}.

Definition set_svt_handle (h : option Z) (c : SvtContext) : SvtContext :=
  {| enc_params := enc_params c; svt_handle := h; in_buf := in_buf c;
     eos_flag := eos_flag c; metadata_list := metadata_list c |}.

(** ** Calls that leave the plugin *)

(** The fields of an output buffer header the plugin reads. *)
Inductive OutField : Type :=
| F_pBuffer | F_nFilledLen | F_pts | F_dts | F_sliceType | F_nFlags.

Inductive Event : Type :=
| EvSendPicture (hdr : EB_BUFFERHEADERTYPE)
| EvGetPacket (pic_send_done : EOS_STATUS)
| EvReadOut (f : OutField)
| EvReleaseOutBuffer
| EvAllocPacket (sz : Z)
| EvNewSideData (t : AVPacketSideDataType) (sz : Z)
| EvMallocz
| EvFreeMetadata (p : EB_FRAMEMETADATA)
| EvFreeEntry (p : EB_FRAMEMETADATA)
| EvFreeInData (b : Buffer)
| EvDeinitEncoder
| EvDeinitHandle.

(** What the callees answer during one call of [eb_encode_frame]. *)
Record Env : Type := {
  send_ret : EB_ERRORTYPE;               (* EbH265EncSendPicture *)
  mallocz_ok : bool;                     (* av_mallocz gave a block *)
  get_ret : EB_ERRORTYPE;                (* EbH265GetPacket *)
  get_out : option EB_BUFFERHEADERTYPE;  (* header_ptr after EbH265GetPacket *)
  alloc_ret : Z;                         (* ff_alloc_packet2 *)
  side_data_ok : bool;                   (* av_packet_new_side_data gave a block *)
  released_nFlags : Z                    (* header_ptr->nFlags once released *)
}.

(** ** State, trace and crash monad *)

Inductive Outcome (A : Type) : Type :=
| Crash (tr : list Event)
| Done (a : A) (st : SvtContext) (tr : list Event).

Arguments Crash {A} tr.

Definition M (A : Type) : Type := SvtContext -> Outcome A.

Definition ret {A} (a : A) : M A := fun st => Done a st [].

Definition bind {A B} (m : M A) (k : A -> M B) : M B :=
  fun st =>
    match m st with
    | Crash tr => Crash tr
    | Done a st1 tr1 =>
        match k a st1 with
        | Crash tr2 => Crash (tr1 ++ tr2)
        | Done b st2 tr2 => Done b st2 (tr1 ++ tr2)
        end
    end.

Definition get : M SvtContext := fun st => Done st st [].
Definition modify (f : SvtContext -> SvtContext) : M unit :=
  fun st => Done tt (f st) [].
Definition emit (e : Event) : M unit := fun st => Done tt st [e].
(** A null pointer dereference. *)
Definition crash {A} : M A := fun _ => Crash [].

Declare Scope m_scope.
Delimit Scope m_scope with m.
Notation "x <- m ;; k" := (bind m (fun x => k))
  (at level 61, m at next level, right associativity) : m_scope.
Notation "m ;; k" := (bind m (fun _ => k))
  (at level 61, right associativity) : m_scope.
Open Scope m_scope.

Definition EbH265EncSendPicture (env : Env) (hdr : EB_BUFFERHEADERTYPE)
  : M EB_ERRORTYPE :=
  emit (EvSendPicture hdr) ;; ret (send_ret env).

Definition EbH265GetPacket (env : Env) (pic_send_done : EOS_STATUS)
  : M (EB_ERRORTYPE * option EB_BUFFERHEADERTYPE) :=
  emit (EvGetPacket pic_send_done) ;; ret (get_ret env, get_out env).

Definition EbH265ReleaseOutBuffer : M unit := emit EvReleaseOutBuffer.

(** A read of [header_ptr->f] on the header handed out by the encoder. *)
Definition read_out {A} (f : OutField) (v : A) : M A :=
  emit (EvReadOut f) ;; ret v.

(** [memcpy(dst, src, n)] from a buffer header's [pBuffer]: the bytes
    copied, or nothing when the copy would read outside the source (more
    than it holds, or from a pointer that is no byte buffer). *)
Definition memcpy_from (src : Buffer) (n : Z) : option (list byte) :=
  match src with
  | Bytes b =>
      if (0 <=? n) && (n <=? Z.of_nat (length b))
      then Some (firstn (Z.to_nat n) b)
      else None
  | NullBuf => if n =? 0 then Some [] else None
  | InData _ => None
  end.

(** ** free_buffer, alloc_buffer *)

(** [free_buffer] hands the current [in_buf.pBuffer] to [av_freep]; only the
    local copy of the pointer is cleared, the field keeps its value. *)
Definition free_buffer : M unit :=
  svt_enc <- get ;;
  let in_data := pBuffer (in_buf svt_enc) in
  emit (EvFreeInData in_data).

(** [alloc_buffer] when [av_mallocz] succeeds: a zeroed header with [nSize]
    and [sliceType] set, pointing at a zeroed picture descriptor. *)
Definition alloc_buffer (sizeof_in_buf : Z) : EB_BUFFERHEADERTYPE :=
  {| nSize := sizeof_in_buf;
     pBuffer := InData {| luma := 0; cb := 0; cr := 0;
                          yStride := 0; cbStride := 0; crStride := 0 |};
     nFilledLen := 0; nAllocLen := 0; nTickCount := 0; dts := 0; pts := 0;
     sliceType := EB_INVALID_PICTURE; nFlags := 0 |}.

(** The context [eb_enc_init] leaves behind when every step succeeds:
    [eos_flag = EOS_NOT_REACHED], the buffer of [alloc_buffer], and
    [INIT_LIST_HEAD(&svt_enc->list)]. *)
Definition eb_enc_init (params : EB_H265_ENC_CONFIGURATION) (handle : Z)
    (sizeof_in_buf : Z) : SvtContext :=
  {| enc_params := params;
     svt_handle := Some handle;
     in_buf := alloc_buffer sizeof_in_buf;
     eos_flag := EOS_NOT_REACHED;
     metadata_list := ListH.INIT_LIST_HEAD EB_FRAMEMETADATA |}.

(** ** eb_enc_close *)

Definition eb_enc_close : M Z :=
  free_buffer ;;
  svt_enc <- get ;;
  match svt_handle svt_enc with
  | Some _ =>
      emit EvDeinitEncoder ;;
      emit EvDeinitHandle ;;
      modify (set_svt_handle None)
  | None => ret tt
  end ;;
  ret 0.

Section Plugin.

(** [AVDictionary] and [av_packet_pack_dictionary] belong to libavutil and
    libavcodec; the packing function yields the data pointer ([None] when
    null) and the value stored through its [size] argument. *)
Variable AVDictionary : Type.
Variable av_packet_pack_dictionary : AVDictionary -> option (list byte) * Z.

(** The fields of [AVFrame] read by the plugin; [frame_metadata] is
    [None] when [frame->metadata] is null. *)
Record AVFrame : Type := {
  data0 : Z; data1 : Z; data2 : Z;
  linesize0 : Z; linesize1 : Z; linesize2 : Z;
  frame_pts : Z;
  frame_metadata : option AVDictionary
}.

(** *** read_in_data *)

Definition is16bit_of (config : EB_H265_ENC_CONFIGURATION) : Z :=
  if 8 <? encoderBitDepth config then 1 else 0.

(** The value of the local [frame_size] when it is added to
    [nFilledLen]. *)
Definition frame_size_of (config : EB_H265_ENC_CONFIGURATION) : Z :=
  let is16bit := is16bit_of config in
  let frame_size :=
    Int.to_uint64
      (Z.shiftl (Int.to_uint32 (sourceWidth config * sourceHeight config))
                is16bit) in
  if EB_COLOR_FORMAT_eqb (encoderColorFormat config) EB_YUV420 then
    Int.to_uint64 (frame_size * (3 / 2))
  else if EB_COLOR_FORMAT_eqb (encoderColorFormat config) EB_YUV422 then
    Int.to_uint64 (frame_size * 2)
  else
    Int.to_uint64 (frame_size * 3).

(** [None] when [header_ptr->pBuffer] is not a picture descriptor, which
    the function dereferences. *)
Definition read_in_data (config : EB_H265_ENC_CONFIGURATION)
    (frame : AVFrame) (header_ptr : EB_BUFFERHEADERTYPE)
  : option EB_BUFFERHEADERTYPE :=
  let is16bit := is16bit_of config in
  match pBuffer header_ptr with
  | InData _ =>
      let in_data :=
        {| luma := data0 frame;
           cb := data1 frame;
           cr := data2 frame;
           yStride := Int.to_uint32 (Z.shiftr (linesize0 frame) is16bit);
           cbStride := Int.to_uint32 (Z.shiftr (linesize1 frame) is16bit);
           crStride := Int.to_uint32 (Z.shiftr (linesize2 frame) is16bit) |} in
      Some {| nSize := nSize header_ptr;
              pBuffer := InData in_data;
              nFilledLen :=
                Int.to_uint32 (nFilledLen header_ptr + frame_size_of config);
              nAllocLen := nAllocLen header_ptr;
              nTickCount := nTickCount header_ptr;
              dts := dts header_ptr;
              pts := pts header_ptr;
              sliceType := sliceType header_ptr;
              nFlags := nFlags header_ptr |}
  | _ => None
  end.

Definition set_pts (v : Z) (h : EB_BUFFERHEADERTYPE) : EB_BUFFERHEADERTYPE :=
  {| nSize := nSize h; pBuffer := pBuffer h; nFilledLen := nFilledLen h;
     nAllocLen := nAllocLen h; nTickCount := nTickCount h; dts := dts h;
     pts := v; sliceType := sliceType h; nFlags := nFlags h |}.

(** The five assignments of the end-of-stream branch. *)
Definition mark_eos (h : EB_BUFFERHEADERTYPE) : EB_BUFFERHEADERTYPE :=
  {| nSize := nSize h; pBuffer := NullBuf; nFilledLen := 0;
     nAllocLen := 0; nTickCount := 0; dts := dts h;
     pts := pts h; sliceType := sliceType h; nFlags := EB_BUFFERFLAG_EOS |}.

(** *** eb_encode_frame *)

(** What a call hands back: the return value, [*pkt] and [*got_packet]. *)
Record Returned : Type := {
  ret_val : Z;
  ret_pkt : AVPacket;
  ret_got_packet : Z
}.

Definition same_pts (t : Z) (p : EB_FRAMEMETADATA) : bool := t =? md_pts p.

(** [p->metadata && p->size > 0]. *)
Definition has_payload (p : EB_FRAMEMETADATA) : bool :=
  match metadata p with
  | Some _ => 0 <? size p
  | None => false
  end.

(** The bytes [memcpy(side_data, p->metadata, p->size)] copies. *)
Definition payload (p : EB_FRAMEMETADATA) : list byte :=
  match metadata p with
  | Some b => firstn (Z.to_nat (size p)) b
  | None => []
  end.

(** The submission half (the [if (!frame) ... else ...] statement).  The
    result is [false] when the function leaves through the [return 0] of
    the duplicate scan, [true] when control reaches [EbH265GetPacket]. *)
Definition submit (env : Env) (frame : option AVFrame) : M bool :=
  match frame with
  | None =>
      svt_enc <- get ;;
      match eos_flag svt_enc with
      | EOS_NOT_REACHED =>
          modify (set_eos_flag EOS_SENT) ;;
          modify (fun c => set_in_buf (mark_eos (in_buf c)) c) ;;
          svt_enc <- get ;;
          _ <- EbH265EncSendPicture env (in_buf svt_enc) ;;
          ret true
      | _ => ret true
      end
  | Some frame =>
      svt_enc <- get ;;
      match read_in_data (enc_params svt_enc) frame (in_buf svt_enc) with
      | None => crash
      | Some header =>
          let header := set_pts (frame_pts frame) header in
          modify (set_in_buf header) ;;
          _ <- EbH265EncSendPicture env header ;;
          match frame_metadata frame with
          | None => ret true
          | Some dict =>
              match ListH.list_for_each_until (same_pts (frame_pts frame))
                      (metadata_list svt_enc) with
              | Some _ => ret false
              | None =>
                  emit EvMallocz ;;
                  if mallocz_ok env then
                    let '(packed, metadata_size) :=
                      av_packet_pack_dictionary dict in
                    let p := {| md_pts := frame_pts frame;
                                metadata := packed;
                                size := metadata_size |} in
                    modify (fun c =>
                      set_metadata_list
                        (ListH.list_add_tail p (metadata_list c)) c) ;;
                    ret true
                  else crash
              end
          end
      end
  end.

Definition set_flags (v : Z) (pkt : AVPacket) : AVPacket :=
  {| pkt_data := pkt_data pkt; pkt_size := pkt_size pkt;
     pkt_pts := pkt_pts pkt; pkt_dts := pkt_dts pkt; pkt_flags := v;
     pkt_side_data := pkt_side_data pkt |}.

(** The packet after [av_packet_new_side_data] and the [memcpy] filling
    the new element. *)
Definition add_side_data (t : AVPacketSideDataType) (b : list byte)
    (pkt : AVPacket) : AVPacket :=
  {| pkt_data := pkt_data pkt; pkt_size := pkt_size pkt;
     pkt_pts := pkt_pts pkt; pkt_dts := pkt_dts pkt;
     pkt_flags := pkt_flags pkt;
     pkt_side_data := pkt_side_data pkt ++ [(t, b)] |}.

(** [ff_alloc_packet2(avctx, pkt, size, 0)]: the status comes from the
    environment. *)
Definition ff_alloc_packet2 (env : Env) (sz : Z) : M Z :=
  emit (EvAllocPacket sz) ;; ret (alloc_ret env).

(** The two [if] statements on [header_ptr->sliceType]; the second
    operand of [||] is read only when the first comparison fails. *)
Definition slice_flags (header : EB_BUFFERHEADERTYPE) (pkt : AVPacket)
  : M AVPacket :=
  s <- read_out F_sliceType (sliceType header) ;;
  key <- (if s =? EB_IDR_PICTURE then ret true
          else s <- read_out F_sliceType (sliceType header) ;;
               ret (s =? EB_I_PICTURE)) ;;
  let pkt := if key then set_flags (Z.lor (pkt_flags pkt) AV_PKT_FLAG_KEY) pkt
             else pkt in
  s <- read_out F_sliceType (sliceType header) ;;
  ret (if s =? EB_NON_REF_PICTURE
       then set_flags (Z.lor (pkt_flags pkt) AV_PKT_FLAG_DISPOSABLE) pkt
       else pkt).

(** The loop over the saved metadata: it stops at the first entry with
    the packet's timestamp, and moves that entry's payload to the packet
    when there is one. *)
Definition attach_metadata (env : Env) (pkt : AVPacket) : M AVPacket :=
  svt_enc <- get ;;
  match ListH.list_for_each_until (same_pts (pkt_pts pkt))
          (metadata_list svt_enc) with
  | Some (before, p, after) =>
      if has_payload p then
        emit (EvNewSideData AV_PKT_DATA_STRINGS_METADATA (size p)) ;;
        if side_data_ok env then
          let pkt := add_side_data AV_PKT_DATA_STRINGS_METADATA (payload p) pkt in
          emit (EvFreeMetadata p) ;;
          modify (set_metadata_list (before ++ after)) ;;
          emit (EvFreeEntry p) ;;
          ret pkt
        else crash
      else ret pkt
  | None => ret pkt
  end.

(** The retrieval half, from [header_ptr = NULL] to the end.  The read of
    [nFlags] comes after [EbH265ReleaseOutBuffer]: what it yields is up to
    the library, and is taken from the environment ([released_nFlags]),
    not from the header as it was handed out. *)
Definition fetch_packet (env : Env) (pkt : AVPacket) (got_packet : Z)
  : M Returned :=
  svt_enc <- get ;;
  r <- EbH265GetPacket env (eos_flag svt_enc) ;;
  let '(svt_ret, header_ptr) := r in
  match svt_ret with
  | EB_NoErrorEmptyQueue =>
      ret {| ret_val := 0; ret_pkt := pkt; ret_got_packet := 0 |}
  | _ =>
      match header_ptr with
      | None => crash
      | Some header =>
          _ <- read_out F_pts (pts header) ;;
          len <- read_out F_nFilledLen (nFilledLen header) ;;
          av_ret <- ff_alloc_packet2 env len ;;
          if negb (av_ret =? 0) then
            EbH265ReleaseOutBuffer ;;
            ret {| ret_val := av_ret; ret_pkt := pkt;
                   ret_got_packet := got_packet |}
          else
            src <- read_out F_pBuffer (pBuffer header) ;;
            len <- read_out F_nFilledLen (nFilledLen header) ;;
            match memcpy_from src len with
            | None => crash
            | Some bytes =>
                sz <- read_out F_nFilledLen (nFilledLen header) ;;
                p <- read_out F_pts (pts header) ;;
                d <- read_out F_dts (dts header) ;;
                let pkt :=
                  {| pkt_data := bytes; pkt_size := Int.to_int32 sz;
                     pkt_pts := p; pkt_dts := d;
                     pkt_flags := pkt_flags pkt;
                     pkt_side_data := pkt_side_data pkt |} in
                pkt <- slice_flags header pkt ;;
                pkt <- attach_metadata env pkt ;;
                EbH265ReleaseOutBuffer ;;
                flags <- read_out F_nFlags (released_nFlags env) ;;
                (if EB_BUFFERFLAG_EOS =? flags
                 then modify (set_eos_flag EOS_RECEIVED)
                 else ret tt) ;;
                ret {| ret_val := 0; ret_pkt := pkt; ret_got_packet := 1 |}
            end
      end
  end.

Definition eb_encode_frame (env : Env) (pkt : AVPacket)
    (frame : option AVFrame) (got_packet : Z) : M Returned :=
  svt_enc <- get ;;
  match eos_flag svt_enc with
  | EOS_RECEIVED =>
      ret {| ret_val := 0; ret_pkt := pkt; ret_got_packet := 0 |}
  | _ =>
      continue <- submit env frame ;;
      if continue then fetch_packet env pkt got_packet
      else ret {| ret_val := 0; ret_pkt := pkt;
                  ret_got_packet := got_packet |}
  end.

(** *** Sequences of calls *)

Record Call : Type := {
  c_env : Env;
  c_pkt : AVPacket;
  c_frame : option AVFrame;
  c_got_packet : Z
}.

Definition call (c : Call) : M Returned :=
  eb_encode_frame (c_env c) (c_pkt c) (c_frame c) (c_got_packet c).

(** The calls of [cs] one after the other, with what each returned. *)
Fixpoint run (cs : list Call) : M (list Returned) :=
  match cs with
  | [] => ret []
  | c :: cs' =>
      r <- call c ;;
      rs <- run cs' ;;
      ret (r :: rs)
  end.

(** *** Vocabulary of the statements *)

(** The entry [submit] appends for a frame carrying the dictionary [d]. *)
Definition entry_of (f : AVFrame) (d : AVDictionary) : EB_FRAMEMETADATA :=
  {| md_pts := frame_pts f;
     metadata := fst (av_packet_pack_dictionary d);
     size := snd (av_packet_pack_dictionary d) |}.

(** The reads of the output header between [ff_alloc_packet2] and the
    slice type tests, on the path that fills the packet. *)
Definition reads_before_flags : list Event :=
  [EvReadOut F_pBuffer; EvReadOut F_nFilledLen; EvReadOut F_nFilledLen;
   EvReadOut F_pts; EvReadOut F_dts].

(** The end-of-stream picture: no data, no length, the flag set. *)
Definition is_eos_sentinel (h : EB_BUFFERHEADERTYPE) : bool :=
  match pBuffer h with
  | NullBuf => (nFilledLen h =? 0) && (nFlags h =? EB_BUFFERFLAG_EOS)
  | _ => false
  end.

Definition is_eos_send (e : Event) : bool :=
  match e with
  | EvSendPicture h => is_eos_sentinel h
  | _ => false
  end.

(** The output header with which a call reaches its last statements: the
    queue was not empty and the packet could be allocated. *)
Definition retrieved_header (env : Env) : option EB_BUFFERHEADERTYPE :=
  match get_ret env with
  | EB_NoErrorEmptyQueue => None
  | _ => if alloc_ret env =? 0 then get_out env else None
  end.

(** The test [EB_BUFFERFLAG_EOS == header_ptr->nFlags] is reached and
    succeeds: it compares the whole field, read after the release. *)
Definition carries_eos (env : Env) : bool :=
  match retrieved_header env with
  | Some _ => EB_BUFFERFLAG_EOS =? released_nFlags env
  | None => false
  end.

(** The frames handed to a sequence of calls, in order. *)
Definition frames_of (cs : list Call) : list AVFrame :=
  flat_map (fun c => match c_frame c with Some f => [f] | None => [] end) cs.

(** A context is reachable when some sequence of calls leads to it from
    the context a successful [eb_enc_init] leaves. *)
Definition reachable (st : SvtContext) : Prop :=
  exists params handle sizeof_in_buf cs rs tr,
    run cs (eb_enc_init params handle sizeof_in_buf) = Done rs st tr.

(** What the metadata list holds after the calls [hist] returned [rs]:
    only timestamps of frames that were handed in, and, for every frame
    handed in with a dictionary, its entry -- unless a packet with its
    timestamp has been returned or the flush state is [EOS_RECEIVED]. *)
Definition cache_inv (st : SvtContext) (hist : list Call)
    (rs : list Returned) : Prop :=
  (forall p, In p (metadata_list st) ->
             In (md_pts p) (map frame_pts (frames_of hist))) /\
  (forall f d, In f (frames_of hist) -> frame_metadata f = Some d ->
     eos_flag st = EOS_RECEIVED \/
     (exists r0, In r0 rs /\ ret_got_packet r0 = 1 /\
                 pkt_pts (ret_pkt r0) = frame_pts f) \/
     In (entry_of f d) (metadata_list st)).

End Plugin.

Arguments frame_pts {AVDictionary} _.
Arguments frame_metadata {AVDictionary} _.
Arguments c_frame {AVDictionary} _.
Arguments c_env {AVDictionary} _.
Arguments c_pkt {AVDictionary} _.
Arguments c_got_packet {AVDictionary} _.

(** ** Further vocabulary *)

(** The environment [env] with the status of [EbH265EncSendPicture]
    replaced. *)
Definition with_send_ret (e : EB_ERRORTYPE) (env : Env) : Env :=
  {| send_ret := e; mallocz_ok := mallocz_ok env; get_ret := get_ret env;
     get_out := get_out env; alloc_ret := alloc_ret env;
     side_data_ok := side_data_ok env;
     released_nFlags := released_nFlags env |}.

(** What follows the first [EbH265ReleaseOutBuffer] in a trace. *)
Fixpoint after_release (tr : list Event) : list Event :=
  match tr with
  | [] => []
  | EvReleaseOutBuffer :: tr' => tr'
  | _ :: tr' => after_release tr'
  end.

Definition is_read_out (e : Event) : bool :=
  match e with EvReadOut _ => true | _ => false end.

Definition is_release (e : Event) : bool :=
  match e with EvReleaseOutBuffer => true | _ => false end.

Definition is_free_of_entry (e : Event) : bool :=
  match e with EvFreeMetadata _ | EvFreeEntry _ => true | _ => false end.

(** The frame size in the words of the specification: width times height,
    doubled for 16-bit samples, then times 1.5 for 4:2:0, times 2 for 4:2:2
    and times 3 for 4:4:4. *)
Definition spec_frame_size (config : EB_H265_ENC_CONFIGURATION) : Z :=
  let luma := sourceWidth config * sourceHeight config *
              (if 8 <? encoderBitDepth config then 2 else 1) in
  match encoderColorFormat config with
  | EB_YUV420 => luma * 3 / 2
  | EB_YUV422 => luma * 2
  | _ => luma * 3
  end.

(** The duplicate scan of a submission returns: the frame carries a
    dictionary and its timestamp is already in the metadata list, so the
    call ends before [EbH265GetPacket]. *)
Definition returns_early {D : Type} (frame : option (AVFrame D))
    (st : SvtContext) : bool :=
  match frame with
  | Some f =>
      match frame_metadata f,
            ListH.list_for_each_until (same_pts (frame_pts f))
              (metadata_list st) with
      | Some _, Some _ => true
      | _, _ => false
      end
  | None => false
  end.

(** The flush state machine of one call, in closed form: nothing moves in
    [EOS_RECEIVED]; otherwise end of input leads to [EOS_SENT], and a
    call that gets to the test on [nFlags] and finds it true leads to
    [EOS_RECEIVED], from either of the other states. *)
Definition flush_step {D : Type} (c : Call D) (st : SvtContext)
  : EOS_STATUS :=
  match eos_flag st with
  | EOS_RECEIVED => EOS_RECEIVED
  | s =>
      if negb (returns_early (c_frame c) st) && carries_eos (c_env c)
      then EOS_RECEIVED
      else match c_frame c with
           | None => EOS_SENT
           | Some _ => s
           end
  end.

(** The end-of-stream pictures one call sends. *)
Definition sentinel_of {D : Type} (c : Call D) (st : SvtContext)
  : list Event :=
  match eos_flag st, c_frame c with
  | EOS_NOT_REACHED, None => [EvSendPicture (mark_eos (in_buf st))]
  | _, _ => []
  end.

(** ** Concrete inputs *)

Module Sample.

(** Dictionaries given directly by their packed form; the empty one packs
    to a null pointer and size 0. *)
Definition Dict : Type := list byte.

Definition pack (d : Dict) : option (list byte) * Z :=
  match d with
  | [] => (None, 0)
  | _ => (Some d, Z.of_nat (length d))
  end.

Definition cfg_1080p : EB_H265_ENC_CONFIGURATION :=
  {| sourceWidth := 1920; sourceHeight := 1080; encoderBitDepth := 8;
     encoderColorFormat := EB_YUV420 |}.

Definition cfg_2x2 : EB_H265_ENC_CONFIGURATION :=
  {| sourceWidth := 2; sourceHeight := 2; encoderBitDepth := 8;
     encoderColorFormat := EB_YUV420 |}.

Definition ctx (cfg : EB_H265_ENC_CONFIGURATION) : SvtContext :=
  eb_enc_init cfg 1 72.

Definition frame_at (t : Z) (md : option Dict) : AVFrame Dict :=
  {| data0 := 4096; data1 := 8192; data2 := 12288;
     linesize0 := 1920; linesize1 := 960; linesize2 := 960;
     frame_pts := t; frame_metadata := md |}.

Definition pkt0 : AVPacket :=
  {| pkt_data := []; pkt_size := 0; pkt_pts := 0; pkt_dts := 0;
     pkt_flags := 0; pkt_side_data := [] |}.

(** The encoder accepts the picture and has nothing to hand back. *)
Definition env_empty : Env :=
  {| send_ret := EB_ErrorNone; mallocz_ok := true;
     get_ret := EB_NoErrorEmptyQueue; get_out := None;
     alloc_ret := 0; side_data_ok := true; released_nFlags := 0 |}.

Definition out_header (t flags : Z) : EB_BUFFERHEADERTYPE :=
  {| nSize := 72; pBuffer := Bytes [x00; x00; x01]; nFilledLen := 3;
     nAllocLen := 3; nTickCount := 0; dts := t; pts := t;
     sliceType := EB_IDR_PICTURE; nFlags := flags |}.

(** The encoder accepts the picture and hands back a packet stamped [t];
    the header still reads the same once released. *)
Definition env_packet (t flags : Z) : Env :=
  {| send_ret := EB_ErrorNone; mallocz_ok := true;
     get_ret := EB_ErrorNone; get_out := Some (out_header t flags);
     alloc_ret := 0; side_data_ok := true; released_nFlags := flags |}.

Definition mk_call (env : Env) (frame : option (AVFrame Dict)) : Call Dict :=
  {| c_env := env; c_pkt := pkt0; c_frame := frame; c_got_packet := 0 |}.

Definition meta_a : Dict := [x6d; x65; x74; x61; x2d; x61; x00].
Definition meta_b : Dict := [x6d; x65; x74; x61; x2d; x62; x00].

(** [n] frames without metadata, stamped 0, 1, ..., each submitted while
    the output queue is empty. *)
Definition plain_calls (n : nat) : list (Call Dict) :=
  map (fun i => mk_call env_empty (Some (frame_at (Z.of_nat i) None)))
      (seq 0 n).

(** The parts of an outcome, with a default for a crash. *)
Definition final_state {A} (o : Outcome A) (dflt : SvtContext) : SvtContext :=
  match o with Done _ st _ => st | Crash _ => dflt end.

Definition returned {A} (o : Outcome A) (dflt : A) : A :=
  match o with Done a _ _ => a | Crash _ => dflt end.

Definition trace {A} (o : Outcome A) : list Event :=
  match o with Done _ _ tr => tr | Crash tr => tr end.

Definition completes {A} (o : Outcome A) : bool :=
  match o with Done _ _ _ => true | Crash _ => false end.

Definition no_return : Returned :=
  {| ret_val := 0; ret_pkt := pkt0; ret_got_packet := 0 |}.

(** Frames 100 and 200 go in with metadata while the queue is empty;
    with frame 300 the encoder hands back the packet of frame 200. *)
Definition c100 : Call Dict := mk_call env_empty (Some (frame_at 100 (Some meta_a))).
Definition c200 : Call Dict := mk_call env_empty (Some (frame_at 200 (Some meta_b))).
Definition c300_gets_200 : Call Dict :=
  mk_call (env_packet 200 0) (Some (frame_at 300 None)).

Definition c400_gets_100 : Call Dict :=
  mk_call (env_packet 100 0) (Some (frame_at 400 None)).

(** End of input, answered at once or later by the flagged packet. *)
Definition c_eos : Call Dict := mk_call env_empty None.
Definition c_eos_gets_last : Call Dict :=
  mk_call (env_packet 100 EB_BUFFERFLAG_EOS) None.

(** The submission of frame 100 is refused by the encoder. *)
Definition env_send_fails : Env :=
  with_send_ret EB_ErrorInsufficientResources env_empty.

(** Frame 100 goes in before any end of input, and the encoder answers
    with a header whose [nFlags] is [EB_BUFFERFLAG_EOS]. *)
Definition c100_gets_flagged : Call Dict :=
  mk_call (env_packet 100 EB_BUFFERFLAG_EOS) (Some (frame_at 100 None)).

(** End of input, answered by a header whose [nFlags] holds the
    end-of-stream bit and one more. *)
Definition c_eos_gets_flags_3 : Call Dict := mk_call (env_packet 100 3) None.

End Sample.

(** ** libavutil/list.h on memory

    The list primitives as they are written, on a memory that holds a
    [struct list_head] at every address.  [ListH] above is the view of the
    same list as the sequence of its entries. *)

Module ListMem.

Record list_head : Type := { next : Z; prev : Z }.

Definition Mem : Type := Z -> list_head.

(** [0x00100100] and [0x00200200]. *)
Definition LIST_POISON1 : Z := 1048832.
Definition LIST_POISON2 : Z := 2097664.

(** [p->next = v] and [p->prev = v]. *)
Definition store_next (p v : Z) (m : Mem) : Mem :=
  fun a => if a =? p then {| next := v; prev := prev (m a) |} else m a.

Definition store_prev (p v : Z) (m : Mem) : Mem :=
  fun a => if a =? p then {| next := next (m a); prev := v |} else m a.

Definition __list_add (new prev0 next0 : Z) (m : Mem) : Mem :=
  let m := store_prev next0 new m in
  let m := store_next new next0 m in
  let m := store_prev new prev0 m in
  store_next prev0 new m.

Definition list_add (new head : Z) (m : Mem) : Mem :=
  __list_add new head (next (m head)) m.

Definition INIT_LIST_HEAD (list : Z) (m : Mem) : Mem :=
  let m := store_next list list m in
  store_prev list list m.

Definition list_add_tail (new head : Z) (m : Mem) : Mem :=
  __list_add new (prev (m head)) head m.

Definition __list_del (prev0 next0 : Z) (m : Mem) : Mem :=
  let m := store_prev next0 prev0 m in
  store_next prev0 next0 m.

Definition list_del (entry : Z) (m : Mem) : Mem :=
  let m := __list_del (prev (m entry)) (next (m entry)) m in
  let m := store_next entry LIST_POISON1 m in
  store_prev entry LIST_POISON2 m.

(** [list_for_each(pos, head)] with a body that leaves the list alone: the
    positions the body is run at, in order.  [fuel] bounds the number of
    times the loop condition is tested. *)
Fixpoint list_for_each_from (fuel : nat) (m : Mem) (pos head : Z)
  : option (list Z) :=
  match fuel with
  | O => None
  | S fuel' =>
      if pos =? head then Some []
      else match list_for_each_from fuel' m (next (m pos)) head with
           | Some l => Some (pos :: l)
           | None => None
           end
  end.

Definition list_for_each (fuel : nat) (m : Mem) (head : Z) : option (list Z) :=
  list_for_each_from fuel m (next (m head)) head.

(** [list_for_each_safe(pos, n, head)]: the body gets the position and the
    memory, gives the memory back and says whether it leaves the loop
    ([break]).  [n] is read before the body runs. *)
Fixpoint list_for_each_safe_from (fuel : nat) (body : Z -> Mem -> Mem * bool)
    (m : Mem) (pos n head : Z) : option Mem :=
  match fuel with
  | O => None
  | S fuel' =>
      if pos =? head then Some m
      else
        let '(m', break) := body pos m in
        if break then Some m'
        else list_for_each_safe_from fuel' body m' n (next (m' n)) head
  end.

Definition list_for_each_safe (fuel : nat) (body : Z -> Mem -> Mem * bool)
    (m : Mem) (head : Z) : option Mem :=
  let pos := next (m head) in
  list_for_each_safe_from fuel body m pos (next (m pos)) head.

(** The body of the retrieval loop of [eb_encode_frame] at the level of the
    links: at the first entry that satisfies [stop], [list_del] and
    [break]. *)
Definition del_first (stop : Z -> bool) (pos : Z) (m : Mem) : Mem * bool :=
  if stop pos then (list_del pos m, true) else (m, false).

(** A body that unlinks every entry it is run at. *)
Definition del_each (pos : Z) (m : Mem) : Mem * bool := (list_del pos m, false).

(** Following [f] from [x] goes through [l] and then reaches [z]. *)
Fixpoint walk (f : Z -> Z) (x : Z) (l : list Z) (z : Z) : Prop :=
  match l with
  | [] => f x = z
  | y :: l' => f x = y /\ walk f y l' z
  end.

(** The memory holds the circular list with head [head] and entries [l]:
    all distinct, [next] runs through [l] and back to the head, [prev]
    runs through [l] backwards. *)
Definition repr (m : Mem) (head : Z) (l : list Z) : Prop :=
  NoDup (head :: l) /\
  walk (fun a => next (m a)) head l head /\
  walk (fun a => prev (m a)) head (rev l) head.

(** The sequence the abstract loop leaves when it unlinks the entry it
    stops at. *)
Definition without_first (stop : Z -> bool) (l : list Z) : list Z :=
  match ListH.list_for_each_until stop l with
  | Some (before, _, after) => before ++ after
  | None => l
  end.

(** [INIT_LIST_HEAD] followed by one [list_add_tail] per entry of [l]. *)
Definition add_all (head : Z) (l : list Z) (m : Mem) : Mem :=
  fold_left (fun m x => list_add_tail x head m) l (INIT_LIST_HEAD head m).

End ListMem.

(** ** config_enc_params

    [AVCodecContext], the user options of [SvtContext] and the fields of
    [EB_H265_ENC_CONFIGURATION] the function assigns.  Every assignment
    converts its right-hand side to the type of the field, as EbApi.h
    declares it: [uint8_t] for [encMode], [tune], [codeVpsSpsPps] and
    [codeEosNal]; [int32_t] for [intraPeriodLength],
    [frameRateNumerator] and [frameRateDenominator]; the enumeration for
    [encoderColorFormat]; [uint32_t] for the other fields.  The products
    with [ticks_per_frame] are formed in [int]; their overflow, which C
    leaves undefined, is taken as wrap-around. *)

Module Opt.

(** The user options of [SvtContext]. *)
Record t : Type := {
  profile : Z;
  hierarchical_level : Z;
  enc_mode : Z;
  tier : Z;
  level : Z;
  rc_mode : Z;
  scd : Z;
  tune : Z;
  base_layer_switch_mode : Z;
  qp : Z;
  aud : Z;
  asm_type : Z;
  forced_idr : Z;
  la_depth : Z
}.

End Opt.

Module Config.

Inductive AVPixelFormat : Type :=
| AV_PIX_FMT_YUV420P
| AV_PIX_FMT_YUV420P10
| AV_PIX_FMT_YUV422P
| AV_PIX_FMT_YUV422P10
| AV_PIX_FMT_YUV444P
| AV_PIX_FMT_YUV444P10
| AV_PIX_FMT_OTHER (n : Z).

Definition FF_PROFILE_HEVC_MAIN : Z := 1.
Definition FF_PROFILE_HEVC_MAIN_10 : Z := 2.
Definition FF_PROFILE_HEVC_MAIN_STILL_PICTURE : Z := 3.
Definition FF_PROFILE_HEVC_REXT : Z := 4.

(** [1 << 22]. *)
Definition AV_CODEC_FLAG_GLOBAL_HEADER : Z := 4194304.

Record AVRational : Type := { num : Z; den : Z }.

(** The fields of [AVCodecContext] read by [config_enc_params] and
    [eb_enc_init]. *)
Record AVCodecContext : Type := {
  width : Z;
  height : Z;
  pix_fmt : AVPixelFormat;
  bit_rate : Z;
  gop_size : Z;
  framerate : AVRational;
  time_base : AVRational;
  ticks_per_frame : Z;
  qmax : Z;
  qmin : Z;
  flags : Z
}.

Record Params : Type := {
  sourceWidth : Z;
  sourceHeight : Z;
  encoderBitDepth : Z;
  encoderColorFormat : EB_COLOR_FORMAT;
  profile : Z;
  targetBitRate : Z;
  intraPeriodLength : Z;
  frameRateNumerator : Z;
  frameRateDenominator : Z;
  rateControlMode : Z;
  maxQpAllowed : Z;
  minQpAllowed : Z;
  hierarchicalLevels : Z;
  encMode : Z;
  tier : Z;
  level : Z;
  sceneChangeDetection : Z;
  tune : Z;
  baseLayerSwitchMode : Z;
  qp : Z;
  accessUnitDelimiter : Z;
  asmType : Z;
  intraRefreshType : Z;
  lookAheadDistance : Z;
  codeVpsSpsPps : Z;
  codeEosNal : Z
}.

Definition to_uint8 (x : Z) : Z := x mod 2 ^ 8.

(** The numeric value of the colour format enumerators. *)
Definition color_rank (c : EB_COLOR_FORMAT) : Z :=
  match c with EB_YUV400 => 0 | EB_YUV420 => 1 | EB_YUV422 => 2 | EB_YUV444 => 3 end.

(** The first [if]: 10 bits for the three 10-bit formats, 8 otherwise. *)
Definition bit_depth_of (f : AVPixelFormat) : Z :=
  match f with
  | AV_PIX_FMT_YUV420P10 | AV_PIX_FMT_YUV422P10 | AV_PIX_FMT_YUV444P10 => 10
  | _ => 8
  end.

(** The second [if]: 4:4:4 for every format that is neither 4:2:0 nor
    4:2:2. *)
Definition color_format_of (f : AVPixelFormat) : EB_COLOR_FORMAT :=
  match f with
  | AV_PIX_FMT_YUV420P | AV_PIX_FMT_YUV420P10 => EB_YUV420
  | AV_PIX_FMT_YUV422P | AV_PIX_FMT_YUV422P10 => EB_YUV422
  | _ => EB_YUV444
  end.

(** [avctx->flags & AV_CODEC_FLAG_GLOBAL_HEADER]. *)
Definition global_header (avctx : AVCodecContext) : bool :=
  negb (Z.land (flags avctx) AV_CODEC_FLAG_GLOBAL_HEADER =? 0).

(** [param] after the assignments that precede the profile test. *)
Definition with_source (param : Params) (avctx : AVCodecContext)
    (svt_enc : Opt.t) : Params :=
  {| sourceWidth := Int.to_uint32 (width avctx);
     sourceHeight := Int.to_uint32 (height avctx);
     encoderBitDepth := bit_depth_of (pix_fmt avctx);
     encoderColorFormat := color_format_of (pix_fmt avctx);
     profile := Int.to_uint32 (Opt.profile svt_enc);
     targetBitRate := targetBitRate param;
     intraPeriodLength := intraPeriodLength param;
     frameRateNumerator := frameRateNumerator param;
     frameRateDenominator := frameRateDenominator param;
     rateControlMode := rateControlMode param;
     maxQpAllowed := maxQpAllowed param;
     minQpAllowed := minQpAllowed param;
     hierarchicalLevels := hierarchicalLevels param;
     encMode := encMode param;
     tier := tier param;
     level := level param;
     sceneChangeDetection := sceneChangeDetection param;
     tune := tune param;
     baseLayerSwitchMode := baseLayerSwitchMode param;
     qp := qp param;
     accessUnitDelimiter := accessUnitDelimiter param;
     asmType := asmType param;
     intraRefreshType := intraRefreshType param;
     lookAheadDistance := lookAheadDistance param;
     codeVpsSpsPps := codeVpsSpsPps param;
     codeEosNal := codeEosNal param |}.

(** The two profile adjustments, in order. *)
Definition forced_profile (color : EB_COLOR_FORMAT) (depth : Z) (p : Z) : Z :=
  let p := if (color_rank EB_YUV422 <=? color_rank color)
              && negb (p =? FF_PROFILE_HEVC_REXT)
           then FF_PROFILE_HEVC_REXT else p in
  if (FF_PROFILE_HEVC_MAIN =? p) && (8 <? depth)
  then FF_PROFILE_HEVC_MAIN_10 else p.

Definition config_enc_params (param : Params) (avctx : AVCodecContext)
    (svt_enc : Opt.t) : EB_ERRORTYPE * Params :=
  let param1 := with_source param avctx svt_enc in
  if FF_PROFILE_HEVC_MAIN_STILL_PICTURE =? profile param1 then
    (EB_ErrorBadParameter, param1)
  else
    let use_framerate :=
      (0 <? num (framerate avctx)) && (0 <? den (framerate avctx)) in
    (EB_ErrorNone,
     {| sourceWidth := sourceWidth param1;
        sourceHeight := sourceHeight param1;
        encoderBitDepth := encoderBitDepth param1;
        encoderColorFormat := encoderColorFormat param1;
        profile := forced_profile (encoderColorFormat param1)
                     (encoderBitDepth param1) (profile param1);
        targetBitRate := Int.to_uint32 (bit_rate avctx);
        intraPeriodLength :=
          if 0 <? gop_size avctx then Int.to_int32 (gop_size avctx - 1)
          else intraPeriodLength param;
        frameRateNumerator :=
          if use_framerate then Int.to_int32 (num (framerate avctx))
          else Int.to_int32 (den (time_base avctx));
        frameRateDenominator :=
          if use_framerate
          then Int.to_int32 (den (framerate avctx) * ticks_per_frame avctx)
          else Int.to_int32 (num (time_base avctx) * ticks_per_frame avctx);
        rateControlMode := Int.to_uint32 (Opt.rc_mode svt_enc);
        maxQpAllowed :=
          if negb (rateControlMode param =? 0)
          then Int.to_uint32 (qmax avctx)
          else maxQpAllowed param;
        minQpAllowed :=
          if negb (rateControlMode param =? 0)
          then Int.to_uint32 (qmin avctx)
          else minQpAllowed param;
        hierarchicalLevels := Int.to_uint32 (Opt.hierarchical_level svt_enc);
        encMode := to_uint8 (Opt.enc_mode svt_enc);
        tier := Int.to_uint32 (Opt.tier svt_enc);
        level := Int.to_uint32 (Opt.level svt_enc);
        sceneChangeDetection := Int.to_uint32 (Opt.scd svt_enc);
        tune := to_uint8 (Opt.tune svt_enc);
        baseLayerSwitchMode :=
          Int.to_uint32 (Opt.base_layer_switch_mode svt_enc);
        qp := Int.to_uint32 (Opt.qp svt_enc);
        accessUnitDelimiter := Int.to_uint32 (Opt.aud svt_enc);
        asmType := Int.to_uint32 (Opt.asm_type svt_enc);
        intraRefreshType := Int.to_uint32 (Opt.forced_idr svt_enc + 1);
        lookAheadDistance :=
          if negb (Opt.la_depth svt_enc =? -1)
          then Int.to_uint32 (Opt.la_depth svt_enc)
          else lookAheadDistance param;
        codeVpsSpsPps := if global_header avctx then 0 else 1;
        codeEosNal := 1 |}).

(** The four fields [read_in_data] reads, as the record used for it. *)
Definition read_view (p : Params) : EB_H265_ENC_CONFIGURATION :=
  Build_EB_H265_ENC_CONFIGURATION
    (sourceWidth p) (sourceHeight p) (encoderBitDepth p)
    (encoderColorFormat p).

End Config.

(** ** eb_enc_init, step by step *)

Module Init.

(** The calls [eb_enc_init] makes. *)
Inductive InitEvent : Type :=
| IEvInitHandle
| IEvSetParameter (param : Config.Params)
| IEvInitEncoder
| IEvStreamHeader
| IEvMallocExtradata (sz : Z)
| IEvMalloczInData
| IEvDeinitEncoder
| IEvDeinitHandle.

Definition AV_INPUT_BUFFER_PADDING_SIZE : Z := 64.

(** What the callees answer: the status of each encoder call, what
    [EbInitHandle] stores in [svt_handle] and [enc_params], the header
    [EbH265EncStreamHeader] hands out, and whether the two allocations
    succeed. *)
Record InitEnv : Type := {
  init_handle_ret : EB_ERRORTYPE;
  init_handle : option Z;
  default_params : Config.Params;
  set_parameter_ret : EB_ERRORTYPE;
  init_encoder_ret : EB_ERRORTYPE;
  stream_header_ret : EB_ERRORTYPE;
  stream_header : option EB_BUFFERHEADERTYPE;
  extradata_ok : bool;
  in_data_ok : bool
}.

(** What [eb_enc_init] leaves: the context (its [enc_params] being the view
    of [i_params]), the full encoder parameters, and [avctx->extradata]
    with [avctx->extradata_size]. *)
Record InitState : Type := {
  i_svt : SvtContext;
  i_params : Config.Params;
  i_extradata : option (list byte);
  i_extradata_size : Z
}.

Inductive InitOutcome : Type :=
| InitCrash (tr : list InitEvent)
| InitDone (ret : Z) (st : InitState) (tr : list InitEvent).

Definition is_error_none (e : EB_ERRORTYPE) : bool :=
  match e with EB_ErrorNone => true | _ => false end.

(** [alloc_buffer] with both results of [av_mallocz]. *)
Definition alloc_buffer (ok : bool) (sizeof_in_buf : Z)
  : EB_ERRORTYPE * EB_BUFFERHEADERTYPE :=
  let in_buf :=
    {| nSize := sizeof_in_buf; pBuffer := NullBuf;
       nFilledLen := 0; nAllocLen := 0; nTickCount := 0; dts := 0; pts := 0;
       sliceType := EB_INVALID_PICTURE; nFlags := 0 |} in
  if ok then
    (EB_ErrorNone,
     {| nSize := nSize in_buf;
        pBuffer := InData {| luma := 0; cb := 0; cr := 0;
                             yStride := 0; cbStride := 0; crStride := 0 |};
        nFilledLen := nFilledLen in_buf; nAllocLen := nAllocLen in_buf;
        nTickCount := nTickCount in_buf; dts := dts in_buf; pts := pts in_buf;
        sliceType := sliceType in_buf; nFlags := nFlags in_buf |})
  else (EB_ErrorInsufficientResources, in_buf).

Definition with_params (p : Config.Params) (st : InitState) : InitState :=
  {| i_svt :=
       {| enc_params := Config.read_view p;
          svt_handle := svt_handle (i_svt st);
          in_buf := in_buf (i_svt st);
          eos_flag := eos_flag (i_svt st);
          metadata_list := metadata_list (i_svt st) |};
     i_params := p;
     i_extradata := i_extradata st;
     i_extradata_size := i_extradata_size st |}.

Definition with_svt (f : SvtContext -> SvtContext) (st : InitState)
  : InitState :=
  {| i_svt := f (i_svt st); i_params := i_params st;
     i_extradata := i_extradata st;
     i_extradata_size := i_extradata_size st |}.

(** The label [failed_init_handle]. *)
Definition failed_init_handle (svt_ret : EB_ERRORTYPE) (st : InitState)
    (tr : list InitEvent) : InitOutcome :=
  InitDone (error_mapping svt_ret)
           (with_svt (set_svt_handle None) st)
           (tr ++ [IEvDeinitHandle]).

(** The label [failed_init_encoder], which falls through to
    [failed_init_handle]. *)
Definition failed_init_encoder (svt_ret : EB_ERRORTYPE) (st : InitState)
    (tr : list InitEvent) : InitOutcome :=
  failed_init_handle svt_ret st (tr ++ [IEvDeinitEncoder]).

(** From [alloc_buffer] to [return 0]. *)
Definition init_buffers (env : InitEnv) (sizeof_in_buf : Z) (st : InitState)
    (tr : list InitEvent) : InitOutcome :=
  let tr := tr ++ [IEvMalloczInData] in
  let '(svt_ret, buf) := alloc_buffer (in_data_ok env) sizeof_in_buf in
  let st := with_svt (set_in_buf buf) st in
  if negb (is_error_none svt_ret) then failed_init_encoder svt_ret st tr
  else
    InitDone 0
      (with_svt (set_metadata_list (ListH.INIT_LIST_HEAD EB_FRAMEMETADATA)) st)
      tr.

(** The block under [AV_CODEC_FLAG_GLOBAL_HEADER].  A null [header_ptr], a
    negative [extradata_size] passed to [memcpy] and a source that is not a
    byte buffer are crashes. *)
Definition init_extradata (env : InitEnv) (sizeof_in_buf : Z) (st : InitState)
    (tr : list InitEvent) : InitOutcome :=
  let tr := tr ++ [IEvStreamHeader] in
  let svt_ret := stream_header_ret env in
  if negb (is_error_none svt_ret) then failed_init_encoder svt_ret st tr
  else
    match stream_header env with
    | None => InitCrash tr
    | Some header_ptr =>
        let extradata_size := Int.to_int32 (nFilledLen header_ptr) in
        let tr := tr ++ [IEvMallocExtradata
                           (extradata_size + AV_INPUT_BUFFER_PADDING_SIZE)] in
        let st :=
          {| i_svt := i_svt st; i_params := i_params st;
             i_extradata := i_extradata st;
             i_extradata_size := extradata_size |} in
        if negb (extradata_ok env) then
          let st := {| i_svt := i_svt st; i_params := i_params st;
                       i_extradata := None;
                       i_extradata_size := extradata_size |} in
          failed_init_encoder EB_ErrorInsufficientResources st tr
        else if extradata_size <? 0 then InitCrash tr
        else
          match memcpy_from (pBuffer header_ptr) extradata_size with
          | None => InitCrash tr
          | Some bytes =>
              let st :=
                {| i_svt := i_svt st; i_params := i_params st;
                   i_extradata :=
                     Some (bytes ++ repeat x00
                             (Z.to_nat AV_INPUT_BUFFER_PADDING_SIZE));
                   i_extradata_size := extradata_size |} in
              init_buffers env sizeof_in_buf st tr
          end
    end.

Definition eb_enc_init (env : InitEnv) (avctx : Config.AVCodecContext)
    (svt_enc : Opt.t) (sizeof_in_buf : Z) (st : InitState) : InitOutcome :=
  let st := with_svt (set_eos_flag EOS_NOT_REACHED) st in
  let tr := [IEvInitHandle] in
  let st := with_params (default_params env)
              (with_svt (set_svt_handle (init_handle env)) st) in
  let svt_ret := init_handle_ret env in
  if negb (is_error_none svt_ret) then InitDone (error_mapping svt_ret) st tr
  else
    let '(svt_ret, param) :=
      Config.config_enc_params (i_params st) avctx svt_enc in
    let st := with_params param st in
    if negb (is_error_none svt_ret) then failed_init_handle svt_ret st tr
    else
      let tr := tr ++ [IEvSetParameter (i_params st)] in
      let svt_ret := set_parameter_ret env in
      if negb (is_error_none svt_ret) then failed_init_handle svt_ret st tr
      else
        let tr := tr ++ [IEvInitEncoder] in
        let svt_ret := init_encoder_ret env in
        if negb (is_error_none svt_ret) then failed_init_handle svt_ret st tr
        else if Config.global_header avctx
             then init_extradata env sizeof_in_buf st tr
             else init_buffers env sizeof_in_buf st tr.

(** How often an event occurs in a trace. *)
Definition count (p : InitEvent -> bool) (tr : list InitEvent) : nat :=
  length (filter p tr).

Definition is_deinit_handle (e : InitEvent) : bool :=
  match e with IEvDeinitHandle => true | _ => false end.

Definition is_deinit_encoder (e : InitEvent) : bool :=
  match e with IEvDeinitEncoder => true | _ => false end.

(** Every step of [eb_enc_init] goes well: the statuses are
    [EB_ErrorNone], the profile, as stored in [param->profile], is accepted
    and the allocations succeed. *)
Definition all_ok (env : InitEnv) (avctx : Config.AVCodecContext)
    (svt_enc : Opt.t) : bool :=
  is_error_none (init_handle_ret env)
  && negb (Config.FF_PROFILE_HEVC_MAIN_STILL_PICTURE
           =? Int.to_uint32 (Opt.profile svt_enc))
  && is_error_none (set_parameter_ret env)
  && is_error_none (init_encoder_ret env)
  && (if Config.global_header avctx
      then is_error_none (stream_header_ret env) && extradata_ok env
      else true)
  && in_data_ok env.

(** [EbInitEncoder] was reached and answered [EB_ErrorNone]. *)
Definition encoder_started (env : InitEnv) (svt_enc : Opt.t) : bool :=
  negb (Config.FF_PROFILE_HEVC_MAIN_STILL_PICTURE
        =? Int.to_uint32 (Opt.profile svt_enc))
  && is_error_none (set_parameter_ret env)
  && is_error_none (init_encoder_ret env).

End Init.

(** ** Vocabulary for the input buffer and for sane answers *)

(** What [in_buf.pBuffer] holds in each flush state: the picture descriptor
    until end of input is sent, nothing once it has been sent. *)
Definition in_buf_inv (st : SvtContext) : Prop :=
  match eos_flag st with
  | EOS_NOT_REACHED => exists d, pBuffer (in_buf st) = InData d
  | EOS_SENT => pBuffer (in_buf st) = NullBuf
  | EOS_RECEIVED => True
  end.


(** The flags the two slice type tests add to a packet. *)
Definition slice_type_flags (slice_type : Z) : Z :=
  Z.lor (if (slice_type =? EB_IDR_PICTURE) || (slice_type =? EB_I_PICTURE)
         then AV_PKT_FLAG_KEY else 0)
        (if slice_type =? EB_NON_REF_PICTURE
         then AV_PKT_FLAG_DISPOSABLE else 0).

(** ** Concrete inputs for the list primitives, the configuration and the
    initialisation *)

Module Example.

(** A memory whose links are all null, a head and a list of two entries
    built on it. *)
Definition mem0 : ListMem.Mem :=
  fun _ => {| ListMem.next := 0; ListMem.prev := 0 |}.

Definition head : Z := 1000.

Definition mem_two : ListMem.Mem := ListMem.add_all head [2000; 3000] mem0.

Definition is_3000 (a : Z) : bool := a =? 3000.

(** 1080p, 10-bit 4:2:0, with the defaults of [eb_enc_defaults] except
    [qmax]. *)
Definition avctx : Config.AVCodecContext :=
  {| Config.width := 1920; Config.height := 1080;
     Config.pix_fmt := Config.AV_PIX_FMT_YUV420P10;
     Config.bit_rate := 7000000; Config.gop_size := -2;
     Config.framerate := {| Config.num := 30; Config.den := 1 |};
     Config.time_base := {| Config.num := 1; Config.den := 30 |};
     Config.ticks_per_frame := 1;
     Config.qmax := 40; Config.qmin := 10;
     Config.flags := 0 |}.

(** The defaults of the option table, with [rc] set to [vbr]. *)
Definition opts : Opt.t :=
  {| Opt.profile := Config.FF_PROFILE_HEVC_MAIN;
     Opt.hierarchical_level := 3; Opt.enc_mode := 9; Opt.tier := 0;
     Opt.level := 0; Opt.rc_mode := 1; Opt.scd := 1; Opt.tune := 1;
     Opt.base_layer_switch_mode := 0; Opt.qp := 32; Opt.aud := 0;
     Opt.asm_type := 1; Opt.forced_idr := 0; Opt.la_depth := -1 |}.

(** Parameters as an [EbInitHandle] might store them, in constant QP
    mode. *)
Definition lib_defaults : Config.Params :=
  {| Config.sourceWidth := 0; Config.sourceHeight := 0;
     Config.encoderBitDepth := 8; Config.encoderColorFormat := EB_YUV420;
     Config.profile := 2; Config.targetBitRate := 7000000;
     Config.intraPeriodLength := -2;
     Config.frameRateNumerator := 0; Config.frameRateDenominator := 0;
     Config.rateControlMode := 0;
     Config.maxQpAllowed := 48; Config.minQpAllowed := 10;
     Config.hierarchicalLevels := 3; Config.encMode := 9;
     Config.tier := 0; Config.level := 0;
     Config.sceneChangeDetection := 1; Config.tune := 1;
     Config.baseLayerSwitchMode := 0; Config.qp := 32;
     Config.accessUnitDelimiter := 0; Config.asmType := 1;
     Config.intraRefreshType := 1; Config.lookAheadDistance := 17;
     Config.codeVpsSpsPps := 1; Config.codeEosNal := 0 |}.

(** Every callee of [eb_enc_init] succeeds. *)
Definition env_ok : Init.InitEnv :=
  {| Init.init_handle_ret := EB_ErrorNone; Init.init_handle := Some 1;
     Init.default_params := lib_defaults;
     Init.set_parameter_ret := EB_ErrorNone;
     Init.init_encoder_ret := EB_ErrorNone;
     Init.stream_header_ret := EB_ErrorNone; Init.stream_header := None;
     Init.extradata_ok := true; Init.in_data_ok := true |}.

(** The same context with [qmax] left at -1. *)
Definition avctx_qmax_unset : Config.AVCodecContext :=
  {| Config.width := Config.width avctx; Config.height := Config.height avctx;
     Config.pix_fmt := Config.pix_fmt avctx;
     Config.bit_rate := Config.bit_rate avctx;
     Config.gop_size := Config.gop_size avctx;
     Config.framerate := Config.framerate avctx;
     Config.time_base := Config.time_base avctx;
     Config.ticks_per_frame := Config.ticks_per_frame avctx;
     Config.qmax := -1; Config.qmin := Config.qmin avctx;
     Config.flags := Config.flags avctx |}.

(** Every callee succeeds, and [EbInitHandle] stores parameters whose
    rate control mode is 1. *)
Definition env_ok_vbr : Init.InitEnv :=
  {| Init.init_handle_ret := EB_ErrorNone; Init.init_handle := Some 1;
     Init.default_params :=
       snd (Config.config_enc_params lib_defaults avctx opts);
     Init.set_parameter_ret := EB_ErrorNone;
     Init.init_encoder_ret := EB_ErrorNone;
     Init.stream_header_ret := EB_ErrorNone; Init.stream_header := None;
     Init.extradata_ok := true; Init.in_data_ok := true |}.

(** The [av_mallocz] of [alloc_buffer] fails. *)
Definition env_no_memory : Init.InitEnv :=
  {| Init.init_handle_ret := EB_ErrorNone; Init.init_handle := Some 1;
     Init.default_params := lib_defaults;
     Init.set_parameter_ret := EB_ErrorNone;
     Init.init_encoder_ret := EB_ErrorNone;
     Init.stream_header_ret := EB_ErrorNone; Init.stream_header := None;
     Init.extradata_ok := true; Init.in_data_ok := false |}.

(** A zeroed private context and no extradata. *)
Definition blank : Init.InitState :=
  {| Init.i_svt :=
       {| enc_params := {| sourceWidth := 0; sourceHeight := 0;
                           encoderBitDepth := 0;
                           encoderColorFormat := EB_YUV400 |};
          svt_handle := None;
          in_buf := {| nSize := 0; pBuffer := NullBuf; nFilledLen := 0;
                       nAllocLen := 0; nTickCount := 0; dts := 0; pts := 0;
                       sliceType := 0; nFlags := 0 |};
          eos_flag := EOS_NOT_REACHED;
          metadata_list := [] |};
     Init.i_params := lib_defaults;
     Init.i_extradata := None;
     Init.i_extradata_size := 0 |}.

(** The encoder hands back a packet stamped [t], and [ff_alloc_packet2]
    fails with [AVERROR(ENOMEM)]. *)
Definition env_alloc_fails (t flags : Z) : Env :=
  {| send_ret := EB_ErrorNone; mallocz_ok := true;
     get_ret := EB_ErrorNone; get_out := Some (Sample.out_header t flags);
     alloc_ret := -12; side_data_ok := true; released_nFlags := flags |}.

(** The context after a frame stamped 100 went in with [md]. *)
Definition after_frame_100 (md : Sample.Dict) : SvtContext :=
  Sample.final_state
    (run Sample.pack
         [Sample.mk_call Sample.env_empty (Some (Sample.frame_at 100 (Some md)))]
         (Sample.ctx Sample.cfg_2x2))
    (Sample.ctx Sample.cfg_2x2).

(** The context after end of input was sent. *)
Definition after_eos : SvtContext :=
  Sample.final_state
    (run Sample.pack [Sample.c_eos] (Sample.ctx Sample.cfg_2x2))
    (Sample.ctx Sample.cfg_2x2).

End Example.

(** * Properties *)

(** ** Machine integers *)

Lemma to_uint32_small x : 0 <= x < 2 ^ 32 -> Int.to_uint32 x = x.
Proof. intros H. unfold Int.to_uint32. now apply Z.mod_small. Qed.

Lemma to_uint64_small x : 0 <= x < 2 ^ 64 -> Int.to_uint64 x = x.
Proof. intros H. unfold Int.to_uint64. now apply Z.mod_small. Qed.

Lemma to_uint32_range x : 0 <= Int.to_uint32 x < 2 ^ 32.
Proof. unfold Int.to_uint32. apply Z.mod_pos_bound. lia. Qed.

Lemma to_uint32_add_idem x y :
  Int.to_uint32 (Int.to_uint32 x + y) = Int.to_uint32 (x + y).
Proof. unfold Int.to_uint32. now rewrite Zplus_mod_idemp_l. Qed.

(** ** The list loop *)

Lemma list_for_each_until_Some A (stop : A -> bool) head before p after :
  ListH.list_for_each_until stop head = Some (before, p, after) ->
  head = before ++ p :: after /\ stop p = true /\
  Forall (fun x => stop x = false) before.
Proof.
  revert before. induction head as [|x l IH]; intros before H; cbn in H.
  - discriminate.
  - destruct (stop x) eqn:Ex.
    + inversion H; subst. auto.
    + destruct (ListH.list_for_each_until stop l) as [[[b q] a]|] eqn:El;
        [|discriminate].
      inversion H; subst. destruct (IH b eq_refl) as (-> & Hp & Hb).
      repeat split; auto.
  Qed.

Lemma list_for_each_until_None A (stop : A -> bool) head :
  ListH.list_for_each_until stop head = None <->
  Forall (fun x => stop x = false) head.
Proof.
  induction head as [|x l IH]; cbn.
  - split; auto.
  - destruct (stop x) eqn:Ex.
    + split; [discriminate|]. intros H. inversion H; congruence.
    + destruct (ListH.list_for_each_until stop l) as [[[b q] a]|] eqn:El.
      * split; [discriminate|]. intros H. inversion H; subst.
        apply IH in H3. discriminate.
      * split; auto. intros _. constructor; auto. now apply IH.
Qed.

(** With pairwise distinct timestamps the entry the loop stops at is the
    only one carrying that timestamp. *)
Lemma list_for_each_until_unique t l p :
  NoDup (map md_pts l) -> In p l -> md_pts p = t ->
  exists before after,
    ListH.list_for_each_until (same_pts t) l = Some (before, p, after) /\
    l = before ++ p :: after /\
    (forall q, In q (before ++ after) -> md_pts q <> t).
Proof.
  intros Hnd Hin Hp.
  destruct (ListH.list_for_each_until (same_pts t) l) as [[[b q] a]|] eqn:E.
  - destruct (list_for_each_until_Some _ _ E) as (Hl & Hq & Hb).
    unfold same_pts in Hq. apply Z.eqb_eq in Hq.
    subst l. rewrite map_app in Hnd. cbn in Hnd.
    assert (Hpq : p = q).
    { apply in_app_or in Hin. destruct Hin as [Hin|[Hin|Hin]]; auto.
      - exfalso. rewrite Forall_forall in Hb. specialize (Hb _ Hin).
        unfold same_pts in Hb. apply Z.eqb_neq in Hb. congruence.
      - exfalso. apply NoDup_remove_2 in Hnd. apply Hnd.
        apply in_or_app. right.
        replace (md_pts q) with (md_pts p) by congruence.
        now apply in_map. }
    subst q. exists b, a. repeat split; auto.
    intros q Hq' Heq. apply NoDup_remove_2 in Hnd. apply Hnd.
    rewrite <- map_app.
    replace (md_pts p) with (md_pts q) by congruence.
    now apply in_map.
  - exfalso. apply list_for_each_until_None in E.
    rewrite Forall_forall in E. specialize (E _ Hin).
    unfold same_pts in E. apply Z.eqb_neq in E. congruence.
Qed.

Ltac unfold_m :=
  unfold bind, ret, get, modify, emit, crash, read_out, EbH265EncSendPicture,
    EbH265GetPacket, EbH265ReleaseOutBuffer in *.

Section Facts.

Variable AVDictionary : Type.
Variable pack : AVDictionary -> option (list byte) * Z.

Local Abbreviation Frame := (AVFrame AVDictionary).

(** ** The halves of [eb_encode_frame], case by case *)

Lemma slice_flags_done header pkt st :
  exists pkt1 tr,
    slice_flags header pkt st = Done pkt1 st tr /\
    pkt_pts pkt1 = pkt_pts pkt /\
    pkt_side_data pkt1 = pkt_side_data pkt /\
    Forall (fun e => e = EvReadOut F_sliceType) tr.
Proof.
  unfold slice_flags. unfold_m. cbn.
  destruct (sliceType header =? EB_IDR_PICTURE);
    [| destruct (sliceType header =? EB_I_PICTURE)];
    destruct (sliceType header =? EB_NON_REF_PICTURE); cbn;
    (eexists; eexists; split; [reflexivity|]); cbn;
    repeat split; auto.
Qed.

Lemma submit_eos env st :
  submit pack env None st =
  match eos_flag st with
  | EOS_NOT_REACHED =>
      Done true (set_in_buf (mark_eos (in_buf st)) (set_eos_flag EOS_SENT st))
           [EvSendPicture (mark_eos (in_buf st))]
  | _ => Done true st []
  end.
Proof. unfold submit. unfold_m. destruct (eos_flag st); reflexivity. Qed.

Lemma submit_frame_inv env (f : Frame) st b st1 tr :
  submit pack env (Some f) st = Done b st1 tr ->
  exists h,
    read_in_data (enc_params st) f (in_buf st) = Some h /\
    eos_flag st1 = eos_flag st /\
    in_buf st1 = set_pts (frame_pts f) h /\
    enc_params st1 = enc_params st /\
    svt_handle st1 = svt_handle st /\
    ((frame_metadata f = None /\ b = true /\
      metadata_list st1 = metadata_list st /\
      tr = [EvSendPicture (set_pts (frame_pts f) h)])
     \/
     (exists d x, frame_metadata f = Some d /\
        ListH.list_for_each_until (same_pts (frame_pts f)) (metadata_list st)
          = Some x /\
        b = false /\ metadata_list st1 = metadata_list st /\
        tr = [EvSendPicture (set_pts (frame_pts f) h)])
     \/
     (exists d, frame_metadata f = Some d /\
        ListH.list_for_each_until (same_pts (frame_pts f)) (metadata_list st)
          = None /\
        mallocz_ok env = true /\ b = true /\
        metadata_list st1 = metadata_list st ++ [entry_of pack f d] /\
        tr = [EvSendPicture (set_pts (frame_pts f) h); EvMallocz])).
Proof.
  unfold submit. unfold_m. cbn.
  destruct (read_in_data (enc_params st) f (in_buf st)) as [h|] eqn:Er;
    [|discriminate].
  cbn. destruct (frame_metadata f) as [d|] eqn:Em; cbn.
  - destruct (ListH.list_for_each_until _ _) as [x|] eqn:El; cbn.
    + intros H; inversion H; subst; clear H. exists h. cbn.
      repeat split; auto. right. left. exists d, x. auto.
    + destruct (mallocz_ok env) eqn:Ea; cbn.
      * unfold entry_of. cbn. destruct (pack d) as [packed sz] eqn:Ep. cbn.
        intros H; inversion H; subst; clear H. exists h. cbn.
        repeat split; auto. right. right. exists d. repeat split; auto.
        now rewrite Ep.
      * discriminate.
  - intros H; inversion H; subst; clear H. exists h. cbn.
    repeat split; auto.
Qed.

Lemma attach_metadata_inv env pkt st pkt' st' tr :
  attach_metadata env pkt st = Done pkt' st' tr ->
  (exists before p after,
      ListH.list_for_each_until (same_pts (pkt_pts pkt)) (metadata_list st)
        = Some (before, p, after) /\
      has_payload p = true /\ side_data_ok env = true /\
      pkt' = add_side_data AV_PKT_DATA_STRINGS_METADATA (payload p) pkt /\
      st' = set_metadata_list (before ++ after) st /\
      tr = [EvNewSideData AV_PKT_DATA_STRINGS_METADATA (size p);
            EvFreeMetadata p; EvFreeEntry p])
  \/
  ((ListH.list_for_each_until (same_pts (pkt_pts pkt)) (metadata_list st)
      = None
    \/ exists before p after,
        ListH.list_for_each_until (same_pts (pkt_pts pkt)) (metadata_list st)
          = Some (before, p, after) /\ has_payload p = false) /\
   pkt' = pkt /\ st' = st /\ tr = []).
Proof.
  unfold attach_metadata. unfold_m. cbn.
  destruct (ListH.list_for_each_until _ _) as [[[before p] after]|] eqn:El.
  - destruct (has_payload p) eqn:Eh; cbn.
    + destruct (side_data_ok env) eqn:Es; cbn; [|discriminate].
      intros H; inversion H; subst; clear H.
      left. exists before, p, after. repeat split; auto.
    + intros H; inversion H; subst; clear H.
      right. repeat split; auto. right. exists before, p, after. auto.
  - intros H; inversion H; subst; clear H. right. auto.
Qed.

Lemma fetch_packet_inv env pkt got st r st' tr :
  fetch_packet env pkt got st = Done r st' tr ->
  (get_ret env = EB_NoErrorEmptyQueue /\
   r = {| ret_val := 0; ret_pkt := pkt; ret_got_packet := 0 |} /\
   st' = st /\ tr = [EvGetPacket (eos_flag st)])
  \/
  (get_ret env <> EB_NoErrorEmptyQueue /\
   exists h, get_out env = Some h /\ alloc_ret env <> 0 /\
     r = {| ret_val := alloc_ret env; ret_pkt := pkt;
            ret_got_packet := got |} /\
     st' = st /\
     tr = [EvGetPacket (eos_flag st); EvReadOut F_pts;
           EvReadOut F_nFilledLen; EvAllocPacket (nFilledLen h);
           EvReleaseOutBuffer])
  \/
  (get_ret env <> EB_NoErrorEmptyQueue /\
   exists h bytes pkt1 pkt2 st2 tr1 tr2,
     get_out env = Some h /\ alloc_ret env = 0 /\
     memcpy_from (pBuffer h) (nFilledLen h) = Some bytes /\
     slice_flags h
       {| pkt_data := bytes; pkt_size := Int.to_int32 (nFilledLen h);
          pkt_pts := pts h; pkt_dts := dts h; pkt_flags := pkt_flags pkt;
          pkt_side_data := pkt_side_data pkt |} st = Done pkt1 st tr1 /\
     attach_metadata env pkt1 st = Done pkt2 st2 tr2 /\
     r = {| ret_val := 0; ret_pkt := pkt2; ret_got_packet := 1 |} /\
     st' = (if EB_BUFFERFLAG_EOS =? released_nFlags env
            then set_eos_flag EOS_RECEIVED st2 else st2) /\
     tr = [EvGetPacket (eos_flag st); EvReadOut F_pts;
           EvReadOut F_nFilledLen; EvAllocPacket (nFilledLen h)]
          ++ reads_before_flags ++ tr1 ++ tr2
          ++ [EvReleaseOutBuffer; EvReadOut F_nFlags]).
Proof.
  intros H.
  unfold fetch_packet, ff_alloc_packet2 in H. unfold_m.
  cbn -[slice_flags attach_metadata Z.eqb] in H.
  destruct (get_ret env) eqn:Eg;
    try (left; inversion H; subst; auto; fail);
    (destruct (get_out env) as [h|] eqn:Eh; [|discriminate]);
    cbn -[slice_flags attach_metadata Z.eqb] in H;
    (destruct (alloc_ret env =? 0) eqn:Ea;
     cbn -[slice_flags attach_metadata Z.eqb] in H;
     [ right; right; (split; [discriminate|]); apply Z.eqb_eq in Ea;
       destruct (memcpy_from (pBuffer h) (nFilledLen h)) as [bytes|] eqn:Emc;
       [|discriminate]; cbn -[slice_flags attach_metadata Z.eqb] in H;
       match type of H with
       | context [slice_flags h ?p st] =>
           destruct (slice_flags_done h p st) as (pkt1 & tr1 & Hs & _)
       end;
       rewrite Hs in H; cbn -[slice_flags attach_metadata Z.eqb] in H;
       destruct (attach_metadata env pkt1 st) as [|pkt2 st2 tr2] eqn:Eat;
       [discriminate|]; cbn -[slice_flags attach_metadata Z.eqb] in H;
       exists h, bytes, pkt1, pkt2, st2, tr1, tr2;
       destruct (EB_BUFFERFLAG_EOS =? released_nFlags env); cbn in H;
       inversion H; subst; repeat split; auto;
       cbn; repeat rewrite <- app_assoc; reflexivity
     | right; left; (split; [discriminate|]);
       apply Z.eqb_neq in Ea; inversion H; subst;
       exists h; repeat split; auto ]).
Qed.

Lemma eb_encode_frame_inv env pkt (frame : option Frame) got st r st' tr :
  eb_encode_frame pack env pkt frame got st = Done r st' tr ->
  (eos_flag st = EOS_RECEIVED /\
   r = {| ret_val := 0; ret_pkt := pkt; ret_got_packet := 0 |} /\
   st' = st /\ tr = [])
  \/
  (eos_flag st <> EOS_RECEIVED /\
   exists continue st1 tr1,
     submit pack env frame st = Done continue st1 tr1 /\
     ((continue = false /\
       r = {| ret_val := 0; ret_pkt := pkt; ret_got_packet := got |} /\
       st' = st1 /\ tr = tr1)
      \/
      (continue = true /\ exists tr2,
         fetch_packet env pkt got st1 = Done r st' tr2 /\
         tr = tr1 ++ tr2))).
Proof.
  unfold eb_encode_frame. unfold bind at 1. unfold get.
  destruct (eos_flag st) eqn:Ee.
  1, 2: (intros H; right; split; [discriminate|];
         unfold bind in H;
         destruct (submit pack env frame st) as [|continue st1 tr1];
         [discriminate|];
         exists continue, st1, tr1; split; [reflexivity|];
         destruct continue;
         [ right; split; [reflexivity|];
           destruct (fetch_packet env pkt got st1) as [|r2 st2 tr2];
           [discriminate|]; inversion H; subst; exists tr2; auto
         | left; unfold ret in H; inversion H; subst;
           rewrite app_nil_r; auto ]).
  unfold ret. intros H; inversion H; subst. left. auto.
Qed.

(** ** Calls in the state [EOS_RECEIVED] *)

(** C4. When the flush state is [EOS_RECEIVED], a call returns 0 with
    [*got_packet = 0] at once: no call reaches the encoder (the trace is
    empty), the packet is untouched and the context is unchanged. *)
Theorem eos_received_returns_empty env pkt (frame : option Frame) got st :
  eos_flag st = EOS_RECEIVED ->
  eb_encode_frame pack env pkt frame got st =
  Done {| ret_val := 0; ret_pkt := pkt; ret_got_packet := 0 |} st [].
Proof.
  intros H. unfold eb_encode_frame. unfold_m. now rewrite H.
Qed.

(** ** An empty output queue *)

(** C8. When [EbH265GetPacket] answers [EB_NoErrorEmptyQueue], the
    retrieval half returns 0 with [*got_packet = 0], makes no other call
    and leaves the whole context (flush state and metadata list included)
    as it was; a complete call then returns 0, never the error code
    [error_mapping] assigns to the empty queue, and hands the packet back
    untouched. *)
Theorem empty_queue_returns_empty env :
  get_ret env = EB_NoErrorEmptyQueue ->
  (forall pkt got st,
      fetch_packet env pkt got st =
      Done {| ret_val := 0; ret_pkt := pkt; ret_got_packet := 0 |} st
           [EvGetPacket (eos_flag st)]) /\
  (forall pkt (frame : option Frame) got st r st' tr,
      eb_encode_frame pack env pkt frame got st = Done r st' tr ->
      ret_val r = 0 /\ ret_val r <> error_mapping (get_ret env) /\
      ret_pkt r = pkt /\
      exists continue tr1,
        (eos_flag st = EOS_RECEIVED \/
         submit pack env frame st = Done continue st' tr1)).
Proof.
  intros He.
  assert (Hf : forall pkt got st,
             fetch_packet env pkt got st =
             Done {| ret_val := 0; ret_pkt := pkt; ret_got_packet := 0 |} st
                  [EvGetPacket (eos_flag st)]).
  { intros. unfold fetch_packet. unfold_m. cbn. now rewrite He. }
  split; [exact Hf|].
  intros pkt frame got st r st' tr H.
  rewrite He. cbn.
  apply eb_encode_frame_inv in H.
  destruct H as [(Hr & -> & -> & ->)|(Hr & c & st1 & tr1 & Hs & H)].
  - cbn. repeat split; try discriminate. exists true, []. auto.
  - destruct H as [(-> & -> & -> & ->)|(-> & tr2 & H & ->)].
    + cbn. repeat split; try discriminate. exists false, tr1. auto.
    + rewrite Hf in H. inversion H; subst. cbn.
      repeat split; try discriminate. exists true, tr1. auto.
Qed.

(** ** Sequences of calls *)

Lemma run_cons_inv c cs st rs st' tr :
  run pack (c :: cs) st = Done rs st' tr ->
  exists r st1 tr1 rs' tr2,
    call pack c st = Done r st1 tr1 /\
    run pack cs st1 = Done rs' st' tr2 /\
    rs = r :: rs' /\ tr = tr1 ++ tr2.
Proof.
  cbn [run]. unfold bind at 1.
  destruct (call pack c st) as [|r st1 tr1] eqn:Ec; [discriminate|].
  unfold bind at 1.
  destruct (run pack cs st1) as [|rs' st2 tr2] eqn:Er; [discriminate|].
  unfold ret. intros H; inversion H; subst.
  exists r, st1, tr1, rs', tr2. rewrite app_nil_r.
  repeat split; auto.
Qed.

Lemma run_app_inv cs1 : forall cs2 st rs st' tr,
  run pack (cs1 ++ cs2) st = Done rs st' tr ->
  exists rs1 st1 tr1 rs2 tr2,
    run pack cs1 st = Done rs1 st1 tr1 /\
    run pack cs2 st1 = Done rs2 st' tr2 /\
    rs = rs1 ++ rs2 /\ tr = tr1 ++ tr2.
Proof.
  induction cs1 as [|c cs1 IH]; intros cs2 st rs st' tr H.
  - exists [], st, [], rs, tr. auto.
  - cbn [app] in H. apply run_cons_inv in H.
    destruct H as (r & st1 & tr1 & rs' & tr2 & Hc & Hr & -> & ->).
    apply IH in Hr.
    destruct Hr as (rs1 & st2 & tr3 & rs2 & tr4 & H1 & H2 & -> & ->).
    exists (r :: rs1), st2, (tr1 ++ tr3), rs2, tr4.
    repeat split; auto.
    + cbn [run]. unfold bind at 1. rewrite Hc. unfold bind at 1.
      rewrite H1. unfold ret. now rewrite app_nil_r.
    + now rewrite app_assoc.
Qed.

(** ** The flush state *)

Lemma mark_eos_sentinel h : is_eos_sentinel (mark_eos h) = true.
Proof. reflexivity. Qed.

Lemma submit_frame_flush env (f : Frame) st b st1 tr :
  submit pack env (Some f) st = Done b st1 tr ->
  eos_flag st1 = eos_flag st /\ filter is_eos_send tr = [].
Proof.
  intros H. apply submit_frame_inv in H.
  destruct H as (h & Hr & He & _ & _ & _ & H). split; [exact He|].
  assert (Hs : is_eos_sentinel (set_pts (frame_pts f) h) = false).
  { unfold read_in_data in Hr. destruct (pBuffer (in_buf st)); try discriminate.
    inversion Hr; subst. reflexivity. }
  destruct H as [(_ & _ & _ & ->)|[(d & x & _ & _ & _ & _ & ->)
                                  |(d & _ & _ & _ & _ & _ & ->)]];
    cbn; now rewrite Hs.
Qed.

Lemma attach_metadata_frame env pkt st pkt' st' tr :
  attach_metadata env pkt st = Done pkt' st' tr ->
  eos_flag st' = eos_flag st /\ in_buf st' = in_buf st /\
  enc_params st' = enc_params st /\ svt_handle st' = svt_handle st /\
  filter is_eos_send tr = [].
Proof.
  intros H. apply attach_metadata_inv in H.
  destruct H as [(b & p & a & _ & _ & _ & _ & -> & ->)|(_ & _ & -> & ->)];
    cbn; auto.
Qed.

Lemma filter_reads_nil tr :
  Forall (fun e => e = EvReadOut F_sliceType) tr ->
  filter is_eos_send tr = [].
Proof.
  induction 1 as [|e l He _ IH]; [reflexivity|]. subst e. exact IH.
Qed.

Lemma fetch_packet_flush env pkt got st r st' tr :
  fetch_packet env pkt got st = Done r st' tr ->
  eos_flag st' = (if carries_eos env then EOS_RECEIVED else eos_flag st) /\
  filter is_eos_send tr = [].
Proof.
  intros H. apply fetch_packet_inv in H. unfold carries_eos, retrieved_header.
  destruct H as [(He & _ & -> & ->)
                |[(He & h & Hh & Ha & _ & -> & ->)
                 |(He & h & bytes & pkt1 & pkt2 & st2 & tr1 & tr2 & Hh & Ha
                   & _ & Hs & Hat & _ & -> & ->)]].
  - rewrite He. auto.
  - apply Z.eqb_neq in Ha. rewrite Ha.
    destruct (get_ret env); try congruence; auto.
  - rewrite Ha, Hh. cbn [Z.eqb].
    apply attach_metadata_frame in Hat.
    destruct Hat as (Hat & _ & _ & _ & Hf).
    destruct (slice_flags_done h
                {| pkt_data := bytes;
                   pkt_size := Int.to_int32 (nFilledLen h);
                   pkt_pts := pts h; pkt_dts := dts h;
                   pkt_flags := pkt_flags pkt;
                   pkt_side_data := pkt_side_data pkt |} st)
      as (pkt1' & tr1' & Hs' & _ & _ & Hreads).
    rewrite Hs in Hs'. inversion Hs'; subst pkt1' tr1'.
    split.
    + destruct (get_ret env); try congruence;
        destruct (EB_BUFFERFLAG_EOS =? released_nFlags env); auto.
    + cbn. rewrite !filter_app, (filter_reads_nil Hreads), Hf. reflexivity.
Qed.

(** The flush state and the end-of-stream pictures over one call. *)
Lemma call_flush c st r st' tr :
  call pack c st = Done r st' tr ->
  eos_rank (eos_flag st) <= eos_rank (eos_flag st') /\
  (eos_flag st <> EOS_NOT_REACHED -> filter is_eos_send tr = []) /\
  (eos_flag st = EOS_NOT_REACHED ->
   (c_frame c = None /\ eos_flag st' <> EOS_NOT_REACHED /\
    length (filter is_eos_send tr) = 1%nat)
   \/
   (c_frame c <> None /\ filter is_eos_send tr = [] /\
    eos_flag st' = if carries_eos (c_env c) then EOS_RECEIVED
                   else EOS_NOT_REACHED)
   \/
   (c_frame c <> None /\ filter is_eos_send tr = [] /\
    eos_flag st' = EOS_NOT_REACHED)).
Proof.
  unfold call. intros H. apply eb_encode_frame_inv in H.
  destruct H as [(He & _ & -> & ->)|(He & b & st1 & tr1 & Hs & H)].
  - rewrite He. cbn. repeat split; auto; try lia. congruence.
  - assert (Hsub : eos_rank (eos_flag st) <= eos_rank (eos_flag st1) /\
                   (eos_flag st <> EOS_NOT_REACHED ->
                    filter is_eos_send tr1 = [] /\ eos_flag st1 = eos_flag st) /\
                   (eos_flag st = EOS_NOT_REACHED ->
                    (c_frame c = None /\ eos_flag st1 = EOS_SENT /\
                     length (filter is_eos_send tr1) = 1%nat /\ b = true)
                    \/ (c_frame c <> None /\ filter is_eos_send tr1 = [] /\
                        eos_flag st1 = EOS_NOT_REACHED))).
    { destruct (c_frame c) as [f|] eqn:Ef.
      - apply submit_frame_flush in Hs. destruct Hs as (He1 & Hf).
        rewrite He1. repeat split; auto; try lia.
        intros E. right. repeat split; auto; congruence.
      - rewrite submit_eos in Hs.
        destruct (eos_flag st) eqn:E; inversion Hs; subst; cbn.
        + split; [lia|]. split; [congruence|]. intros _. left. auto.
        + rewrite E. cbn. split; [lia|]. split; [auto|congruence].
        + rewrite E. cbn. split; [lia|]. split; [auto|congruence]. }
    destruct Hsub as (Hle & Hne & Heq).
    destruct H as [(-> & _ & -> & ->)|(-> & tr2 & Hf & ->)].
    + repeat split; auto.
      * intros E. now apply Hne.
      * intros E. destruct (Heq E) as [(_ & _ & _ & ?)|(Hc & Hn & He1)];
          [discriminate|]. right. right. auto.
    + apply fetch_packet_flush in Hf. destruct Hf as (He2 & Hf2).
      rewrite filter_app, Hf2, app_nil_r.
      assert (Hle2 : eos_rank (eos_flag st1) <= eos_rank (eos_flag st')).
      { rewrite He2. destruct (carries_eos (c_env c)); [|lia].
        destruct (eos_flag st1); cbn; lia. }
      repeat split; try lia.
      * intros E. now apply Hne.
      * intros E. destruct (Heq E) as [(Hc & He1 & Hl & _)|(Hc & Hn & He1)].
        -- left. repeat split; auto. rewrite He2, He1.
           destruct (carries_eos (c_env c)); discriminate.
        -- right. left. repeat split; auto. now rewrite He2, He1.
Qed.

Lemma run_flush cs : forall st rs st' tr,
  run pack cs st = Done rs st' tr ->
  eos_rank (eos_flag st) <= eos_rank (eos_flag st') /\
  (length (filter is_eos_send tr) <= 1)%nat /\
  (eos_flag st <> EOS_NOT_REACHED -> filter is_eos_send tr = []).
Proof.
  induction cs as [|c cs IH]; intros st rs st' tr H.
  - inversion H; subst. cbn. repeat split; auto; lia.
  - apply run_cons_inv in H.
    destruct H as (r & st1 & tr1 & rs' & tr2 & Hc & Hr & -> & ->).
    apply call_flush in Hc. destruct Hc as (Hle & Hne & Heq).
    apply IH in Hr. destruct Hr as (Hle' & Hcnt & Hne').
    rewrite filter_app, length_app.
    assert (Hrank : forall e, e <> EOS_NOT_REACHED <-> 0 < eos_rank e).
    { intros []; cbn; split; intros; try lia; congruence. }
    split; [lia|]. split.
    + destruct (eos_flag st) eqn:E.
      * destruct Heq as [(_ & Hn & Hl)|[(_ & Hf & _)|(_ & Hf & _)]]; auto.
        -- rewrite Hl, (Hne' Hn). cbn. lia.
        -- rewrite Hf. cbn. lia.
        -- rewrite Hf. cbn. lia.
      * rewrite Hne by discriminate. rewrite Hne'; [cbn; lia|].
        apply Hrank. cbn in Hle. lia.
      * rewrite Hne by discriminate. rewrite Hne'; [cbn; lia|].
        apply Hrank. cbn in Hle. lia.
    + intros E. rewrite (Hne E). rewrite Hne'; auto.
      apply Hrank. apply Hrank in E. lia.
Qed.

Lemma run_real_frames_flush pre : forall st rs st1 tr,
  eos_flag st = EOS_NOT_REACHED ->
  Forall (fun c : Call AVDictionary =>
            c_frame c <> None /\ carries_eos (c_env c) = false) pre ->
  run pack pre st = Done rs st1 tr ->
  eos_flag st1 = EOS_NOT_REACHED /\ filter is_eos_send tr = [].
Proof.
  induction pre as [|c pre IH]; intros st rs st1 tr He Hall H.
  - inversion H; subst. auto.
  - apply run_cons_inv in H.
    destruct H as (r & st2 & tr1 & rs' & tr2 & Hc & Hr & -> & ->).
    inversion Hall as [|? ? (Hframe & Hno) Hall']; subst.
    apply call_flush in Hc. destruct Hc as (_ & _ & Hc).
    destruct (Hc He) as [(Hn & _)|[(_ & Hf & He2)|(_ & Hf & He2)]].
    + contradiction.
    + rewrite Hno in He2.
      destruct (IH _ _ _ _ He2 Hall' Hr) as (He3 & Hf3).
      now rewrite filter_app, Hf, Hf3.
    + destruct (IH _ _ _ _ He2 Hall' Hr) as (He3 & Hf3).
      now rewrite filter_app, Hf, Hf3.
Qed.

(** The flush state and the end-of-stream pictures of one call, exactly. *)
Lemma call_flush_step c st r st' tr :
  call pack c st = Done r st' tr ->
  eos_flag st' = flush_step c st /\
  filter is_eos_send tr = sentinel_of c st.
Proof.
  unfold call, flush_step, sentinel_of. intros H.
  apply eb_encode_frame_inv in H.
  destruct H as [(He & _ & -> & ->)|(He & b & st1 & tr1 & Hs & H)].
  - rewrite He. auto.
  - destruct (c_frame c) as [f|] eqn:Ef.
    + pose proof (submit_frame_flush _ _ _ Hs) as (He1 & Hf1).
      assert (Hsent : match eos_flag st with
                      | EOS_NOT_REACHED | _ => @nil Event
                      end = []) by now destruct (eos_flag st).
      assert (Hb : b = negb (returns_early (Some f) st)).
      { apply submit_frame_inv in Hs.
        destruct Hs as (h & _ & _ & _ & _ & _ & Hs). cbn [returns_early].
        destruct Hs as [(Hm & -> & _)|[(d & x & Hm & Hx & -> & _)
                                      |(d & Hm & Hx & _ & -> & _)]];
          rewrite Hm; try rewrite Hx; reflexivity. }
      rewrite <- Hb.
      destruct H as [(-> & _ & -> & ->)|(-> & tr2 & Hf & ->)].
      * cbn [andb]. rewrite He1, Hf1.
        destruct (eos_flag st); try congruence; auto.
      * apply fetch_packet_flush in Hf. destruct Hf as (He2 & Hf2).
        rewrite filter_app, Hf1, Hf2, He2, He1. cbn [andb app].
        destruct (eos_flag st); try congruence;
          destruct (carries_eos (c_env c)); auto.
    + rewrite submit_eos in Hs. cbn [returns_early negb andb].
      destruct (eos_flag st) eqn:E; try congruence;
        inversion Hs; subst b st1 tr1; clear Hs;
        (destruct H as [(Hb & _)|(_ & tr2 & Hf & ->)]; [discriminate|]);
        apply fetch_packet_flush in Hf; destruct Hf as (He2 & Hf2);
        rewrite filter_app, Hf2, He2; cbn; try rewrite E;
        destruct (carries_eos (c_env c)); auto.
Qed.

(** A sequence that ends in [EOS_NOT_REACHED] started there and sent no
    end-of-stream picture. *)
Lemma run_ends_not_reached cs : forall st rs st' tr,
  run pack cs st = Done rs st' tr ->
  eos_flag st' = EOS_NOT_REACHED ->
  eos_flag st = EOS_NOT_REACHED /\ filter is_eos_send tr = [].
Proof.
  induction cs as [|c cs IH]; intros st rs st' tr H He.
  - inversion H; subst. auto.
  - apply run_cons_inv in H.
    destruct H as (r & st1 & tr1 & rs' & tr2 & Hc & Hr & -> & ->).
    destruct (IH _ _ _ _ Hr He) as (He1 & Hf2).
    apply call_flush_step in Hc. destruct Hc as (Hstep & Hsent).
    rewrite filter_app, Hf2, Hsent, app_nil_r.
    rewrite He1 in Hstep. unfold flush_step in Hstep.
    unfold sentinel_of.
    destruct (eos_flag st); try discriminate;
      destruct (negb (returns_early (c_frame c) st)
                && carries_eos (c_env c)); try discriminate;
      destruct (c_frame c); try discriminate; auto.
Qed.

(** Frames only: the flush state stays or jumps to [EOS_RECEIVED], and no
    end-of-stream picture is sent. *)
Lemma run_frames_only_flush cs : forall st rs st' tr,
  Forall (fun c : Call AVDictionary => c_frame c <> None) cs ->
  run pack cs st = Done rs st' tr ->
  filter is_eos_send tr = [] /\
  (eos_flag st' = eos_flag st \/ eos_flag st' = EOS_RECEIVED).
Proof.
  induction cs as [|c cs IH]; intros st rs st' tr Hall H.
  - inversion H; subst. auto.
  - apply run_cons_inv in H.
    destruct H as (r & st1 & tr1 & rs' & tr2 & Hc & Hr & -> & ->).
    inversion Hall as [|? ? Hframe Hall']; subst.
    destruct (IH _ _ _ _ Hall' Hr) as (Hf2 & He2).
    apply call_flush_step in Hc. destruct Hc as (Hstep & Hsent).
    rewrite filter_app, Hf2, Hsent, app_nil_r.
    unfold flush_step in Hstep. unfold sentinel_of.
    destruct (c_frame c) as [f|]; [|congruence].
    split; [now destruct (eos_flag st)|].
    destruct (eos_flag st);
      destruct (negb (returns_early (Some f) st) && carries_eos (c_env c));
      rewrite Hstep in He2; destruct He2; auto.
Qed.

(** C3. The flush state over every sequence of calls.
    - Submitting end of input in [EOS_NOT_REACHED] moves to [EOS_SENT]
      and sends one picture, the end-of-stream one (length zero, no data,
      [EB_BUFFERFLAG_EOS]); in the other states it does nothing.
    - Submitting a frame keeps the flush state and never sends the
      end-of-stream picture.
    - Retrieval moves to [EOS_RECEIVED] exactly when the encoder handed
      out a header, the packet could be allocated and the [nFlags] read
      from the header after its release equal [EB_BUFFERFLAG_EOS];
      otherwise it keeps the flush state.
    - One call of [eb_encode_frame] leaves the flush state [flush_step]
      gives and sends the end-of-stream pictures [sentinel_of] gives: the
      only moves are [EOS_NOT_REACHED] to [EOS_SENT], [EOS_SENT] to
      [EOS_RECEIVED], and [EOS_NOT_REACHED] to [EOS_RECEIVED] directly.
    - Over a sequence of calls the flush state never decreases and the
      end-of-stream picture is sent at most once, and not at all when the
      sequence starts beyond [EOS_NOT_REACHED].
    - An end-of-input call made in [EOS_NOT_REACHED] sends the only
      end-of-stream picture of the whole sequence.
    - A sequence of frames sends no end-of-stream picture and never
      leads to [EOS_SENT] from another state. *)
Theorem flush_state_machine :
  (forall env st,
      submit pack env None st =
      match eos_flag st with
      | EOS_NOT_REACHED =>
          Done true
               (set_in_buf (mark_eos (in_buf st)) (set_eos_flag EOS_SENT st))
               [EvSendPicture (mark_eos (in_buf st))]
      | _ => Done true st []
      end) /\
  (forall h,
      nFilledLen (mark_eos h) = 0 /\ pBuffer (mark_eos h) = NullBuf /\
      nFlags (mark_eos h) = EB_BUFFERFLAG_EOS /\
      is_eos_sentinel (mark_eos h) = true) /\
  (forall env (f : Frame) st b st1 tr,
      submit pack env (Some f) st = Done b st1 tr ->
      eos_flag st1 = eos_flag st /\ filter is_eos_send tr = []) /\
  (forall env pkt got st r st' tr,
      fetch_packet env pkt got st = Done r st' tr ->
      eos_flag st' = (if carries_eos env then EOS_RECEIVED else eos_flag st) /\
      filter is_eos_send tr = []) /\
  (forall c st r st' tr,
      call pack c st = Done r st' tr ->
      eos_flag st' = flush_step c st /\
      filter is_eos_send tr = sentinel_of c st) /\
  (forall cs st rs st' tr,
      run pack cs st = Done rs st' tr ->
      eos_rank (eos_flag st) <= eos_rank (eos_flag st') /\
      (length (filter is_eos_send tr) <= 1)%nat /\
      (eos_flag st <> EOS_NOT_REACHED -> filter is_eos_send tr = [])) /\
  (forall pre c post st rs1 st1 tr1 rs st' tr,
      run pack pre st = Done rs1 st1 tr1 ->
      eos_flag st1 = EOS_NOT_REACHED ->
      c_frame c = None ->
      run pack (pre ++ c :: post) st = Done rs st' tr ->
      filter is_eos_send tr = [EvSendPicture (mark_eos (in_buf st1))] /\
      eos_flag st' <> EOS_NOT_REACHED) /\
  (forall cs st rs st' tr,
      Forall (fun c : Call AVDictionary => c_frame c <> None) cs ->
      run pack cs st = Done rs st' tr ->
      filter is_eos_send tr = [] /\
      (eos_flag st' = eos_flag st \/ eos_flag st' = EOS_RECEIVED)).
Proof.
  split; [exact submit_eos|].
  split; [intros h; cbn; auto|].
  split; [exact submit_frame_flush|].
  split; [exact fetch_packet_flush|].
  split; [exact call_flush_step|].
  split; [intros cs; exact (run_flush cs)|].
  split; [|intros cs; exact (run_frames_only_flush (cs := cs))].
  intros pre c post st rs1 st1 tr1 rs st' tr Hpre He Hc H.
  apply run_app_inv in H.
  destruct H as (rs1' & st1' & tr1' & rs2 & tr2 & H1 & H2 & -> & ->).
  rewrite Hpre in H1. inversion H1; subst rs1' st1' tr1'; clear H1.
  destruct (run_ends_not_reached _ _ Hpre He) as (_ & Hf1).
  apply run_cons_inv in H2.
  destruct H2 as (r & st2 & tr3 & rs3 & tr4 & Hcall & Hpost & -> & ->).
  apply call_flush_step in Hcall. destruct Hcall as (Hstep & Hsent).
  unfold flush_step, sentinel_of in *. rewrite He, Hc in *.
  cbn [returns_early negb andb] in Hstep.
  assert (Hne : eos_flag st2 <> EOS_NOT_REACHED).
  { rewrite Hstep. destruct (carries_eos (c_env c)); discriminate. }
  apply run_flush in Hpost. destruct Hpost as (Hle & _ & Hnone).
  rewrite !filter_app, Hf1, Hsent, (Hnone Hne). split; [reflexivity|].
  destruct (eos_flag st2); try congruence;
    destruct (eos_flag st'); cbn in Hle; try lia; discriminate.
Qed.

(** ** The metadata list *)

Lemma submit_cache env (frame : option Frame) st b st1 tr :
  submit pack env frame st = Done b st1 tr ->
  (metadata_list st1 = metadata_list st /\ ~ In EvMallocz tr)
  \/
  (exists f d, frame = Some f /\ frame_metadata f = Some d /\ b = true /\
     Forall (fun p => md_pts p <> frame_pts f) (metadata_list st) /\
     metadata_list st1 = metadata_list st ++ [entry_of pack f d]).
Proof.
  destruct frame as [f|].
  - intros H. apply submit_frame_inv in H.
    destruct H as (h & _ & _ & _ & _ & _ & H).
    destruct H as [(_ & _ & Hl & ->)|[(d & x & _ & _ & _ & Hl & ->)
                                     |(d & Hm & Hn & _ & Hb & Hl & ->)]].
    + left. split; auto. cbn. intros [H|[]]. discriminate.
    + left. split; auto. cbn. intros [H|[]]. discriminate.
    + right. exists f, d. repeat split; auto.
      apply list_for_each_until_None in Hn.
      eapply Forall_impl; [|exact Hn]. cbn. intros p Hp.
      unfold same_pts in Hp. apply Z.eqb_neq in Hp. congruence.
  - rewrite submit_eos. intros H. left.
    destruct (eos_flag st); inversion H; subst; cbn; split; auto;
      intros [E|[]]; discriminate.
Qed.

Lemma submit_NoDup env (frame : option Frame) st b st1 tr :
  NoDup (map md_pts (metadata_list st)) ->
  submit pack env frame st = Done b st1 tr ->
  NoDup (map md_pts (metadata_list st1)).
Proof.
  intros Hnd H. apply submit_cache in H.
  destruct H as [(-> & _)|(f & d & _ & _ & _ & Hall & ->)]; auto.
  rewrite map_app. cbn.
  apply NoDup_app; auto.
  - apply NoDup_cons; [intros []|constructor].
  - intros x Hx [<-|[]]. apply in_map_iff in Hx.
    destruct Hx as (p & Hp & Hin). rewrite Forall_forall in Hall.
    now apply (Hall p Hin).
Qed.

Lemma fetch_packet_cache env pkt got st r st' tr :
  fetch_packet env pkt got st = Done r st' tr ->
  metadata_list st' = metadata_list st
  \/
  (exists before p after,
      metadata_list st = before ++ p :: after /\
      metadata_list st' = before ++ after /\
      ret_got_packet r = 1 /\ md_pts p = pkt_pts (ret_pkt r)).
Proof.
  intros H. apply fetch_packet_inv in H.
  destruct H as [(_ & _ & -> & _)
                |[(_ & h & _ & _ & _ & -> & _)
                 |(_ & h & bytes & pkt1 & pkt2 & st2 & tr1 & tr2 & _ & _
                   & _ & Hs & Hat & -> & -> & _)]]; auto.
  assert (Hl : forall X : SvtContext,
             metadata_list (if EB_BUFFERFLAG_EOS =? released_nFlags env
                            then set_eos_flag EOS_RECEIVED X else X)
             = metadata_list X).
  { intros X.
    destruct (EB_BUFFERFLAG_EOS =? released_nFlags env); reflexivity. }
  rewrite Hl. apply attach_metadata_inv in Hat.
  destruct Hat as [(b & p & a & Hf & _ & _ & -> & -> & _)|(_ & _ & -> & _)];
    auto.
  right. exists b, p, a. apply list_for_each_until_Some in Hf.
  destruct Hf as (Hf & Hp & _). unfold same_pts in Hp.
  apply Z.eqb_eq in Hp. cbn. auto.
Qed.

Lemma fetch_packet_NoDup env pkt got st r st' tr :
  NoDup (map md_pts (metadata_list st)) ->
  fetch_packet env pkt got st = Done r st' tr ->
  NoDup (map md_pts (metadata_list st')).
Proof.
  intros Hnd H. apply fetch_packet_cache in H.
  destruct H as [->|(b & p & a & Hl & -> & _)]; auto.
  rewrite Hl, map_app in Hnd. cbn in Hnd. apply NoDup_remove_1 in Hnd.
  now rewrite map_app.
Qed.

Lemma call_NoDup c st r st' tr :
  NoDup (map md_pts (metadata_list st)) ->
  call pack c st = Done r st' tr ->
  NoDup (map md_pts (metadata_list st')).
Proof.
  intros Hnd H. unfold call in H. apply eb_encode_frame_inv in H.
  destruct H as [(_ & _ & -> & _)|(_ & b & st1 & tr1 & Hs & H)]; auto.
  assert (Hnd1 : NoDup (map md_pts (metadata_list st1)))
    by (eapply submit_NoDup; eauto).
  destruct H as [(_ & _ & -> & _)|(_ & tr2 & Hf & _)]; auto.
  eapply fetch_packet_NoDup; eauto.
Qed.

Lemma run_NoDup cs : forall st rs st' tr,
  NoDup (map md_pts (metadata_list st)) ->
  run pack cs st = Done rs st' tr ->
  NoDup (map md_pts (metadata_list st')).
Proof.
  induction cs as [|c cs IH]; intros st rs st' tr Hnd H.
  - inversion H; subst; auto.
  - apply run_cons_inv in H.
    destruct H as (r & st1 & tr1 & rs' & tr2 & Hc & Hr & _).
    eapply IH; [|exact Hr]. eapply call_NoDup; eauto.
Qed.

(** Retrieval of a packet whose timestamp is that of a pending entry with
    a payload: the payload becomes the packet's one new side data element
    and the entry leaves the list and is freed. *)
Lemma fetch_packet_attaches env pkt st p r st' tr :
  NoDup (map md_pts (metadata_list st)) ->
  In p (metadata_list st) -> has_payload p = true ->
  fetch_packet env pkt 0 st = Done r st' tr ->
  ret_got_packet r = 1 -> pkt_pts (ret_pkt r) = md_pts p ->
  pkt_side_data (ret_pkt r) =
    pkt_side_data pkt ++ [(AV_PKT_DATA_STRINGS_METADATA, payload p)] /\
  (exists before after,
      metadata_list st = before ++ p :: after /\
      metadata_list st' = before ++ after) /\
  (forall q, In q (metadata_list st') -> md_pts q <> md_pts p) /\
  (exists tr1 tr2,
      tr = tr1 ++ [EvNewSideData AV_PKT_DATA_STRINGS_METADATA (size p);
                   EvFreeMetadata p; EvFreeEntry p] ++ tr2 /\
      ~ In (EvFreeEntry p) tr1 /\ ~ In (EvFreeEntry p) tr2 /\
      (forall t sz, ~ In (EvNewSideData t sz) tr1) /\
      (forall t sz, ~ In (EvNewSideData t sz) tr2)).
Proof.
  intros Hnd Hin Hpay H Hgot Hpts. apply fetch_packet_inv in H.
  destruct H as [(_ & -> & _)
                |[(_ & h & _ & _ & -> & _)
                 |(_ & h & bytes & pkt1 & pkt2 & st2 & tr1 & tr2 & _ & _
                   & _ & Hs & Hat & -> & -> & ->)]];
    try discriminate.
  cbn in Hpts. cbn [ret_pkt].
  match type of Hs with
  | slice_flags h ?x st = _ =>
      destruct (slice_flags_done h x st) as (pkt1' & tr1' & Hs' & Hp1 & Hsd & Hreads)
  end.
  rewrite Hs in Hs'. inversion Hs'; subst pkt1' tr1'. cbn in Hp1, Hsd.
  assert (Hl : forall X : SvtContext,
             metadata_list (if EB_BUFFERFLAG_EOS =? released_nFlags env
                            then set_eos_flag EOS_RECEIVED X else X)
             = metadata_list X).
  { intros X.
    destruct (EB_BUFFERFLAG_EOS =? released_nFlags env); reflexivity. }
  rewrite Hl. apply attach_metadata_inv in Hat.
  assert (Hkey : pkt_pts pkt1 = md_pts p).
  { destruct Hat as [(b & q & a & _ & _ & _ & -> & _)|(_ & -> & _)];
      cbn in Hpts; congruence. }
  destruct (@list_for_each_until_unique (pkt_pts pkt1) (metadata_list st) p
              Hnd Hin (eq_sym Hkey))
    as (b & a & Hf & Hlist & Hrest).
  destruct Hat as [(b' & q & a' & Hf' & _ & _ & -> & -> & ->)
                  |([Hf'|(b' & q & a' & Hf' & Hno)] & _)];
    rewrite Hf in Hf'; try discriminate.
  - inversion Hf'; subst b' q a'. cbn. rewrite Hsd.
    split; [reflexivity|]. split; [eauto|].
    split; [rewrite <- Hkey; exact Hrest|].
    exists ([EvGetPacket (eos_flag st); EvReadOut F_pts;
             EvReadOut F_nFilledLen; EvAllocPacket (nFilledLen h)]
            ++ reads_before_flags ++ tr1),
           [EvReleaseOutBuffer; EvReadOut F_nFlags].
    split; [cbn; rewrite <- ?app_assoc; reflexivity|].
    assert (Hr : forall e, In e tr1 -> e = EvReadOut F_sliceType).
    { now apply Forall_forall. }
    repeat split.
    + cbn. intros H.
      repeat (destruct H as [H|H]; [discriminate|]).
      apply Hr in H. discriminate.
    + cbn. intros [H|[H|[]]]; discriminate.
    + cbn. intros t sz H.
      repeat (destruct H as [H|H]; [discriminate|]).
      apply Hr in H. discriminate.
    + cbn. intros t sz [H|[H|[]]]; discriminate.
  - inversion Hf'; subst b' q a'. congruence.
Qed.



(** ** Correlation by timestamp over a sequence of calls *)

Lemma frames_of_app (a b : list (Call AVDictionary)) :
  frames_of (a ++ b) = frames_of a ++ frames_of b.
Proof. unfold frames_of. apply flat_map_app. Qed.

Lemma frames_of_snoc (hist : list (Call AVDictionary)) c :
  frames_of (hist ++ [c]) =
  frames_of hist ++ match c_frame c with Some f => [f] | None => [] end.
Proof. rewrite frames_of_app. cbn. now rewrite app_nil_r. Qed.

Lemma submit_cache_inv c hist rs st b st1 tr :
  cache_inv pack st hist rs ->
  eos_flag st <> EOS_RECEIVED ->
  submit pack (c_env c) (c_frame c) st = Done b st1 tr ->
  NoDup (map frame_pts (frames_of (hist ++ [c]))) ->
  cache_inv pack st1 (hist ++ [c]) rs /\ eos_flag st1 <> EOS_RECEIVED /\
  b = true.
Proof.
  intros (I1 & I3) Hne Hs Hnd. unfold cache_inv.
  rewrite frames_of_snoc in *.
  destruct (c_frame c) as [f|] eqn:Ef.
  - apply submit_frame_inv in Hs.
    destruct Hs as (h & _ & He & _ & _ & _ & Hs).
    rewrite map_app in Hnd. cbn in Hnd.
    assert (Hfresh : ~ In (frame_pts f) (map frame_pts (frames_of hist))).
    { intros Hin. apply NoDup_remove_2 in Hnd. apply Hnd.
      now rewrite app_nil_r. }
    destruct Hs as [(Hm & -> & Hl & _)|[(d & x & _ & Hx & _)
                                       |(d & Hm & _ & _ & -> & Hl & _)]].
    + split; [|split; [congruence|reflexivity]]. split.
      * intros p Hp. rewrite Hl in Hp. rewrite map_app.
        apply in_or_app. left. now apply I1.
      * intros f' d' Hin Hm'. rewrite He, Hl.
        apply in_app_or in Hin. destruct Hin as [Hin|[<-|[]]].
        -- now apply I3.
        -- congruence.
    + exfalso. destruct x as [[bf q] af].
      apply list_for_each_until_Some in Hx. destruct Hx as (Hl & Hq & _).
      unfold same_pts in Hq. apply Z.eqb_eq in Hq.
      apply Hfresh. rewrite Hq. apply I1. rewrite Hl.
      apply in_or_app. right. now left.
    + split; [|split; [congruence|reflexivity]]. split.
      * intros p Hp. rewrite Hl in Hp. rewrite map_app.
        apply in_or_app. apply in_app_or in Hp.
        destruct Hp as [Hp|[<-|[]]]; [left; now apply I1|right; now left].
      * intros f' d' Hin Hm'. rewrite He, Hl.
        apply in_app_or in Hin. destruct Hin as [Hin|[<-|[]]].
        -- destruct (I3 f' d' Hin Hm') as [H|[H|H]]; auto.
           right. right. apply in_or_app. now left.
        -- right. right. apply in_or_app. right.
           replace d' with d by congruence. now left.
  - rewrite app_nil_r in *. rewrite submit_eos in Hs.
    assert (Hl : metadata_list st1 = metadata_list st /\
                 eos_flag st1 <> EOS_RECEIVED /\ b = true).
    { destruct (eos_flag st) eqn:E; inversion Hs; subst; cbn;
        repeat split; congruence. }
    destruct Hl as (Hl & He1 & ->). split; [|auto]. split.
    + intros p Hp. rewrite Hl in Hp. now apply I1.
    + intros f' d' Hin Hm'. rewrite Hl.
      destruct (I3 f' d' Hin Hm') as [H|[H|H]]; auto. contradiction.
Qed.

Lemma fetch_packet_cache_inv env pkt got hist rs st r st' tr :
  cache_inv pack st hist rs ->
  fetch_packet env pkt got st = Done r st' tr ->
  cache_inv pack st' hist (rs ++ [r]).
Proof.
  intros (I1 & I3) H.
  assert (He : eos_flag st = EOS_RECEIVED -> eos_flag st' = EOS_RECEIVED).
  { intros E. apply fetch_packet_flush in H. destruct H as (-> & _).
    now destruct (carries_eos env). }
  assert (Hold : forall t, (exists r0, In r0 rs /\ ret_got_packet r0 = 1 /\
                              pkt_pts (ret_pkt r0) = t) ->
                 exists r0, In r0 (rs ++ [r]) /\ ret_got_packet r0 = 1 /\
                            pkt_pts (ret_pkt r0) = t).
  { intros t (r0 & Hin & Hr0). exists r0. split; auto.
    apply in_or_app. now left. }
  apply fetch_packet_cache in H.
  destruct H as [Hl|(b & p & a & Hl & Hl' & Hg & Hp)].
  - split.
    + intros p Hp. rewrite Hl in Hp. now apply I1.
    + intros f d Hin Hm. rewrite Hl.
      destruct (I3 f d Hin Hm) as [H|[H|H]]; auto.
  - split.
    + intros q Hq. apply I1. rewrite Hl. rewrite Hl' in Hq.
      apply in_app_or in Hq. apply in_or_app. cbn. tauto.
    + intros f d Hin Hm.
      destruct (I3 f d Hin Hm) as [H|[H|H]]; auto.
      rewrite Hl in H. rewrite Hl'.
      apply in_app_or in H. destruct H as [H|[H|H]].
      * right. right. apply in_or_app. now left.
      * right. left. exists r. split; [apply in_or_app; right; now left|].
        split; [exact Hg|]. rewrite <- Hp, H. reflexivity.
      * right. right. apply in_or_app. now right.
Qed.

Lemma cache_inv_weaken st hist rs c r :
  cache_inv pack st hist rs ->
  (eos_flag st = EOS_RECEIVED \/ c_frame c = None) ->
  cache_inv pack st (hist ++ [c]) (rs ++ [r]).
Proof.
  intros (I1 & I3) Hc. split.
  - intros p Hp. rewrite frames_of_app, map_app. apply in_or_app.
    left. now apply I1.
  - intros f d Hin Hm. destruct Hc as [E|E]; [now left|].
    rewrite frames_of_snoc, E, app_nil_r in Hin.
    destruct (I3 f d Hin Hm) as [H|[(r0 & Hr0 & H)|H]]; auto.
    right. left. exists r0. split; auto. apply in_or_app. now left.
Qed.

Lemma call_cache_inv c hist rs st r st' tr :
  cache_inv pack st hist rs ->
  call pack c st = Done r st' tr ->
  NoDup (map frame_pts (frames_of (hist ++ [c]))) ->
  cache_inv pack st' (hist ++ [c]) (rs ++ [r]).
Proof.
  intros Hinv H Hnd. unfold call in H. apply eb_encode_frame_inv in H.
  destruct H as [(He & _ & -> & _)|(He & b & st1 & tr1 & Hs & H)].
  - apply cache_inv_weaken; auto.
  - destruct (@submit_cache_inv _ _ _ _ _ _ _ Hinv He Hs Hnd)
      as (Hinv1 & _ & ->).
    destruct H as [(Hb & _)|(_ & tr2 & Hf & _)]; [discriminate|].
    eapply fetch_packet_cache_inv; eauto.
Qed.

Lemma run_cache_inv cs : forall hist rs0 st rs st' tr,
  cache_inv pack st hist rs0 ->
  run pack cs st = Done rs st' tr ->
  NoDup (map frame_pts (frames_of (hist ++ cs))) ->
  cache_inv pack st' (hist ++ cs) (rs0 ++ rs).
Proof.
  induction cs as [|c cs IH]; intros hist rs0 st rs st' tr Hinv H Hnd.
  - inversion H; subst. now rewrite !app_nil_r.
  - apply run_cons_inv in H.
    destruct H as (r & st1 & tr1 & rs' & tr2 & Hc & Hr & -> & _).
    replace (hist ++ c :: cs) with ((hist ++ [c]) ++ cs) in *
      by (now rewrite <- app_assoc).
    replace (rs0 ++ r :: rs') with ((rs0 ++ [r]) ++ rs')
      by (now rewrite <- app_assoc).
    eapply IH; [|exact Hr|exact Hnd].
    eapply call_cache_inv; [exact Hinv|exact Hc|].
    rewrite frames_of_app, map_app in Hnd.
    now apply NoDup_app_remove_r in Hnd.
Qed.

Lemma submit_trace env (frame : option Frame) st b st1 tr :
  submit pack env frame st = Done b st1 tr ->
  forall e, In e tr -> e = EvMallocz \/ exists h, e = EvSendPicture h.
Proof.
  destruct frame as [f|].
  - intros H. apply submit_frame_inv in H.
    destruct H as (h & _ & _ & _ & _ & _ & H).
    destruct H as [(_ & _ & _ & ->)|[(d & x & _ & _ & _ & _ & ->)
                                    |(d & _ & _ & _ & _ & _ & ->)]];
      cbn; intros e He; repeat (destruct He as [<-|He]; eauto);
      contradiction.
  - rewrite submit_eos.
    destruct (eos_flag st); intros H; inversion H; subst; cbn;
      intros e He; repeat (destruct He as [<-|He]; eauto); contradiction.
Qed.

(** C1. Correlation by timestamp.  Let a sequence of calls start with an
    empty metadata list, let the frames handed in have pairwise distinct
    timestamps, and let the caller clear [*got_packet] before each call.
    When a call returns a packet whose timestamp is that of a frame handed
    in so far (in this call or an earlier one) with a dictionary that
    packs to a non-empty payload, and no earlier call returned a packet
    with this timestamp, then
    - the packet's side data is what the caller's packet had, followed by
      one [AV_PKT_DATA_STRINGS_METADATA] element holding exactly that
      frame's packed dictionary;
    - no entry with this timestamp is left in the list;
    - the call requested side data once and freed the entry and its
      payload once.
    Nothing is assumed about the order in which the encoder hands the
    packets back. *)
Theorem metadata_follows_timestamp
    (pre : list (Call AVDictionary)) c st0 rs st r st' tr1 tr2 (f : Frame) d :
  metadata_list st0 = [] ->
  Forall (fun c : Call AVDictionary => c_got_packet c = 0) (pre ++ [c]) ->
  NoDup (map frame_pts (frames_of (pre ++ [c]))) ->
  run pack pre st0 = Done rs st tr1 ->
  call pack c st = Done r st' tr2 ->
  ret_got_packet r = 1 ->
  In f (frames_of (pre ++ [c])) ->
  frame_metadata f = Some d ->
  has_payload (entry_of pack f d) = true ->
  pkt_pts (ret_pkt r) = frame_pts f ->
  (forall r0, In r0 rs -> ret_got_packet r0 = 1 ->
              pkt_pts (ret_pkt r0) <> frame_pts f) ->
  pkt_side_data (ret_pkt r) =
    pkt_side_data (c_pkt c)
    ++ [(AV_PKT_DATA_STRINGS_METADATA, payload (entry_of pack f d))] /\
  (forall q, In q (metadata_list st') -> md_pts q <> frame_pts f) /\
  (exists tra trb,
      tr2 = tra ++ [EvNewSideData AV_PKT_DATA_STRINGS_METADATA
                                  (size (entry_of pack f d));
                    EvFreeMetadata (entry_of pack f d);
                    EvFreeEntry (entry_of pack f d)] ++ trb /\
      (forall t sz, ~ In (EvNewSideData t sz) (tra ++ trb)) /\
      ~ In (EvFreeEntry (entry_of pack f d)) (tra ++ trb)).
Proof.
  intros Hempty Hgot Hnd Hrun Hcall Hr Hin Hm Hpay Hpts Hfirst.
  assert (Hinv0 : cache_inv pack st0 [] []).
  { split.
    - rewrite Hempty. intros p [].
    - intros f' d' []. }
  assert (Hinv : cache_inv pack st pre rs).
  { apply (@run_cache_inv pre [] [] st0 rs st tr1 Hinv0 Hrun).
    cbn [app]. rewrite frames_of_app, map_app in Hnd.
    now apply NoDup_app_remove_r in Hnd. }
  assert (Hnds : NoDup (map md_pts (metadata_list st))).
  { eapply run_NoDup; [|exact Hrun]. rewrite Hempty. constructor. }
  assert (Hgc : c_got_packet c = 0).
  { rewrite Forall_forall in Hgot. apply Hgot. apply in_or_app.
    right. now left. }
  unfold call in Hcall. apply eb_encode_frame_inv in Hcall.
  destruct Hcall as [(_ & -> & _)|(He & b & st1 & trs & Hs & H)];
    [discriminate|].
  destruct (@submit_cache_inv _ _ _ _ _ _ _ Hinv He Hs Hnd)
    as ((I1 & I3) & He1 & ->).
  assert (Hnd1 : NoDup (map md_pts (metadata_list st1)))
    by (eapply submit_NoDup; eauto).
  destruct H as [(Hb & _)|(_ & trf & Hf & ->)]; [discriminate|].
  rewrite Hgc in Hf.
  assert (Hentry : In (entry_of pack f d) (metadata_list st1)).
  { destruct (I3 f d Hin Hm) as [H|[(r0 & Hr0 & Hg0 & Hp0)|H]]; auto.
    - contradiction.
    - exfalso. now apply (Hfirst r0). }
  destruct (@fetch_packet_attaches _ _ _ _ _ _ _ Hnd1 Hentry Hpay Hf Hr Hpts)
    as (Hsd & _ & Hgone & tra & trb & -> & Hfa & Hfb & Hna & Hnb).
  split; [exact Hsd|]. split; [exact Hgone|].
  exists (trs ++ tra), trb. split; [now rewrite <- app_assoc|].
  pose proof (submit_trace _ _ _ Hs) as Htr.
  split.
  - intros t sz Hi. apply in_app_or in Hi. destruct Hi as [Hi|Hi].
    + apply in_app_or in Hi. destruct Hi as [Hi|Hi].
      * destruct (Htr _ Hi) as [E|(h & E)]; discriminate.
      * now apply (Hna t sz).
    + now apply (Hnb t sz).
  - intros Hi. apply in_app_or in Hi. destruct Hi as [Hi|Hi]; auto.
    apply in_app_or in Hi. destruct Hi as [Hi|Hi]; auto.
    destruct (Htr _ Hi) as [E|(h & E)]; discriminate.
Qed.

(** ** The status of a submission *)

Lemma submit_with_send_ret e env (frame : option Frame) st :
  submit pack (with_send_ret e env) frame st = submit pack env frame st.
Proof.
  unfold submit. destruct frame as [f|]; [|reflexivity].
  unfold_m. cbn.
  destruct (read_in_data (enc_params st) f (in_buf st)); reflexivity.
Qed.

(** C7, as the code has it.  The status [EbH265EncSendPicture] returns is
    dropped: a whole call (outcome, return value, packet, context and
    trace) is the same whatever that status is, so a failed submission is
    neither mapped by [error_mapping] nor returned.  The entry created
    for a frame with a dictionary is appended to the list by the
    submission half whatever the status, and nothing takes it back. *)
Theorem submission_status_ignored :
  (forall e env pkt (frame : option Frame) got st,
      eb_encode_frame pack (with_send_ret e env) pkt frame got st =
      eb_encode_frame pack env pkt frame got st) /\
  (forall e env (f : Frame) d st h,
      frame_metadata f = Some d ->
      read_in_data (enc_params st) f (in_buf st) = Some h ->
      Forall (fun p => md_pts p <> frame_pts f) (metadata_list st) ->
      mallocz_ok env = true ->
      submit pack (with_send_ret e env) (Some f) st =
      Done true
           (set_metadata_list (metadata_list st ++ [entry_of pack f d])
              (set_in_buf (set_pts (frame_pts f) h) st))
           [EvSendPicture (set_pts (frame_pts f) h); EvMallocz]).
Proof.
  split.
  - intros e env pkt frame got st. unfold eb_encode_frame.
    unfold bind, get. cbv beta.
    destruct (eos_flag st); try reflexivity;
      rewrite submit_with_send_ret;
      destruct (submit pack env frame st) as [|[] st1 tr1]; reflexivity.
  - intros e env f d st h Hm Hr Hall Hok.
    rewrite submit_with_send_ret.
    unfold submit. unfold_m. cbn. rewrite Hr. cbn. rewrite Hm.
    assert (Hn : ListH.list_for_each_until (same_pts (frame_pts f))
                   (metadata_list st) = None).
    { apply list_for_each_until_None. eapply Forall_impl; [|exact Hall].
      cbn. intros p Hp. unfold same_pts. apply Z.eqb_neq. congruence. }
    rewrite Hn. cbn. rewrite Hok. unfold entry_of.
    destruct (pack d) as [packed sz]. reflexivity.
Qed.

(** ** The filled length of the input buffer *)

Lemma fetch_packet_frame env pkt got st r st' tr :
  fetch_packet env pkt got st = Done r st' tr ->
  in_buf st' = in_buf st /\ enc_params st' = enc_params st.
Proof.
  intros H. apply fetch_packet_inv in H.
  destruct H as [(_ & _ & -> & _)
                |[(_ & h & _ & _ & _ & -> & _)
                 |(_ & h & bytes & pkt1 & pkt2 & st2 & tr1 & tr2 & _ & _
                   & _ & _ & Hat & _ & -> & _)]]; auto.
  apply attach_metadata_frame in Hat. destruct Hat as (_ & Hb & Hp & _).
  destruct (EB_BUFFERFLAG_EOS =? released_nFlags env); cbn; auto.
Qed.

Lemma read_in_data_filled_len config (f : Frame) header h :
  read_in_data config f header = Some h ->
  nFilledLen h = Int.to_uint32 (nFilledLen header + frame_size_of config).
Proof.
  unfold read_in_data. destruct (pBuffer header); try discriminate.
  intros H; inversion H; subst. reflexivity.
Qed.

Lemma call_frame_filled_len c st r st' tr :
  eos_flag st <> EOS_RECEIVED ->
  c_frame c <> None -> carries_eos (c_env c) = false ->
  call pack c st = Done r st' tr ->
  nFilledLen (in_buf st') =
    Int.to_uint32 (nFilledLen (in_buf st) + frame_size_of (enc_params st)) /\
  enc_params st' = enc_params st /\ eos_flag st' <> EOS_RECEIVED.
Proof.
  intros He Hf Hno H. unfold call in H. apply eb_encode_frame_inv in H.
  destruct H as [(E & _)|(_ & b & st1 & tr1 & Hs & H)]; [contradiction|].
  destruct (c_frame c) as [f|]; [|contradiction].
  apply submit_frame_inv in Hs.
  destruct Hs as (h & Hr & He1 & Hb & Hp & _).
  apply read_in_data_filled_len in Hr.
  destruct H as [(_ & _ & -> & _)|(_ & tr2 & Hfe & _)].
  - rewrite Hb, Hp, He1. cbn. auto.
  - pose proof (@fetch_packet_flush _ _ _ _ _ _ _ Hfe) as (He2 & _).
    apply fetch_packet_frame in Hfe. destruct Hfe as (-> & ->).
    rewrite Hb, Hp, He2, Hno, He1. cbn. auto.
Qed.

(** C10, as the code has it.  Over [n] consecutive calls that each submit
    a frame, none of which retrieves a header carrying the end-of-stream
    flag, the filled length of the input buffer grows by the frame size
    at every call and is never reset; the field being a 32-bit unsigned
    integer, it ends with the starting length plus [n] times the frame
    size, modulo 2^32.  Starting from 0 this is [n] times the frame size
    as long as that product is below 2^32. *)
Theorem filled_length_accumulates (cs : list (Call AVDictionary)) :
  forall st rs st' tr,
    0 <= nFilledLen (in_buf st) < 2 ^ 32 ->
    eos_flag st <> EOS_RECEIVED ->
    Forall (fun c : Call AVDictionary =>
              c_frame c <> None /\ carries_eos (c_env c) = false) cs ->
    run pack cs st = Done rs st' tr ->
    nFilledLen (in_buf st') =
      Int.to_uint32 (nFilledLen (in_buf st)
                     + Z.of_nat (length cs) * frame_size_of (enc_params st)) /\
    (nFilledLen (in_buf st) = 0 ->
     0 <= Z.of_nat (length cs) * frame_size_of (enc_params st) < 2 ^ 32 ->
     nFilledLen (in_buf st') =
       Z.of_nat (length cs) * frame_size_of (enc_params st)).
Proof.
  assert (Hmain : forall st rs st' tr,
    0 <= nFilledLen (in_buf st) < 2 ^ 32 ->
    eos_flag st <> EOS_RECEIVED ->
    Forall (fun c : Call AVDictionary =>
              c_frame c <> None /\ carries_eos (c_env c) = false) cs ->
    run pack cs st = Done rs st' tr ->
    nFilledLen (in_buf st') =
      Int.to_uint32 (nFilledLen (in_buf st)
                     + Z.of_nat (length cs) * frame_size_of (enc_params st))).
  { induction cs as [|c cs IH]; intros st rs st' tr Hrange He Hall H.
    - inversion H; subst. cbn [length Z.of_nat].
      rewrite Z.mul_0_l, Z.add_0_r, to_uint32_small; auto.
    - apply run_cons_inv in H.
      destruct H as (r & st1 & tr1 & rs' & tr2 & Hc & Hr & _).
      inversion Hall as [|? ? (Hf & Hno) Hall']; subst.
      destruct (@call_frame_filled_len _ _ _ _ _ He Hf Hno Hc)
        as (Hlen & Hp & He1).
      rewrite (IH st1 rs' st' tr2); auto.
      + rewrite Hlen, Hp, to_uint32_add_idem. f_equal.
        cbn [length]. rewrite Nat2Z.inj_succ. lia.
      + rewrite Hlen. apply to_uint32_range. }
  intros st rs st' tr Hrange He Hall H. split.
  - now apply (Hmain st rs st' tr).
  - intros E Hb. rewrite (Hmain st rs st' tr); auto.
    rewrite E, Z.add_0_l. now apply to_uint32_small.
Qed.

End Facts.

(** * Evaluations on concrete inputs *)

(** ** Frame size and strides (C5) *)

Lemma read_in_data_strides AVDictionary config (f : AVFrame AVDictionary)
    header h :
  read_in_data config f header = Some h ->
  exists d,
    pBuffer h = InData d /\
    yStride d = Int.to_uint32 (if 8 <? encoderBitDepth config
                               then linesize0 f / 2 else linesize0 f) /\
    cbStride d = Int.to_uint32 (if 8 <? encoderBitDepth config
                                then linesize1 f / 2 else linesize1 f) /\
    crStride d = Int.to_uint32 (if 8 <? encoderBitDepth config
                                then linesize2 f / 2 else linesize2 f).
Proof.
  unfold read_in_data, is16bit_of.
  destruct (pBuffer header); try discriminate.
  intros H; inversion H; subst; clear H. eexists. split; [reflexivity|].
  cbn [yStride cbStride crStride].
  destruct (8 <? encoderBitDepth config).
  - rewrite !Z.shiftr_div_pow2 by lia. change (2 ^ 1) with 2. auto.
  - rewrite !Z.shiftr_0_r. auto.
Qed.

Lemma frame_size_of_yuv420 w h depth :
  frame_size_of {| sourceWidth := w; sourceHeight := h;
                   encoderBitDepth := depth;
                   encoderColorFormat := EB_YUV420 |}
  = Int.to_uint32 (w * h) * (if 8 <? depth then 2 else 1).
Proof.
  unfold frame_size_of, is16bit_of. cbn [encoderBitDepth sourceWidth
    sourceHeight encoderColorFormat EB_COLOR_FORMAT_eqb].
  pose proof (to_uint32_range (w * h)) as Hr.
  set (x := Int.to_uint32 (w * h)) in *.
  change (3 / 2) with 1. rewrite Z.mul_1_r.
  destruct (8 <? depth).
  - rewrite Z.shiftl_mul_pow2 by lia. change (2 ^ 1) with 2.
    rewrite !(@to_uint64_small (x * 2)) by lia. reflexivity.
  - rewrite Z.shiftl_0_r, Z.mul_1_r.
    rewrite !(@to_uint64_small x) by lia. reflexivity.
Qed.

(** C5 at a 2x2, 8-bit, 4:2:0 picture.  The strides are the line sizes
    (halved only above 8 bits), but the size added to [nFilledLen] is
    width times height times [3/2u], and [3/2u] is 1: 4 bytes are added
    where 1.5 times the luma size is 6.  For every 4:2:0 configuration the
    size is the luma size itself. *)
Theorem yuv420_frame_size_unscaled :
  (forall w h depth,
      frame_size_of {| sourceWidth := w; sourceHeight := h;
                       encoderBitDepth := depth;
                       encoderColorFormat := EB_YUV420 |}
      = Int.to_uint32 (w * h) * (if 8 <? depth then 2 else 1)) /\
  frame_size_of Sample.cfg_2x2 = 4 /\
  spec_frame_size Sample.cfg_2x2 = 6 /\
  option_map (fun h => (nFilledLen h, pBuffer h))
    (read_in_data Sample.cfg_2x2 (Sample.frame_at 0 None)
                  (in_buf (Sample.ctx Sample.cfg_2x2)))
  = Some (4, InData {| luma := 4096; cb := 8192; cr := 12288;
                       yStride := 1920; cbStride := 960; crStride := 960 |}).
Proof.
  split; [exact frame_size_of_yuv420|].
  repeat split; reflexivity.
Qed.

(** ** Reads of the output header after its release (C6) *)

Lemma after_release_app pre post :
  Forall (fun e => is_release e = false) pre ->
  after_release (pre ++ EvReleaseOutBuffer :: post) = post.
Proof.
  induction 1 as [|e l He _ IH]; [reflexivity|].
  cbn. destruct e; try discriminate; exact IH.
Qed.

(** Every retrieval that gets a header and a packet releases the header
    once and reads [nFlags] from it afterwards. *)
Lemma fetch_packet_release_then_flags env pkt got st r st' tr :
  fetch_packet env pkt got st = Done r st' tr ->
  retrieved_header env <> None ->
  after_release tr = [EvReadOut F_nFlags] /\
  length (filter is_release tr) = 1%nat.
Proof.
  intros H Hh. apply fetch_packet_inv in H. unfold retrieved_header in Hh.
  destruct H as [(He & _)
                |[(He & h & _ & Ha & _)
                 |(He & h & bytes & pkt1 & pkt2 & st2 & tr1 & tr2 & _ & _
                   & _ & Hs & Hat & _ & _ & ->)]].
  - rewrite He in Hh. congruence.
  - apply Z.eqb_neq in Ha. rewrite Ha in Hh.
    destruct (get_ret env); congruence.
  - match type of Hs with
    | slice_flags h ?x st = _ =>
        destruct (slice_flags_done h x st) as (p' & t' & Hs' & _ & _ & Hreads)
    end.
    rewrite Hs in Hs'. inversion Hs'; subst p' t'.
    assert (Hno1 : Forall (fun e => is_release e = false) tr1).
    { eapply Forall_impl; [|exact Hreads]. cbn. now intros e ->. }
    assert (Hno2 : Forall (fun e => is_release e = false) tr2).
    { apply attach_metadata_inv in Hat.
      destruct Hat as [(b & p & a & _ & _ & _ & _ & _ & ->)|(_ & _ & _ & ->)];
        repeat constructor. }
    assert (Hfil : forall l, Forall (fun e => is_release e = false) l ->
                             filter is_release l = []).
    { induction 1 as [|e l He' _ IH]; [reflexivity|]. cbn. now rewrite He'. }
    split.
    + rewrite !app_assoc. rewrite <- app_assoc.
      change ([EvReleaseOutBuffer; EvReadOut F_nFlags])
        with (EvReleaseOutBuffer :: [EvReadOut F_nFlags]).
      rewrite <- !app_assoc. rewrite !app_assoc.
      apply after_release_app.
      repeat (apply Forall_app; split); auto; repeat constructor.
    + rewrite !filter_app, (Hfil _ Hno1), (Hfil _ Hno2). reflexivity.
Qed.

(** C6 at a call that retrieves one packet.  The header is released once,
    after the payload, size, timestamps and slice type have been read, but
    [nFlags] is read from the released header afterwards. *)
Theorem flags_read_after_release :
  fetch_packet (Sample.env_packet 100 0) Sample.pkt0 0
               (Sample.ctx Sample.cfg_2x2)
  = Done {| ret_val := 0;
            ret_pkt := {| pkt_data := [x00; x00; x01]; pkt_size := 3;
                          pkt_pts := 100; pkt_dts := 100;
                          pkt_flags := AV_PKT_FLAG_KEY;
                          pkt_side_data := [] |};
            ret_got_packet := 1 |}
         (Sample.ctx Sample.cfg_2x2)
         [EvGetPacket EOS_NOT_REACHED; EvReadOut F_pts;
          EvReadOut F_nFilledLen; EvAllocPacket 3;
          EvReadOut F_pBuffer; EvReadOut F_nFilledLen;
          EvReadOut F_nFilledLen; EvReadOut F_pts; EvReadOut F_dts;
          EvReadOut F_sliceType; EvReadOut F_sliceType;
          EvReleaseOutBuffer; EvReadOut F_nFlags] /\
  filter is_read_out
    (after_release
       (Sample.trace (fetch_packet (Sample.env_packet 100 0) Sample.pkt0 0
                                   (Sample.ctx Sample.cfg_2x2))))
  = [EvReadOut F_nFlags] /\
  length (filter is_release
            (Sample.trace (fetch_packet (Sample.env_packet 100 0) Sample.pkt0 0
                                        (Sample.ctx Sample.cfg_2x2))))
  = 1%nat.
Proof. repeat split; reflexivity. Qed.

(** ** Closing with pending metadata (C9) *)

Lemma eb_enc_close_total st :
  exists st' tr,
    eb_enc_close st = Done 0 st' tr /\
    metadata_list st' = metadata_list st /\
    in_buf st' = in_buf st /\
    tr = EvFreeInData (pBuffer (in_buf st))
         :: match svt_handle st with
            | Some _ => [EvDeinitEncoder; EvDeinitHandle]
            | None => []
            end.
Proof.
  unfold eb_enc_close, free_buffer. unfold_m. cbn.
  destruct (svt_handle st); cbn; eexists; eexists; repeat split.
Qed.

(** C9 at a context with one pending entry: frame 100 went in with
    metadata and no packet came back.  [eb_enc_close] returns 0 in every
    context, frees what [in_buf.pBuffer] points at and shuts the encoder
    down, but never touches the metadata list: the entry and its payload
    are still there, unfreed.  After end of input was sent,
    [in_buf.pBuffer] is null and the picture descriptor is not freed
    either. *)
Theorem close_leaves_pending_entries :
  (forall st, exists st' tr,
      eb_enc_close st = Done 0 st' tr /\
      metadata_list st' = metadata_list st /\
      filter is_free_of_entry tr = []) /\
  (let st := Sample.final_state
               (run Sample.pack [Sample.c100] (Sample.ctx Sample.cfg_2x2))
               (Sample.ctx Sample.cfg_2x2) in
   metadata_list st
   = [{| md_pts := 100; metadata := Some Sample.meta_a; size := 7 |}] /\
   metadata_list (Sample.final_state (eb_enc_close st) st)
   = [{| md_pts := 100; metadata := Some Sample.meta_a; size := 7 |}] /\
   Sample.trace (eb_enc_close st)
   = [EvFreeInData (InData {| luma := 4096; cb := 8192; cr := 12288;
                              yStride := 1920; cbStride := 960;
                              crStride := 960 |});
      EvDeinitEncoder; EvDeinitHandle]) /\
  (let st := Sample.final_state
               (run Sample.pack [Sample.c_eos] (Sample.ctx Sample.cfg_2x2))
               (Sample.ctx Sample.cfg_2x2) in
   Sample.trace (eb_enc_close st)
   = [EvFreeInData NullBuf; EvDeinitEncoder; EvDeinitHandle]).
Proof.
  split; [|split; [repeat split; reflexivity|reflexivity]].
  intros st. destruct (eb_enc_close_total st) as (st' & tr & H & Hl & _ & ->).
  exists st'. eexists. split; [exact H|]. split; [exact Hl|].
  destruct (svt_handle st); reflexivity.
Qed.

(** ** The general statements at work *)

Lemma eos_received_returns_empty_witness :
  eos_flag (set_eos_flag EOS_RECEIVED (Sample.ctx Sample.cfg_2x2))
  = EOS_RECEIVED /\
  eb_encode_frame Sample.pack Sample.env_empty Sample.pkt0
    (Some (Sample.frame_at 5 None)) 0
    (set_eos_flag EOS_RECEIVED (Sample.ctx Sample.cfg_2x2))
  = Done {| ret_val := 0; ret_pkt := Sample.pkt0; ret_got_packet := 0 |}
         (set_eos_flag EOS_RECEIVED (Sample.ctx Sample.cfg_2x2)) [].
Proof.
  split; [reflexivity|].
  apply eos_received_returns_empty. reflexivity.
Defined.

Lemma empty_queue_returns_empty_witness :
  get_ret Sample.env_empty = EB_NoErrorEmptyQueue /\
  fetch_packet Sample.env_empty Sample.pkt0 0 (Sample.ctx Sample.cfg_2x2)
  = Done {| ret_val := 0; ret_pkt := Sample.pkt0; ret_got_packet := 0 |}
         (Sample.ctx Sample.cfg_2x2) [EvGetPacket EOS_NOT_REACHED].
Proof.
  split; [reflexivity|].
  exact (proj1 (@empty_queue_returns_empty Sample.Dict Sample.pack
                  Sample.env_empty eq_refl)
               Sample.pkt0 0 (Sample.ctx Sample.cfg_2x2)).
Defined.

(** Frame 100, end of input, end of input again (answered by the flagged
    packet), end of input once more: the first end of input sends the only
    end-of-stream picture and leads to [EOS_SENT]; the flagged packet
    leads to [EOS_RECEIVED]. *)
Lemma flush_state_machine_witness :
  let st0 := Sample.ctx Sample.cfg_2x2 in
  let st1 := Sample.final_state (run Sample.pack [Sample.c100] st0) st0 in
  let st2 :=
    Sample.final_state (run Sample.pack [Sample.c100; Sample.c_eos] st0) st0 in
  let o := run Sample.pack
               [Sample.c100; Sample.c_eos; Sample.c_eos_gets_last; Sample.c_eos]
               st0 in
  filter (@is_eos_send) (Sample.trace o)
  = [EvSendPicture (mark_eos (in_buf st1))] /\
  eos_flag st2 = EOS_SENT /\
  eos_flag (Sample.final_state
              (call Sample.pack Sample.c_eos_gets_last st2) st2)
  = EOS_RECEIVED.
Proof.
  intros st0 st1 st2 o.
  destruct (flush_state_machine Sample.pack)
    as (_ & _ & _ & _ & Hcall & _ & Hseq & _).
  split; [|split].
  - refine (proj1 (Hseq [Sample.c100] Sample.c_eos
                     [Sample.c_eos_gets_last; Sample.c_eos] st0
                     (Sample.returned (run Sample.pack [Sample.c100] st0) [])
                     st1 (Sample.trace (run Sample.pack [Sample.c100] st0))
                     (Sample.returned o []) (Sample.final_state o st0)
                     (Sample.trace o) _ _ _ _)).
    + vm_compute. reflexivity.
    + reflexivity.
    + reflexivity.
    + vm_compute. reflexivity.
  - transitivity (flush_step Sample.c_eos st1); [|reflexivity].
    refine (proj1 (Hcall Sample.c_eos st1
                     (Sample.returned (call Sample.pack Sample.c_eos st1)
                        Sample.no_return)
                     st2 (Sample.trace (call Sample.pack Sample.c_eos st1))
                     _)).
    vm_compute. reflexivity.
  - transitivity (flush_step Sample.c_eos_gets_last st2); [|reflexivity].
    refine (proj1 (Hcall Sample.c_eos_gets_last st2
                     (Sample.returned
                        (call Sample.pack Sample.c_eos_gets_last st2)
                        Sample.no_return)
                     _ (Sample.trace
                          (call Sample.pack Sample.c_eos_gets_last st2))
                     _)).
    vm_compute. reflexivity.
Defined.

(** The flush state does not follow the cycle of the specification.
    - Frame 100 goes in first and the encoder answers with a header whose
      [nFlags] is [EB_BUFFERFLAG_EOS]: the state goes from
      [EOS_NOT_REACHED] to [EOS_RECEIVED] at once, and the two end-of-input
      calls that follow send no end-of-stream picture at all.
    - After end of input was sent, a header flagged [EB_BUFFERFLAG_EOS]
      whose packet cannot be allocated leaves the state [EOS_SENT].
    - So does a header whose [nFlags] holds the end-of-stream bit and one
      more. *)
Lemma flush_state_skips_sent :
  let st0 := Sample.ctx Sample.cfg_2x2 in
  let first := call Sample.pack Sample.c100_gets_flagged st0 in
  let o := run Sample.pack
               [Sample.c100_gets_flagged; Sample.c_eos; Sample.c_eos] st0 in
  let lost :=
    call Sample.pack
         (Sample.mk_call (Example.env_alloc_fails 100 EB_BUFFERFLAG_EOS) None)
         Example.after_eos in
  let more := call Sample.pack Sample.c_eos_gets_flags_3 Example.after_eos in
  (eos_flag st0 = EOS_NOT_REACHED /\
   Sample.completes first = true /\
   eos_flag (Sample.final_state first st0) = EOS_RECEIVED /\
   Sample.completes o = true /\
   filter (@is_eos_send) (Sample.trace o) = [] /\
   eos_flag (Sample.final_state o st0) = EOS_RECEIVED) /\
  (eos_flag Example.after_eos = EOS_SENT /\
   Sample.completes lost = true /\
   ret_val (Sample.returned lost Sample.no_return) = -12 /\
   eos_flag (Sample.final_state lost Example.after_eos) = EOS_SENT) /\
  (Z.land 3 EB_BUFFERFLAG_EOS = EB_BUFFERFLAG_EOS /\
   Sample.completes more = true /\
   ret_got_packet (Sample.returned more Sample.no_return) = 1 /\
   eos_flag (Sample.final_state more Example.after_eos) = EOS_SENT).
Proof. cbv zeta. vm_compute. repeat split; reflexivity. Qed.


(** Frames 100 and 200 go in with metadata, then the packet of frame 200
    comes back first: it carries the metadata of frame 200. *)
Lemma metadata_follows_timestamp_witness :
  let st0 := Sample.ctx Sample.cfg_2x2 in
  let pre := [Sample.c100; Sample.c200] in
  let o1 := run Sample.pack pre st0 in
  let o2 := call Sample.pack Sample.c300_gets_200 (Sample.final_state o1 st0) in
  pkt_side_data (ret_pkt (Sample.returned o2 Sample.no_return))
  = [(AV_PKT_DATA_STRINGS_METADATA, Sample.meta_b)].
Proof.
  intros st0 pre o1 o2.
  refine (proj1 (@metadata_follows_timestamp Sample.Dict Sample.pack
                   pre Sample.c300_gets_200 st0
                   (Sample.returned o1 []) (Sample.final_state o1 st0)
                   (Sample.returned o2 Sample.no_return)
                   (Sample.final_state o2 st0)
                   (Sample.trace o1) (Sample.trace o2)
                   (Sample.frame_at 200 (Some Sample.meta_b)) Sample.meta_b
                   _ _ _ _ _ _ _ _ _ _ _)).
  - reflexivity.
  - repeat constructor.
  - vm_compute.
    repeat (constructor; [cbn; intuition discriminate|]). constructor.
  - vm_compute. reflexivity.
  - vm_compute. reflexivity.
  - reflexivity.
  - vm_compute. right. left. reflexivity.
  - reflexivity.
  - reflexivity.
  - reflexivity.
  - intros r0 Hin Hg. vm_compute in Hin.
    destruct Hin as [<-|[<-|[]]]; discriminate.
Defined.

(** ** Submission failures (C7) *)

(** The encoder refuses frame 100 with [EB_ErrorInsufficientResources]; the
    call returns 0, not [AVERROR(ENOMEM)]. *)
Lemma submission_failure_not_returned :
  let o := eb_encode_frame Sample.pack Sample.env_send_fails Sample.pkt0
             (Some (Sample.frame_at 100 None)) 0 (Sample.ctx Sample.cfg_2x2) in
  send_ret Sample.env_send_fails = EB_ErrorInsufficientResources /\
  error_mapping (send_ret Sample.env_send_fails) = AVERROR ENOMEM /\
  Sample.completes o = true /\
  ret_val (Sample.returned o Sample.no_return) = 0 /\
  ret_val (Sample.returned o Sample.no_return)
  <> error_mapping (send_ret Sample.env_send_fails).
Proof.
  cbv zeta. repeat split; try reflexivity. vm_compute. discriminate.
Qed.

Lemma submission_status_ignored_witness :
  exists h,
    read_in_data (enc_params (Sample.ctx Sample.cfg_2x2))
                 (Sample.frame_at 100 (Some Sample.meta_a))
                 (in_buf (Sample.ctx Sample.cfg_2x2)) = Some h /\
    submit Sample.pack Sample.env_send_fails
           (Some (Sample.frame_at 100 (Some Sample.meta_a)))
           (Sample.ctx Sample.cfg_2x2)
    = Done true
        (set_metadata_list
           [{| md_pts := 100; metadata := Some Sample.meta_a; size := 7 |}]
           (set_in_buf (set_pts 100 h) (Sample.ctx Sample.cfg_2x2)))
        [EvSendPicture (set_pts 100 h); EvMallocz].
Proof.
  eexists. split; [reflexivity|].
  apply (proj2 (submission_status_ignored Sample.pack)
               EB_ErrorInsufficientResources Sample.env_empty
               (Sample.frame_at 100 (Some Sample.meta_a)) Sample.meta_a
               (Sample.ctx Sample.cfg_2x2)).
  - reflexivity.
  - reflexivity.
  - constructor.
  - reflexivity.
Defined.

(** ** The filled length (C10) *)

(** 2072 frames of 1920x1080, 8 bits, 4:2:0: the frame size is 2073600 and
    2072 times that is 4296499200, which no longer fits the field; it
    holds 1531904. *)
Lemma filled_length_wraps :
  let o := run Sample.pack (Sample.plain_calls 2072)
               (Sample.ctx Sample.cfg_1080p) in
  Sample.completes o = true /\
  frame_size_of Sample.cfg_1080p = 2073600 /\
  nFilledLen (in_buf (Sample.final_state o (Sample.ctx Sample.cfg_1080p)))
  = 1531904 /\
  nFilledLen (in_buf (Sample.final_state o (Sample.ctx Sample.cfg_1080p)))
  <> 2072 * frame_size_of Sample.cfg_1080p.
Proof.
  cbv zeta. split; [vm_compute; reflexivity|].
  split; [vm_compute; reflexivity|].
  split; [vm_compute; reflexivity|].
  vm_compute. discriminate.
Qed.

Lemma filled_length_accumulates_witness :
  let st := Sample.ctx Sample.cfg_2x2 in
  let o := run Sample.pack (Sample.plain_calls 3) st in
  nFilledLen (in_buf (Sample.final_state o st)) = 12.
Proof.
  intros st o.
  refine (proj2 (@filled_length_accumulates Sample.Dict Sample.pack
                   (Sample.plain_calls 3) st (Sample.returned o [])
                   (Sample.final_state o st) (Sample.trace o) _ _ _ _) _ _).
  - vm_compute. split; [discriminate|reflexivity].
  - discriminate.
  - repeat (constructor; [split; [discriminate|reflexivity]|]). constructor.
  - vm_compute. reflexivity.
  - reflexivity.
  - vm_compute. split; [discriminate|reflexivity].
Defined.

(** * The list primitives on memory *)

Section ListMemFacts.

Import ListMem.

Lemma next_store_next p v m a :
  next (store_next p v m a) = if a =? p then v else next (m a).
Proof. unfold store_next. now destruct (a =? p). Qed.

Lemma next_store_prev p v m a : next (store_prev p v m a) = next (m a).
Proof. unfold store_prev. now destruct (a =? p). Qed.

Lemma prev_store_prev p v m a :
  prev (store_prev p v m a) = if a =? p then v else prev (m a).
Proof. unfold store_prev. now destruct (a =? p). Qed.

Lemma prev_store_next p v m a : prev (store_next p v m a) = prev (m a).
Proof. unfold store_next. now destruct (a =? p). Qed.

Lemma last_cons (l : list Z) : forall x d, last (x :: l) d = last l x.
Proof.
  induction l as [|y l IH]; intros x d; [reflexivity|].
  change (last (x :: y :: l) d) with (last (y :: l) d).
  now rewrite !IH.
Qed.

Lemma last_in (l : list Z) : forall d, In (last l d) (d :: l).
Proof.
  induction l as [|x l IH]; intros d; [now left|].
  right. rewrite last_cons. apply IH.
Qed.

Lemma hd_in (l : list Z) d : In (hd d l) (d :: l).
Proof. destruct l; cbn; auto. Qed.

Lemma last_rev (l : list Z) d : last (rev l) d = hd d l.
Proof. destruct l as [|x l]; [reflexivity|]. cbn. apply last_last. Qed.

Lemma hd_rev (l : list Z) d : hd d (rev l) = last l d.
Proof. rewrite <- (rev_involutive l) at 2. now rewrite last_rev. Qed.

Lemma walk_app f x l1 y l2 z :
  walk f x (l1 ++ y :: l2) z <-> walk f x l1 y /\ walk f y l2 z.
Proof.
  revert x. induction l1 as [|a l1 IH]; intros x; cbn.
  - tauto.
  - rewrite IH. tauto.
Qed.

Lemma walk_ext f g x l z :
  (forall a, In a (x :: l) -> g a = f a) ->
  walk f x l z -> walk g x l z.
Proof.
  revert x. induction l as [|y l IH]; intros x Hg; cbn.
  - intros <-. apply Hg. now left.
  - intros (Hx & Hw). split.
    + rewrite <- Hx. apply Hg. now left.
    + apply IH; auto. intros a Ha. apply Hg. now right.
Qed.

(** The first step of a walk gives the first position. *)
Lemma walk_first f x l z : walk f x l z -> f x = hd z l.
Proof. destruct l; cbn; tauto. Qed.

(** A walk with its last step sent elsewhere. *)
Lemma walk_retarget f g l : forall x t t',
  NoDup (x :: l) ->
  walk f x l t ->
  g (last l x) = t' ->
  (forall c, In c (x :: l) -> c <> last l x -> g c = f c) ->
  walk g x l t'.
Proof.
  induction l as [|y l IH]; intros x t t' Hnd Hw Hlast Hg; cbn [walk] in *.
  - exact Hlast.
  - destruct Hw as (Hx & Hw). pose proof Hnd as Hnd0.
    apply NoDup_cons_iff in Hnd0. destruct Hnd0 as (Hnx & Hnd').
    rewrite last_cons in Hlast.
    assert (Hxl : x <> last l y).
    { intros E. apply Hnx. rewrite E. apply last_in. }
    split.
    + rewrite <- Hx. apply Hg; [now left|]. now rewrite last_cons.
    + apply (IH y t t'); auto.
      intros c Hc Hne. apply Hg; [now right|]. now rewrite last_cons.
Qed.

Lemma walk_split f x l1 l2 z :
  walk f x (l1 ++ l2) z ->
  walk f x l1 (hd z l2) /\
  match l2 with [] => True | y :: l2' => walk f y l2' z end.
Proof.
  destruct l2 as [|y l2'].
  - rewrite app_nil_r. cbn. auto.
  - intros H. apply walk_app in H. exact H.
Qed.

(** Linking [new] in after the last position of [l1]. *)
Lemma walk_insert f g x l1 l2 z new :
  NoDup (x :: l1 ++ l2) -> ~ In new (x :: l1 ++ l2) ->
  walk f x (l1 ++ l2) z ->
  g (last l1 x) = new -> g new = hd z l2 ->
  (forall c, c <> last l1 x -> c <> new -> g c = f c) ->
  walk g x (l1 ++ new :: l2) z.
Proof.
  intros Hnd Hnew Hw Ha Hn Hg. apply walk_split in Hw.
  destruct Hw as (H1 & H2). apply walk_app.
  assert (Hnd1 : NoDup (x :: l1)).
  { change (x :: l1 ++ l2) with ((x :: l1) ++ l2) in Hnd.
    now apply NoDup_app_remove_r in Hnd. }
  split.
  - apply (@walk_retarget f g l1 x (hd z l2) new); auto.
    intros c Hc Hne. apply Hg; auto. intros ->. apply Hnew.
    cbn in Hc |- *. destruct Hc as [Hc|Hc]; [now left|].
    right. apply in_or_app. now left.
  - destruct l2 as [|y l2']; cbn in *; [exact Hn|]. split; [exact Hn|].
    apply (@walk_ext f g); auto. intros c Hc. apply Hg.
    + intros ->.
      change (x :: l1 ++ y :: l2') with ((x :: l1) ++ y :: l2') in Hnd.
      pose proof (last_in l1 x) as Hin.
      revert Hnd Hin Hc. generalize (last l1 x). generalize (x :: l1).
      intros l0 a Hnd Hin Hc. induction l0 as [|b l0 IH]; [destruct Hin|].
      cbn in Hnd. inversion Hnd as [|? ? Hnb Hnd']; subst.
      destruct Hin as [->|Hin]; [|now apply IH].
      apply Hnb. apply in_or_app. now right.
    + intros ->. apply Hnew. right. apply in_or_app. now right.
Qed.

(** Two parts of a duplicate-free sequence share no position. *)
Lemma NoDup_app_disjoint (l1 l2 : list Z) a :
  NoDup (l1 ++ l2) -> In a l1 -> In a l2 -> False.
Proof.
  induction l1 as [|b l1 IH]; intros Hnd H1 H2; [destruct H1|].
  cbn in Hnd. inversion Hnd as [|? ? Hnb Hnd']; subst.
  destruct H1 as [->|H1]; [|now apply IH].
  apply Hnb. apply in_or_app. now right.
Qed.

(** Unlinking [e]. *)
Lemma walk_delete f g x l1 e l2 z :
  NoDup (x :: l1 ++ e :: l2) ->
  walk f x (l1 ++ e :: l2) z ->
  g (last l1 x) = hd z l2 ->
  (forall c, c <> last l1 x -> c <> e -> g c = f c) ->
  walk g x (l1 ++ l2) z.
Proof.
  intros Hnd Hw Ha Hg. apply walk_app in Hw. destruct Hw as (H1 & H2).
  assert (Hnd' : NoDup ((x :: l1) ++ e :: l2)) by exact Hnd.
  assert (Hnd1 : NoDup (x :: l1)) by now apply NoDup_app_remove_r in Hnd'.
  assert (H1' : walk g x l1 (hd z l2)).
  { apply (@walk_retarget f g l1 x e (hd z l2)); auto.
    intros c Hc Hne. apply Hg; auto. intros ->.
    apply (@NoDup_app_disjoint (x :: l1) (e :: l2) e Hnd' Hc). now left. }
  destruct l2 as [|y l2']; cbn [hd walk] in *.
  - now rewrite app_nil_r.
  - apply walk_app. split; [exact H1'|]. destruct H2 as (_ & H2).
    apply (@walk_ext f g); auto. intros c Hc. apply Hg.
    + intros ->.
      apply (@NoDup_app_disjoint (x :: l1) (e :: y :: l2') (last l1 x) Hnd').
      * apply last_in.
      * right. exact Hc.
    + intros ->. apply NoDup_remove_2 in Hnd'. apply Hnd'.
      apply in_or_app. right. exact Hc.
Qed.

Lemma NoDup_cons_rev (x : Z) l : NoDup (x :: l) -> NoDup (x :: rev l).
Proof.
  intros H. apply NoDup_cons_iff in H. destruct H as (Hx & Hl).
  apply NoDup_cons.
  - intros Hin. apply Hx. now apply in_rev.
  - now apply NoDup_rev.
Qed.

Lemma not_in_cons_rev (a x : Z) l : ~ In a (x :: l) -> ~ In a (x :: rev l).
Proof.
  intros H [E|Hin]; apply H; [now left|right; now apply in_rev].
Qed.

Lemma next_list_add new p n m a :
  next (__list_add new p n m a) =
  if a =? p then new else if a =? new then n else next (m a).
Proof.
  unfold __list_add.
  now rewrite next_store_next, next_store_prev, next_store_next,
    next_store_prev.
Qed.

Lemma prev_list_add new p n m a :
  prev (__list_add new p n m a) =
  if a =? new then p else if a =? n then new else prev (m a).
Proof.
  unfold __list_add.
  now rewrite prev_store_next, prev_store_prev, prev_store_next,
    prev_store_prev.
Qed.

Lemma next_list_del e m a :
  next (list_del e m a) =
  if a =? e then LIST_POISON1
  else if a =? prev (m e) then next (m e) else next (m a).
Proof.
  unfold list_del, __list_del.
  now rewrite next_store_prev, next_store_next, next_store_next,
    next_store_prev.
Qed.

Lemma prev_list_del e m a :
  prev (list_del e m a) =
  if a =? e then LIST_POISON2
  else if a =? next (m e) then prev (m e) else prev (m a).
Proof.
  unfold list_del, __list_del.
  now rewrite prev_store_prev, prev_store_next, prev_store_next,
    prev_store_prev.
Qed.

(** In a represented list [head->prev] is the last entry and [head->next]
    the first. *)
Lemma repr_ends m head l :
  repr m head l ->
  prev (m head) = last l head /\ next (m head) = hd head l.
Proof.
  intros (_ & Hf & Hb). split.
  - apply walk_first in Hb. now rewrite hd_rev in Hb.
  - now apply walk_first in Hf.
Qed.

(** The neighbours of an entry. *)
Lemma repr_neighbours m head l1 e l2 :
  repr m head (l1 ++ e :: l2) ->
  prev (m e) = last l1 head /\ next (m e) = hd head l2.
Proof.
  intros (_ & Hf & Hb). split.
  - rewrite rev_app_distr in Hb. cbn [rev] in Hb. rewrite <- app_assoc in Hb.
    cbn [app] in Hb. apply walk_app in Hb. destruct Hb as (_ & Hb).
    apply walk_first in Hb. now rewrite hd_rev in Hb.
  - apply walk_app in Hf. destruct Hf as (_ & Hf). now apply walk_first in Hf.
Qed.

Lemma eqb_neq_false (a b : Z) : a <> b -> (a =? b) = false.
Proof. intros H. now apply Z.eqb_neq. Qed.

Lemma list_add_tail_repr_core m head l new :
  repr m head l -> ~ In new (head :: l) ->
  repr (list_add_tail new head m) head (ListH.list_add_tail new l) /\
  (forall c, c <> head -> c <> new -> c <> last l head ->
             list_add_tail new head m c = m c).
Proof.
  intros Hr Hnew. pose proof (repr_ends Hr) as (Hlast & _).
  destruct Hr as (Hnd & Hf & Hb). unfold ListH.list_add_tail.
  assert (Hne : new <> last l head).
  { intros E. apply Hnew. rewrite E. apply last_in. }
  assert (Hnh : new <> head) by (intros E; apply Hnew; now left).
  split; [split; [|split]|].
  - change (head :: l ++ [new]) with ((head :: l) ++ [new]).
    apply NoDup_app; auto.
    + apply NoDup_cons; [intros []|constructor].
    + intros a Ha [<-|[]]. now apply Hnew.
  - apply (@walk_insert (fun a => next (m a))
             (fun a => next (list_add_tail new head m a)) head l [] head new).
    + now rewrite app_nil_r.
    + now rewrite app_nil_r.
    + now rewrite app_nil_r.
    + unfold list_add_tail. rewrite next_list_add, Hlast.
      now rewrite Z.eqb_refl.
    + unfold list_add_tail. rewrite next_list_add, Hlast.
      rewrite (eqb_neq_false Hne). now rewrite Z.eqb_refl.
    + intros c Hc1 Hc2. unfold list_add_tail. rewrite next_list_add, Hlast.
      now rewrite (eqb_neq_false Hc1), (eqb_neq_false Hc2).
  - rewrite rev_app_distr. cbn [rev app].
    apply (@walk_insert (fun a => prev (m a))
             (fun a => prev (list_add_tail new head m a)) head [] (rev l)
             head new).
    + cbn [app]. now apply NoDup_cons_rev.
    + cbn [app]. now apply not_in_cons_rev.
    + exact Hb.
    + cbn [last]. unfold list_add_tail. rewrite prev_list_add.
      rewrite (eqb_neq_false (not_eq_sym Hnh)). now rewrite Z.eqb_refl.
    + unfold list_add_tail. rewrite prev_list_add, Z.eqb_refl.
      now rewrite hd_rev.
    + cbn [last]. intros c Hc1 Hc2. unfold list_add_tail.
      rewrite prev_list_add.
      now rewrite (eqb_neq_false Hc2), (eqb_neq_false Hc1).
  - intros c Hc1 Hc2 Hc3. unfold list_add_tail, __list_add.
    unfold store_next, store_prev. rewrite Hlast.
    now rewrite (eqb_neq_false Hc1), (eqb_neq_false Hc2),
      (eqb_neq_false Hc3).
Qed.

(** X1. [list_add_tail] on a represented list whose entries do not include
    [new] gives the list with [new] appended, which is what
    [ListH.list_add_tail] computes; only the head, the old last entry and
    [new] are written. *)
Theorem list_add_tail_repr m head l new :
  repr m head l -> ~ In new (head :: l) ->
  repr (list_add_tail new head m) head (ListH.list_add_tail new l) /\
  (forall c, c <> head -> c <> new -> c <> last l head ->
             list_add_tail new head m c = m c).
Proof. exact (@list_add_tail_repr_core m head l new). Qed.

(** X2. [list_add] gives the list with [new] in front, which is what
    [ListH.list_add] computes. *)
Theorem list_add_repr m head l new :
  repr m head l -> ~ In new (head :: l) ->
  repr (list_add new head m) head (ListH.list_add new l).
Proof.
  intros Hr Hnew. pose proof (repr_ends Hr) as (_ & Hfirst).
  destruct Hr as (Hnd & Hf & Hb). unfold ListH.list_add.
  assert (Hne : new <> hd head l).
  { intros E. apply Hnew. rewrite E. apply hd_in. }
  assert (Hnh : new <> head) by (intros E; apply Hnew; now left).
  split; [|split].
  - apply NoDup_cons_iff in Hnd. destruct Hnd as (Hh & Hl).
    apply NoDup_cons; [|apply NoDup_cons; auto].
    + intros [E|Hin]; [now apply Hnh|now apply Hh].
    + intros Hin. apply Hnew. now right.
  - apply (@walk_insert (fun a => next (m a))
             (fun a => next (list_add new head m a)) head [] l head new);
      auto.
    + cbn [last]. unfold list_add. rewrite next_list_add.
      now rewrite Z.eqb_refl.
    + unfold list_add. rewrite next_list_add, Hfirst.
      rewrite (eqb_neq_false Hnh). now rewrite Z.eqb_refl.
    + cbn [last]. intros c Hc1 Hc2. unfold list_add. rewrite next_list_add.
      now rewrite (eqb_neq_false Hc1), (eqb_neq_false Hc2).
  - cbn [rev].
    apply (@walk_insert (fun a => prev (m a))
             (fun a => prev (list_add new head m a)) head (rev l) [] head new).
    + rewrite app_nil_r. now apply NoDup_cons_rev.
    + rewrite app_nil_r. now apply not_in_cons_rev.
    + now rewrite app_nil_r.
    + rewrite last_rev. unfold list_add. rewrite prev_list_add, Hfirst.
      rewrite (eqb_neq_false (not_eq_sym Hne)). now rewrite Z.eqb_refl.
    + unfold list_add. rewrite prev_list_add. now rewrite Z.eqb_refl.
    + rewrite last_rev. intros c Hc1 Hc2. unfold list_add.
      rewrite prev_list_add, Hfirst.
      now rewrite (eqb_neq_false Hc2), (eqb_neq_false Hc1).
Qed.

Lemma list_del_repr_core m head l1 e l2 :
  repr m head (l1 ++ e :: l2) ->
  repr (list_del e m) head (l1 ++ l2) /\
  next (list_del e m e) = LIST_POISON1 /\
  prev (list_del e m e) = LIST_POISON2.
Proof.
  intros Hr. pose proof (repr_neighbours _ _ _ Hr) as (Hp & Hn).
  destruct Hr as (Hnd & Hf & Hb).
  assert (Hnd' : NoDup ((head :: l1) ++ e :: l2)) by exact Hnd.
  assert (Hae : last l1 head <> e).
  { intros E. apply (@NoDup_app_disjoint (head :: l1) (e :: l2) e Hnd').
    - rewrite <- E. apply last_in.
    - now left. }
  assert (Hbe : hd head l2 <> e).
  { intros E. destruct l2 as [|y l2']; cbn in E.
    - apply (@NoDup_app_disjoint (head :: l1) [e] e Hnd').
      + rewrite <- E. now left.
      + now left.
    - subst y. apply NoDup_remove_2 in Hnd'. apply Hnd'.
      apply in_or_app. right. now left. }
  split; [split; [|split]|split].
  - now apply NoDup_remove_1 in Hnd'.
  - apply (@walk_delete (fun a => next (m a))
             (fun a => next (list_del e m a)) head l1 e l2 head); auto.
    + rewrite next_list_del, Hp, Hn.
      rewrite (eqb_neq_false Hae). now rewrite Z.eqb_refl.
    + intros c Hc1 Hc2. rewrite next_list_del, Hp.
      now rewrite (eqb_neq_false Hc2), (eqb_neq_false Hc1).
  - rewrite rev_app_distr.
    rewrite rev_app_distr in Hb. cbn [rev] in Hb.
    rewrite <- app_assoc in Hb. cbn [app] in Hb.
    apply (@walk_delete (fun a => prev (m a))
             (fun a => prev (list_del e m a)) head (rev l2) e (rev l1) head);
      auto.
    + assert (Hx : NoDup (head :: rev (l1 ++ e :: l2)))
        by now apply NoDup_cons_rev.
      rewrite rev_app_distr in Hx. cbn [rev] in Hx.
      now rewrite <- app_assoc in Hx.
    + rewrite last_rev, hd_rev, prev_list_del, Hp, Hn.
      rewrite (eqb_neq_false Hbe). now rewrite Z.eqb_refl.
    + rewrite last_rev. intros c Hc1 Hc2. rewrite prev_list_del, Hn.
      now rewrite (eqb_neq_false Hc2), (eqb_neq_false Hc1).
  - rewrite next_list_del. now rewrite Z.eqb_refl.
  - rewrite prev_list_del. now rewrite Z.eqb_refl.
Qed.

(** X3. [list_del] of an entry gives the list without it, and leaves the
    two poison values in the links of the entry. *)
Theorem list_del_repr m head l1 e l2 :
  repr m head (l1 ++ e :: l2) ->
  repr (list_del e m) head (l1 ++ l2) /\
  next (list_del e m e) = LIST_POISON1 /\
  prev (list_del e m e) = LIST_POISON2.
Proof. exact (@list_del_repr_core m head l1 e l2). Qed.

Lemma walk_last f l : forall x z, walk f x l z -> f (last l x) = z.
Proof.
  induction l as [|y l IH]; intros x z H; cbn [walk] in H; [exact H|].
  rewrite last_cons. apply IH. tauto.
Qed.

Lemma list_head_eq (a b : list_head) :
  next a = next b -> prev a = prev b -> a = b.
Proof. destruct a, b; cbn; congruence. Qed.

Lemma list_for_each_from_walk m head l : forall x fuel,
  walk (fun a => next (m a)) x l head -> ~ In head l ->
  (length l < fuel)%nat ->
  list_for_each_from fuel m (next (m x)) head = Some l.
Proof.
  induction l as [|y l IH]; intros x fuel Hw Hh Hfuel.
  - destruct fuel as [|k]; [inversion Hfuel|]. cbn in Hw |- *.
    rewrite Hw. now rewrite Z.eqb_refl.
  - destruct fuel as [|k]; [inversion Hfuel|]. cbn [walk] in Hw.
    destruct Hw as (Hx & Hw). cbn [list_for_each_from]. rewrite Hx.
    assert (Hy : y <> head) by (intros E; apply Hh; now left).
    rewrite (eqb_neq_false Hy).
    rewrite (IH y k); auto.
    + intros Hin. apply Hh. now right.
    + cbn in Hfuel. apply PeanoNat.lt_S_n. exact Hfuel.
Qed.

Lemma list_for_each_repr_core m head l fuel :
  repr m head l -> (length l < fuel)%nat ->
  list_for_each fuel m head = Some l.
Proof.
  intros (Hnd & Hf & _) Hfuel. unfold list_for_each.
  apply list_for_each_from_walk; auto.
  apply NoDup_cons_iff in Hnd. tauto.
Qed.

(** X4. [list_for_each] over a represented list visits exactly its entries,
    first to last, provided the loop test may run once more than there are
    entries. *)
Theorem list_for_each_repr m head l fuel :
  repr m head l -> (length l < fuel)%nat ->
  list_for_each fuel m head = Some l.
Proof. exact (@list_for_each_repr_core m head l fuel). Qed.

(** X5. Unlinking the entry [list_add_tail] has just linked puts every
    other [list_head] of the memory back as it was. *)
Theorem list_del_list_add_tail m head l new :
  repr m head l -> ~ In new (head :: l) ->
  forall c, c <> new -> list_del new (list_add_tail new head m) c = m c.
Proof.
  intros Hr Hnew c Hc. pose proof (repr_ends Hr) as (Hlast & _).
  destruct Hr as (Hnd & Hf & Hb).
  assert (Hne : new <> last l head).
  { intros E. apply Hnew. rewrite E. apply last_in. }
  assert (Hnh : new <> head) by (intros E; apply Hnew; now left).
  assert (Hp : prev (list_add_tail new head m new) = last l head).
  { unfold list_add_tail. rewrite prev_list_add, Hlast.
    now rewrite Z.eqb_refl. }
  assert (Hn : next (list_add_tail new head m new) = head).
  { unfold list_add_tail. rewrite next_list_add, Hlast.
    rewrite (eqb_neq_false Hne). now rewrite Z.eqb_refl. }
  apply list_head_eq.
  - rewrite next_list_del, Hp, Hn, (eqb_neq_false Hc).
    destruct (c =? last l head) eqn:E.
    + apply Z.eqb_eq in E. subst c. symmetry. now apply walk_last in Hf.
    + unfold list_add_tail. rewrite next_list_add, Hlast, E.
      now rewrite (eqb_neq_false Hc).
  - rewrite prev_list_del, Hp, Hn, (eqb_neq_false Hc).
    destruct (c =? head) eqn:E.
    + apply Z.eqb_eq in E. subst c. now symmetry.
    + unfold list_add_tail. rewrite prev_list_add.
      now rewrite (eqb_neq_false Hc), E.
Qed.

Lemma without_first_cons stop p l :
  without_first stop (p :: l) =
  if stop p then l else p :: without_first stop l.
Proof.
  unfold without_first. cbn [ListH.list_for_each_until].
  destruct (stop p); [reflexivity|].
  now destruct (ListH.list_for_each_until stop l) as [[[b q] a]|].
Qed.

Lemma list_for_each_safe_del_first_from stop head rest :
  forall done m fuel,
    repr m head (done ++ rest) -> (length rest < fuel)%nat ->
    exists m',
      list_for_each_safe_from fuel (del_first stop) m (hd head rest)
        (next (m (hd head rest))) head = Some m' /\
      repr m' head (done ++ without_first stop rest).
Proof.
  induction rest as [|p rest IH]; intros done m fuel Hr Hfuel.
  - destruct fuel as [|k]; [inversion Hfuel|]. exists m.
    cbn. rewrite Z.eqb_refl. auto.
  - destruct fuel as [|k]; [inversion Hfuel|].
    cbn [hd list_for_each_safe_from].
    assert (Hp : p <> head).
    { destruct Hr as (Hnd & _). apply NoDup_cons_iff in Hnd.
      intros E. apply (proj1 Hnd). rewrite <- E.
      apply in_or_app. right. now left. }
    rewrite (eqb_neq_false Hp). rewrite without_first_cons.
    unfold del_first at 1. destruct (stop p).
    + exists (list_del p m). split; [reflexivity|].
      now apply list_del_repr_core in Hr.
    + pose proof (repr_neighbours _ _ _ Hr) as (_ & Hn).
      rewrite Hn.
      destruct (IH (done ++ [p]) m k) as (m' & Hrun & Hrep).
      * now rewrite <- app_assoc.
      * cbn in Hfuel. now apply PeanoNat.lt_S_n.
      * exists m'. split; [exact Hrun|]. now rewrite <- app_assoc in Hrep.
Qed.

(** X6. The loop of [eb_encode_frame] that unlinks the first entry
    satisfying a test, run with [list_for_each_safe] and [list_del] on the
    links, ends and leaves the list the sequence-level loop computes:
    the entries before and after the first match. *)
Theorem list_for_each_safe_del_first stop m head l fuel :
  repr m head l -> (length l < fuel)%nat ->
  exists m',
    list_for_each_safe fuel (del_first stop) m head = Some m' /\
    repr m' head (without_first stop l).
Proof.
  intros Hr Hfuel. unfold list_for_each_safe.
  pose proof (repr_ends Hr) as (_ & Hfirst). rewrite Hfirst.
  apply (@list_for_each_safe_del_first_from stop head l [] m fuel); auto.
Qed.

Lemma list_del_frame e m c :
  c <> e -> c <> prev (m e) -> c <> next (m e) -> list_del e m c = m c.
Proof.
  intros H1 H2 H3. apply list_head_eq.
  - rewrite next_list_del. now rewrite (eqb_neq_false H1), (eqb_neq_false H2).
  - rewrite prev_list_del. now rewrite (eqb_neq_false H1), (eqb_neq_false H3).
Qed.

Lemma list_for_each_safe_del_each_from head rest :
  forall m fuel,
    repr m head rest -> (length rest < fuel)%nat ->
    exists m',
      list_for_each_safe_from fuel del_each m (hd head rest)
        (next (m (hd head rest))) head = Some m' /\
      repr m' head [] /\
      (forall e, In e rest ->
                 next (m' e) = LIST_POISON1 /\ prev (m' e) = LIST_POISON2) /\
      (forall c, ~ In c (head :: rest) -> m' c = m c).
Proof.
  induction rest as [|p rest IH]; intros m fuel Hr Hfuel.
  - destruct fuel as [|k]; [inversion Hfuel|]. exists m.
    cbn [hd list_for_each_safe_from]. rewrite Z.eqb_refl.
    split; [reflexivity|]. split; [exact Hr|]. split; [intros e []|auto].
  - destruct fuel as [|k]; [inversion Hfuel|].
    cbn [hd list_for_each_safe_from].
    pose proof Hr as (Hnd & _).
    assert (Hp : p <> head).
    { apply NoDup_cons_iff in Hnd. intros E. apply (proj1 Hnd).
      rewrite <- E. now left. }
    rewrite (eqb_neq_false Hp). unfold del_each at 1.
    pose proof (@repr_neighbours m head [] p rest Hr) as (Hpp & Hn).
    cbn [last] in Hpp.
    pose proof (@list_del_repr_core m head [] p rest Hr) as (Hr1 & Hp1 & Hp2).
    cbn [app] in Hr1.
    assert (Hnext : next (list_del p m (hd head rest)) =
                    next (list_del p m (hd head rest))) by reflexivity.
    rewrite Hn.
    destruct (IH (list_del p m) k Hr1) as (m' & Hrun & Hrep & Hpois & Hframe).
    { cbn in Hfuel. now apply PeanoNat.lt_S_n. }
    exists m'. split; [exact Hrun|]. split; [exact Hrep|]. split.
    + intros e [<-|He]; [|now apply Hpois].
      rewrite Hframe; [auto|].
      apply NoDup_cons_iff in Hnd. destruct Hnd as (Hh & Hnd).
      apply NoDup_cons_iff in Hnd. destruct Hnd as (Hpr & _).
      intros [E|Hin]; [now apply Hp|now apply Hpr].
    + intros c Hc. rewrite Hframe.
      * apply list_del_frame.
        -- intros ->. apply Hc. right. now left.
        -- rewrite Hpp. intros ->. apply Hc. now left.
        -- rewrite Hn. intros ->. apply Hc.
           destruct (hd_in rest head) as [E|Hin]; [left; exact E|].
           right. now right.
      * intros [E|Hin]; apply Hc; [now left|right; now right].
Qed.

(** X7. [list_for_each_safe] with a body that unlinks every entry it is run
    at ends with the empty list, every former entry poisoned and the rest
    of the memory untouched. *)
Theorem list_for_each_safe_del_each m head l fuel :
  repr m head l -> (length l < fuel)%nat ->
  exists m',
    list_for_each_safe fuel del_each m head = Some m' /\
    repr m' head [] /\
    (forall e, In e l ->
               next (m' e) = LIST_POISON1 /\ prev (m' e) = LIST_POISON2) /\
    (forall c, ~ In c (head :: l) -> m' c = m c).
Proof.
  intros Hr Hfuel. unfold list_for_each_safe.
  pose proof (repr_ends Hr) as (_ & Hfirst). rewrite Hfirst.
  now apply list_for_each_safe_del_each_from.
Qed.

Lemma INIT_LIST_HEAD_repr m head : repr (INIT_LIST_HEAD head m) head [].
Proof.
  unfold repr, INIT_LIST_HEAD. cbn [walk rev].
  rewrite next_store_prev, next_store_next, prev_store_prev, Z.eqb_refl.
  repeat split; auto. apply NoDup_cons; [intros []|constructor].
Qed.

Lemma fold_list_add_tail_repr head l : forall l0 m,
  repr m head l0 -> NoDup (head :: l0 ++ l) ->
  repr (fold_left (fun m x => list_add_tail x head m) l m) head (l0 ++ l).
Proof.
  induction l as [|x l IH]; intros l0 m Hr Hnd.
  - now rewrite app_nil_r.
  - cbn [fold_left].
    replace (l0 ++ x :: l) with ((l0 ++ [x]) ++ l) in *
      by (now rewrite <- app_assoc).
    apply IH; auto.
    apply list_add_tail_repr_core; auto.
    change (head :: (l0 ++ [x]) ++ l) with ((head :: l0 ++ [x]) ++ l) in Hnd.
    apply NoDup_app_remove_r in Hnd.
    change (head :: l0 ++ [x]) with ((head :: l0) ++ [x]) in Hnd.
    apply NoDup_remove_2 in Hnd. now rewrite app_nil_r in Hnd.
Qed.

(** X8. First in, first out: after [INIT_LIST_HEAD] and one
    [list_add_tail] per entry, whatever the memory held before, the list
    holds the entries in the order they were added and [list_for_each]
    visits them in that order. *)
Theorem add_all_fifo m head l :
  NoDup (head :: l) ->
  repr (add_all head l m) head l /\
  list_for_each (S (length l)) (add_all head l m) head = Some l.
Proof.
  intros Hnd.
  assert (Hr : repr (add_all head l m) head l).
  { unfold add_all.
    apply (@fold_list_add_tail_repr head l [] (INIT_LIST_HEAD head m)); auto.
    apply INIT_LIST_HEAD_repr. }
  split; [exact Hr|]. apply list_for_each_repr_core; auto.
Qed.

End ListMemFacts.

(** * error_mapping, config_enc_params and eb_enc_init *)

(** X9. [error_mapping] gives 0 for [EB_ErrorNone] only; every other
    status, [EB_NoErrorEmptyQueue] included, gives a negative code. *)
Theorem error_mapping_zero_only_for_none svt_ret :
  (error_mapping svt_ret =? 0) = Init.is_error_none svt_ret /\
  error_mapping svt_ret <= 0.
Proof. destruct svt_ret; split; cbn; try reflexivity; discriminate. Qed.

Lemma error_mapping_negative svt_ret :
  Init.is_error_none svt_ret = false -> error_mapping svt_ret < 0.
Proof. destruct svt_ret; cbn; try discriminate; reflexivity. Qed.

Lemma forced_profile_cases color depth p :
  p <> Config.FF_PROFILE_HEVC_MAIN_STILL_PICTURE ->
  let p' := Config.forced_profile color depth p in
  p' <> Config.FF_PROFILE_HEVC_MAIN_STILL_PICTURE /\
  (2 <= Config.color_rank color -> p' = Config.FF_PROFILE_HEVC_REXT) /\
  (8 < depth -> p' <> Config.FF_PROFILE_HEVC_MAIN) /\
  (Config.color_rank color < 2 -> depth <= 8 -> p' = p).
Proof.
  intros Hp. unfold Config.forced_profile.
  change (Config.color_rank EB_YUV422) with 2.
  unfold Config.FF_PROFILE_HEVC_MAIN_STILL_PICTURE,
    Config.FF_PROFILE_HEVC_REXT, Config.FF_PROFILE_HEVC_MAIN_10,
    Config.FF_PROFILE_HEVC_MAIN in *.
  cbv zeta.
  destruct (Z.leb_spec 2 (Config.color_rank color));
    destruct (Z.eqb_spec p 4); destruct (Z.ltb_spec 8 depth);
    cbn [andb negb];
    repeat match goal with
           | |- context [1 =? ?q] => destruct (Z.eqb_spec 1 q)
           end;
    cbn [andb]; repeat split; intros; lia.
Qed.

Lemma to_uint32_mul_idem x y :
  Int.to_uint32 (Int.to_uint32 x * Int.to_uint32 y) = Int.to_uint32 (x * y).
Proof. unfold Int.to_uint32. now rewrite <- Zmult_mod. Qed.

(** X10. [config_enc_params] fails, with [EB_ErrorBadParameter], exactly
    when the profile option is Main Still Picture.  When it succeeds the
    bit depth is 8 or 10, the profile it leaves is never Main Still
    Picture, is Range Extension for 4:2:2 and 4:4:4 input, is not Main for
    10-bit input, and for 8-bit 4:2:0 input is the option as converted to
    the unsigned field: the option itself when it is not negative. *)
Theorem config_enc_params_profile param avctx svt_enc :
  fst (Config.config_enc_params param avctx svt_enc) = EB_ErrorNone ->
  let p := snd (Config.config_enc_params param avctx svt_enc) in
  Opt.profile svt_enc <> Config.FF_PROFILE_HEVC_MAIN_STILL_PICTURE /\
  (Config.encoderBitDepth p = 8 \/ Config.encoderBitDepth p = 10) /\
  Config.profile p <> Config.FF_PROFILE_HEVC_MAIN_STILL_PICTURE /\
  (2 <= Config.color_rank (Config.encoderColorFormat p) ->
   Config.profile p = Config.FF_PROFILE_HEVC_REXT) /\
  (Config.encoderBitDepth p = 10 ->
   Config.profile p <> Config.FF_PROFILE_HEVC_MAIN) /\
  (Config.encoderColorFormat p = EB_YUV420 -> Config.encoderBitDepth p = 8 ->
   Config.profile p = Int.to_uint32 (Opt.profile svt_enc) /\
   (0 <= Opt.profile svt_enc < 2 ^ 32 ->
    Config.profile p = Opt.profile svt_enc)).
Proof.
  unfold Config.config_enc_params. cbn [Config.with_source Config.profile].
  destruct (Config.FF_PROFILE_HEVC_MAIN_STILL_PICTURE
            =? Int.to_uint32 (Opt.profile svt_enc))
    eqn:Es; cbn [fst snd]; [discriminate|]. intros _.
  apply Z.eqb_neq in Es.
  assert (Hp : Int.to_uint32 (Opt.profile svt_enc)
               <> Config.FF_PROFILE_HEVC_MAIN_STILL_PICTURE) by congruence.
  assert (Hopt : Opt.profile svt_enc
                 <> Config.FF_PROFILE_HEVC_MAIN_STILL_PICTURE).
  { intros E. apply Hp. rewrite E. reflexivity. }
  cbn [Config.profile Config.encoderBitDepth Config.encoderColorFormat].
  destruct (forced_profile_cases
              (Config.color_format_of (Config.pix_fmt avctx))
              (Config.bit_depth_of (Config.pix_fmt avctx)) Hp)
    as (H1 & H2 & H3 & H4).
  cbn [Config.profile Config.encoderBitDepth Config.encoderColorFormat
       Config.with_source].
  split; [exact Hopt|]. split.
  { destruct (Config.pix_fmt avctx); cbn; auto. }
  split; [exact H1|]. split; [exact H2|]. split.
  - intros E. apply H3. rewrite E. reflexivity.
  - intros Ec Ed.
    assert (H5 : Config.forced_profile
                   (Config.color_format_of (Config.pix_fmt avctx))
                   (Config.bit_depth_of (Config.pix_fmt avctx))
                   (Int.to_uint32 (Opt.profile svt_enc))
                 = Int.to_uint32 (Opt.profile svt_enc))
      by (apply H4; rewrite ?Ec, ?Ed; cbn; lia).
    split; [exact H5|].
    intros Hr. rewrite H5. now apply to_uint32_small.
Qed.

Lemma config_enc_params_status param avctx svt_enc :
  fst (Config.config_enc_params param avctx svt_enc) =
  if Config.FF_PROFILE_HEVC_MAIN_STILL_PICTURE
     =? Int.to_uint32 (Opt.profile svt_enc)
  then EB_ErrorBadParameter else EB_ErrorNone.
Proof.
  unfold Config.config_enc_params. cbn [Config.with_source Config.profile].
  now destruct (Config.FF_PROFILE_HEVC_MAIN_STILL_PICTURE
                =? Int.to_uint32 (Opt.profile svt_enc)).
Qed.

Lemma config_read_view param avctx svt_enc :
  Config.read_view (snd (Config.config_enc_params param avctx svt_enc)) =
  {| sourceWidth := Int.to_uint32 (Config.width avctx);
     sourceHeight := Int.to_uint32 (Config.height avctx);
     encoderBitDepth := Config.bit_depth_of (Config.pix_fmt avctx);
     encoderColorFormat := Config.color_format_of (Config.pix_fmt avctx) |}.
Proof.
  unfold Config.config_enc_params. cbn [Config.with_source Config.profile].
  destruct (Config.FF_PROFILE_HEVC_MAIN_STILL_PICTURE
            =? Int.to_uint32 (Opt.profile svt_enc));
    reflexivity.
Qed.

(** X11. What [read_in_data] makes of the configuration
    [config_enc_params] leaves (whether it succeeds or fails): samples are
    taken as 16-bit exactly for the three 10-bit pixel formats, and the
    size added per frame is width times height modulo 2^32, doubled for
    those formats, times 1 for 4:2:0, 2 for 4:2:2 and 3 for every other
    format. *)
Theorem config_then_frame_size param avctx svt_enc :
  let c := Config.read_view
             (snd (Config.config_enc_params param avctx svt_enc)) in
  is16bit_of c =
    (if Config.bit_depth_of (Config.pix_fmt avctx) =? 10 then 1 else 0) /\
  frame_size_of c =
    Int.to_uint32 (Config.width avctx * Config.height avctx)
    * (if Config.bit_depth_of (Config.pix_fmt avctx) =? 10 then 2 else 1)
    * match Config.color_format_of (Config.pix_fmt avctx) with
      | EB_YUV420 => 1
      | EB_YUV422 => 2
      | _ => 3
      end.
Proof.
  cbv zeta. rewrite config_read_view.
  unfold frame_size_of, is16bit_of.
  cbn [encoderBitDepth sourceWidth sourceHeight encoderColorFormat].
  rewrite to_uint32_mul_idem.
  pose proof (to_uint32_range (Config.width avctx * Config.height avctx)) as Hr.
  set (x := Int.to_uint32 (Config.width avctx * Config.height avctx)) in *.
  change (3 / 2) with 1.
  destruct (Config.pix_fmt avctx);
    cbn [Config.bit_depth_of Config.color_format_of EB_COLOR_FORMAT_eqb];
    change (8 <? 8) with false; change (8 <? 10) with true;
    change (8 =? 10) with false; change (10 =? 10) with true; cbv iota;
    rewrite ?Z.shiftl_0_r;
    rewrite ?(@Z.shiftl_mul_pow2 x 1) by lia; change (2 ^ 1) with 2;
    (split; [reflexivity|]);
    rewrite ?(@to_uint64_small x), ?(@to_uint64_small (x * 2)) by lia;
    rewrite ?(@to_uint64_small (x * 1)), ?(@to_uint64_small (x * 2)),
      ?(@to_uint64_small (x * 3)), ?(@to_uint64_small (x * 2 * 1)),
      ?(@to_uint64_small (x * 2 * 2)), ?(@to_uint64_small (x * 2 * 3)) by lia;
    lia.
Qed.

(** The paths through [eb_enc_init], one goal each. *)
Ltac init_paths env avctx svt_enc :=
  unfold Init.eb_enc_init, Init.init_extradata, Init.init_buffers,
    Init.failed_init_encoder, Init.failed_init_handle, Init.alloc_buffer,
    Init.all_ok, Init.encoder_started;
  cbv zeta;
  pose proof (config_enc_params_status (Init.default_params env) avctx svt_enc)
    as Hstatus;
  cbn [Init.i_params Init.with_params Init.with_svt] in *;
  destruct (Config.config_enc_params (Init.default_params env) avctx svt_enc)
    as [cret param] eqn:Hconfig;
  cbn [fst] in Hstatus;
  destruct (Init.is_error_none (Init.init_handle_ret env)) eqn:Hih;
  cbn [negb andb];
  [ destruct (Config.FF_PROFILE_HEVC_MAIN_STILL_PICTURE
              =? Int.to_uint32 (Opt.profile svt_enc)) eqn:Hprof;
    subst cret; cbn [Init.is_error_none negb andb];
    [ | destruct (Init.is_error_none (Init.set_parameter_ret env)) eqn:Hsp;
        cbn [negb andb];
        [ destruct (Init.is_error_none (Init.init_encoder_ret env)) eqn:Hie;
          cbn [negb andb];
          [ destruct (Config.global_header avctx) eqn:Hgh;
            [ destruct (Init.is_error_none (Init.stream_header_ret env))
                eqn:Hsh; cbn [negb andb];
              [ destruct (Init.stream_header env) as [header_ptr|] eqn:Hhdr;
                [ destruct (Init.extradata_ok env) eqn:Hex; cbn [negb andb];
                  [ destruct (Int.to_int32 (nFilledLen header_ptr) <? 0)
                      eqn:Hneg;
                    [ | destruct (memcpy_from (pBuffer header_ptr)
                                    (Int.to_int32 (nFilledLen header_ptr)))
                          as [bytes|] eqn:Hcpy;
                        [ destruct (Init.in_data_ok env) eqn:Hin;
                          cbn [Init.is_error_none negb andb]
                        | ] ]
                  | ]
                | ]
              | ]
            | destruct (Init.in_data_ok env) eqn:Hin;
              cbn [Init.is_error_none negb andb] ]
          | ]
        | ] ]
  | ].

Lemma eb_enc_init_success_core env avctx svt_enc sizeof_in_buf st0 ret st tr :
  Init.eb_enc_init env avctx svt_enc sizeof_in_buf st0
  = Init.InitDone ret st tr ->
  (ret =? 0) = Init.all_ok env avctx svt_enc /\
  (ret = 0 ->
   Init.i_params st
   = snd (Config.config_enc_params (Init.default_params env) avctx svt_enc) /\
   Init.i_svt st
   = {| enc_params := Config.read_view (Init.i_params st);
        svt_handle := Init.init_handle env;
        in_buf := alloc_buffer sizeof_in_buf;
        eos_flag := EOS_NOT_REACHED;
        metadata_list := [] |} /\
   (forall handle, Init.init_handle env = Some handle ->
      Init.i_svt st
      = eb_enc_init (Config.read_view (Init.i_params st)) handle
                    sizeof_in_buf) /\
   Init.count Init.is_deinit_handle tr = 0%nat /\
   Init.count Init.is_deinit_encoder tr = 0%nat).
Proof.
  init_paths env avctx svt_enc;
    intros H; try discriminate; inversion H; subst; clear H;
    (split;
     [ try reflexivity;
       match goal with
       | |- (error_mapping ?e =? 0) = false =>
           apply Z.eqb_neq;
           assert (Hx : error_mapping e < 0)
             by (apply error_mapping_negative; assumption || reflexivity);
           lia
       end
     | intros E;
       try discriminate E;
       try (exfalso;
            match type of E with
            | error_mapping ?e = 0 =>
                assert (Hx : error_mapping e < 0)
                  by (apply error_mapping_negative;
                      assumption || reflexivity);
                lia
            end);
       cbn [Init.i_params Init.i_svt Init.with_svt Init.with_params snd];
       cbn [set_metadata_list set_in_buf set_svt_handle set_eos_flag
            enc_params svt_handle in_buf eos_flag metadata_list];
       (split; [reflexivity|]); (split; [reflexivity|]);
       (split; [intros handle Hh; rewrite Hh; reflexivity|]);
       split; reflexivity ]).
Qed.

(** X12. [eb_enc_init] returns 0 exactly when every step went well.  It
    then leaves the flush state [EOS_NOT_REACHED], an empty metadata list,
    the input buffer of [alloc_buffer], the handle [EbInitHandle] stored
    and the parameters [config_enc_params] made of the library's defaults,
    and it has shut nothing down: the context is the one the sequences of
    calls above start from. *)
Theorem eb_enc_init_success env avctx svt_enc sizeof_in_buf st0 ret st tr :
  Init.eb_enc_init env avctx svt_enc sizeof_in_buf st0
  = Init.InitDone ret st tr ->
  (ret =? 0) = Init.all_ok env avctx svt_enc /\
  (ret = 0 ->
   Init.i_params st
   = snd (Config.config_enc_params (Init.default_params env) avctx svt_enc) /\
   Init.i_svt st
   = {| enc_params := Config.read_view (Init.i_params st);
        svt_handle := Init.init_handle env;
        in_buf := alloc_buffer sizeof_in_buf;
        eos_flag := EOS_NOT_REACHED;
        metadata_list := [] |} /\
   (forall handle, Init.init_handle env = Some handle ->
      Init.i_svt st
      = eb_enc_init (Config.read_view (Init.i_params st)) handle
                    sizeof_in_buf) /\
   Init.count Init.is_deinit_handle tr = 0%nat /\
   Init.count Init.is_deinit_encoder tr = 0%nat).
Proof.
  exact (@eb_enc_init_success_core env avctx svt_enc sizeof_in_buf st0 ret st
           tr).
Qed.

Lemma eb_enc_init_failure_cleanup_core env avctx svt_enc sizeof_in_buf st0
    ret st tr :
  Init.eb_enc_init env avctx svt_enc sizeof_in_buf st0
  = Init.InitDone ret st tr ->
  ret <> 0 ->
  ret < 0 /\
  if Init.is_error_none (Init.init_handle_ret env) then
    svt_handle (Init.i_svt st) = None /\
    Init.count Init.is_deinit_handle tr = 1%nat /\
    last tr Init.IEvInitHandle = Init.IEvDeinitHandle /\
    Init.count Init.is_deinit_encoder tr
    = (if Init.encoder_started env svt_enc then 1%nat else 0%nat) /\
    (Init.encoder_started env svt_enc = true ->
     exists pre, tr = pre ++ [Init.IEvDeinitEncoder; Init.IEvDeinitHandle])
  else
    tr = [Init.IEvInitHandle] /\
    svt_handle (Init.i_svt st) = Init.init_handle env /\
    ret = error_mapping (Init.init_handle_ret env).
Proof.
  init_paths env avctx svt_enc;
    intros H; try discriminate; inversion H; subst; clear H;
    intros Hne; try (exfalso; apply Hne; reflexivity).
  all: split;
    [ try reflexivity; apply error_mapping_negative;
      assumption || reflexivity | ].
  all: cbn [Init.i_svt Init.with_svt Init.with_params set_svt_handle
            set_in_buf svt_handle app].
  all: try (split; [reflexivity|]; split; reflexivity).
  all: (split; [reflexivity|]); (split; [reflexivity|]);
    (split; [reflexivity|]); (split; [reflexivity|]);
    intros E; try discriminate E;
    match goal with
    | |- exists pre, ?l = pre ++ _ =>
        exists (removelast (removelast l)); reflexivity
    end.
Qed.

(** X13. When [eb_enc_init] fails it returns a negative code.  If
    [EbInitHandle] itself failed nothing else was called and nothing is shut
    down.  Otherwise the handle is shut down exactly once, as the last
    call, and left null; the encoder is shut down, just before, exactly
    when [EbInitEncoder] had succeeded. *)
Theorem eb_enc_init_failure_cleanup env avctx svt_enc sizeof_in_buf st0
    ret st tr :
  Init.eb_enc_init env avctx svt_enc sizeof_in_buf st0
  = Init.InitDone ret st tr ->
  ret <> 0 ->
  ret < 0 /\
  if Init.is_error_none (Init.init_handle_ret env) then
    svt_handle (Init.i_svt st) = None /\
    Init.count Init.is_deinit_handle tr = 1%nat /\
    last tr Init.IEvInitHandle = Init.IEvDeinitHandle /\
    Init.count Init.is_deinit_encoder tr
    = (if Init.encoder_started env svt_enc then 1%nat else 0%nat) /\
    (Init.encoder_started env svt_enc = true ->
     exists pre, tr = pre ++ [Init.IEvDeinitEncoder; Init.IEvDeinitHandle])
  else
    tr = [Init.IEvInitHandle] /\
    svt_handle (Init.i_svt st) = Init.init_handle env /\
    ret = error_mapping (Init.init_handle_ret env).
Proof.
  exact (@eb_enc_init_failure_cleanup_core env avctx svt_enc sizeof_in_buf
           st0 ret st tr).
Qed.

Lemma eb_enc_close_null_handle st :
  svt_handle st = None ->
  eb_enc_close st = Done 0 st [EvFreeInData (pBuffer (in_buf st))].
Proof.
  intros H. unfold eb_enc_close, free_buffer. unfold_m. cbn. now rewrite H.
Qed.

(** X14. [eb_enc_close] after an [eb_enc_init] that failed past
    [EbInitHandle] shuts nothing down a second time: it only hands
    [in_buf.pBuffer] to [av_freep], and that pointer is null or what the
    context held before [eb_enc_init], no allocation of the failed call. *)
Theorem eb_enc_close_after_failed_init env avctx svt_enc sizeof_in_buf st0
    ret st tr :
  Init.eb_enc_init env avctx svt_enc sizeof_in_buf st0
  = Init.InitDone ret st tr ->
  ret <> 0 ->
  Init.is_error_none (Init.init_handle_ret env) = true ->
  eb_enc_close (Init.i_svt st)
  = Done 0 (Init.i_svt st) [EvFreeInData (pBuffer (in_buf (Init.i_svt st)))] /\
  (pBuffer (in_buf (Init.i_svt st)) = NullBuf \/
   pBuffer (in_buf (Init.i_svt st)) = pBuffer (in_buf (Init.i_svt st0))).
Proof.
  intros H Hne Hih. split.
  - apply eb_enc_close_null_handle.
    pose proof (eb_enc_init_failure_cleanup_core _ _ _ _ _ H Hne) as (_ & Hc).
    rewrite Hih in Hc. tauto.
  - revert H Hne. clear Hih.
    init_paths env avctx svt_enc;
      intros H; try discriminate; inversion H; subst; clear H;
      intros Hne; try (exfalso; apply Hne; reflexivity);
      cbn; auto.
Qed.

(** X15. After a successful [eb_enc_init] the rate control mode in force is
    the [rc] option, but [qmax] and [qmin] of the codec context were taken
    over only if the mode [EbInitHandle] had stored was non-zero: the test
    comes before the option is copied.  All three are stored converted to
    the unsigned fields, so a [qmax] of -1 is held as 4294967295. *)
Theorem eb_enc_init_qp_bounds env avctx svt_enc sizeof_in_buf st0 st tr :
  Init.eb_enc_init env avctx svt_enc sizeof_in_buf st0
  = Init.InitDone 0 st tr ->
  Config.rateControlMode (Init.i_params st)
  = Int.to_uint32 (Opt.rc_mode svt_enc) /\
  Config.maxQpAllowed (Init.i_params st)
  = (if Config.rateControlMode (Init.default_params env) =? 0
     then Config.maxQpAllowed (Init.default_params env)
     else Int.to_uint32 (Config.qmax avctx)) /\
  Config.minQpAllowed (Init.i_params st)
  = (if Config.rateControlMode (Init.default_params env) =? 0
     then Config.minQpAllowed (Init.default_params env)
     else Int.to_uint32 (Config.qmin avctx)).
Proof.
  intros H. pose proof (eb_enc_init_success_core _ _ _ _ _ H) as (Hok & Hst).
  destruct (Hst eq_refl) as (Hp & _). rewrite Hp.
  assert (Hprof : (Config.FF_PROFILE_HEVC_MAIN_STILL_PICTURE
                   =? Int.to_uint32 (Opt.profile svt_enc)) = false).
  { symmetry in Hok. cbn in Hok. unfold Init.all_ok in Hok.
    destruct (Config.FF_PROFILE_HEVC_MAIN_STILL_PICTURE
              =? Int.to_uint32 (Opt.profile svt_enc)); [|reflexivity].
    rewrite andb_false_r in Hok. discriminate. }
  unfold Config.config_enc_params.
  cbn [Config.with_source Config.profile]. rewrite Hprof.
  cbn [snd Config.rateControlMode Config.maxQpAllowed Config.minQpAllowed].
  destruct (Config.rateControlMode (Init.default_params env) =? 0); auto.
Qed.

(** X16. [eb_enc_close] shuts the encoder down at most once however often
    it is called, but leaves [in_buf.pBuffer] as it is: a second call hands
    the same pointer to [av_freep] again. *)
Theorem eb_enc_close_twice st :
  exists st1 tr1,
    eb_enc_close st = Done 0 st1 tr1 /\
    hd EvDeinitHandle tr1 = EvFreeInData (pBuffer (in_buf st)) /\
    eb_enc_close st1
    = Done 0 st1 [EvFreeInData (pBuffer (in_buf st))].
Proof.
  destruct (eb_enc_close_total st) as (st1 & tr1 & H & _ & Hb & ->).
  exists st1. eexists. split; [exact H|]. split; [reflexivity|].
  rewrite <- Hb. apply eb_enc_close_null_handle.
  revert H. unfold eb_enc_close, free_buffer. unfold_m. cbn.
  destruct (svt_handle st) eqn:E; cbn; intros H; inversion H; subst; auto.
Qed.

(** * eb_encode_frame: crashes, return values, edge cases *)

Section MoreFacts.

Variable AVDictionary : Type.
Variable pack : AVDictionary -> option (list byte) * Z.

Lemma read_in_data_some config (f : AVFrame AVDictionary) header :
  (exists d, pBuffer header = InData d) <->
  (exists h, read_in_data config f header = Some h).
Proof.
  unfold read_in_data. destruct (pBuffer header); split;
    intros (x & H); try discriminate; eauto.
Qed.

Lemma read_in_data_pBuffer config (f : AVFrame AVDictionary) header h :
  read_in_data config f header = Some h -> exists d, pBuffer h = InData d.
Proof.
  unfold read_in_data. destruct (pBuffer header); try discriminate.
  intros H; inversion H; subst. cbn. eauto.
Qed.

Lemma submit_in_buf_inv env (frame : option (AVFrame AVDictionary))
    st b st1 tr :
  in_buf_inv st -> eos_flag st <> EOS_RECEIVED ->
  submit pack env frame st = Done b st1 tr ->
  in_buf_inv st1 /\ eos_flag st1 <> EOS_RECEIVED.
Proof.
  intros Hinv Hne H. destruct frame as [f|].
  - apply submit_frame_inv in H.
    destruct H as (h & Hr & He & Hb & _). unfold in_buf_inv in *.
    rewrite He. split; [|exact Hne].
    assert (Hsrc : exists d0, pBuffer (in_buf st) = InData d0).
    { apply (read_in_data_some (enc_params st) f). eauto. }
    apply read_in_data_pBuffer in Hr. destruct Hr as (d & Hd).
    assert (Hd' : pBuffer (in_buf st1) = InData d) by (rewrite Hb; exact Hd).
    destruct (eos_flag st) eqn:E; eauto.
    destruct Hsrc as (d0 & Hx). rewrite Hinv in Hx. discriminate.
  - rewrite submit_eos in H. unfold in_buf_inv in *.
    destruct (eos_flag st) eqn:E; inversion H; subst; cbn;
      rewrite ?E; auto; split; auto; discriminate.
Qed.

Lemma fetch_packet_in_buf_inv env pkt got st r st' tr :
  in_buf_inv st -> fetch_packet env pkt got st = Done r st' tr ->
  in_buf_inv st'.
Proof.
  intros Hinv H. pose proof H as H2. apply fetch_packet_flush in H2.
  destruct H2 as (He & _).
  apply fetch_packet_frame in H. destruct H as (Hb & _).
  unfold in_buf_inv in *. rewrite He, Hb.
  destruct (carries_eos env); auto.
Qed.

Lemma call_in_buf_inv (c : Call AVDictionary) st r st' tr :
  in_buf_inv st -> call pack c st = Done r st' tr -> in_buf_inv st'.
Proof.
  intros Hinv H. unfold call in H. apply eb_encode_frame_inv in H.
  destruct H as [(_ & _ & -> & _)|(Hne & b & st1 & tr1 & Hs & H)]; auto.
  destruct (@submit_in_buf_inv _ _ _ _ _ _ Hinv Hne Hs) as (Hinv1 & _).
  destruct H as [(_ & _ & -> & _)|(_ & tr2 & Hf & _)]; auto.
  eapply fetch_packet_in_buf_inv; eauto.
Qed.

Lemma run_in_buf_inv (cs : list (Call AVDictionary)) : forall st rs st' tr,
  in_buf_inv st -> run pack cs st = Done rs st' tr -> in_buf_inv st'.
Proof.
  induction cs as [|c cs IH]; intros st rs st' tr Hinv H.
  - inversion H; subst; auto.
  - apply run_cons_inv in H.
    destruct H as (r & st1 & tr1 & rs' & tr2 & Hc & Hr & _).
    eapply IH; [|exact Hr]. eapply call_in_buf_inv; eauto.
Qed.

Lemma reachable_in_buf_inv st : reachable pack st -> in_buf_inv st.
Proof.
  intros (params & handle & sz & cs & rs & tr & H).
  eapply run_in_buf_inv; [|exact H]. cbn. eauto.
Qed.

(** X17. In every reachable context whose flush state is [EOS_SENT],
    [in_buf.pBuffer] is null, so a call with a frame crashes in
    [read_in_data] before anything reaches the encoder. *)
Theorem frame_after_eos_crashes env pkt (f : AVFrame AVDictionary) got st :
  reachable pack st -> eos_flag st = EOS_SENT ->
  pBuffer (in_buf st) = NullBuf /\
  eb_encode_frame pack env pkt (Some f) got st = Crash [].
Proof.
  intros Hr He. apply reachable_in_buf_inv in Hr.
  unfold in_buf_inv in Hr. rewrite He in Hr. split; [exact Hr|].
  unfold eb_encode_frame, submit, read_in_data. unfold_m. cbn.
  now rewrite He, Hr.
Qed.




(** X19. A call never returns a status of the encoder: what it returns is
    0 or, when the packet could not be allocated, the non-zero status of
    [ff_alloc_packet2]; in that case [*got_packet] and the packet are the
    caller's. *)
Theorem eb_encode_frame_return_value env pkt
    (frame : option (AVFrame AVDictionary)) got st r st' tr :
  eb_encode_frame pack env pkt frame got st = Done r st' tr ->
  ret_val r = 0 \/
  (ret_val r = alloc_ret env /\ alloc_ret env <> 0 /\
   get_ret env <> EB_NoErrorEmptyQueue /\
   ret_got_packet r = got /\ ret_pkt r = pkt).
Proof.
  intros H. apply eb_encode_frame_inv in H.
  destruct H as [(_ & -> & _)|(_ & b & st1 & tr1 & _ & H)]; [now left|].
  destruct H as [(_ & -> & _)|(_ & tr2 & Hf & _)]; [now left|].
  apply fetch_packet_inv in Hf.
  destruct Hf as [(_ & -> & _)
                 |[(He & h & _ & Ha & -> & _)
                  |(_ & h & bytes & pkt1 & pkt2 & st2 & t1 & t2 & _ & _ & _
                    & _ & _ & -> & _)]]; cbn; [now left| |now left].
  right. repeat split; auto.
Qed.

(** X20. A frame that carries a dictionary and whose timestamp is already
    in the metadata list is still sent to the encoder, but the call then
    returns 0 at once: the encoder is not polled, [*got_packet] is left as
    the caller passed it, and only the input buffer has changed. *)
Theorem duplicate_timestamp_skips_retrieval env pkt (f : AVFrame AVDictionary)
    d got st p h :
  eos_flag st <> EOS_RECEIVED ->
  frame_metadata f = Some d ->
  In p (metadata_list st) -> md_pts p = frame_pts f ->
  read_in_data (enc_params st) f (in_buf st) = Some h ->
  eb_encode_frame pack env pkt (Some f) got st
  = Done {| ret_val := 0; ret_pkt := pkt; ret_got_packet := got |}
         (set_in_buf (set_pts (frame_pts f) h) st)
         [EvSendPicture (set_pts (frame_pts f) h)].
Proof.
  intros Hne Hm Hin Hp Hr.
  destruct (ListH.list_for_each_until (same_pts (frame_pts f))
              (metadata_list st)) as [x|] eqn:Hx.
  - unfold eb_encode_frame, submit. unfold_m.
    destruct (eos_flag st) eqn:Ee; try congruence;
      cbn -[read_in_data ListH.list_for_each_until];
      rewrite Hr; cbn -[read_in_data ListH.list_for_each_until];
      rewrite Hm, Hx; reflexivity.
  - exfalso. apply list_for_each_until_None in Hx.
    rewrite Forall_forall in Hx. specialize (Hx p Hin).
    unfold same_pts in Hx. apply Z.eqb_neq in Hx. congruence.
Qed.

(** X21. An entry stored without payload (the dictionary packed to a null
    pointer or to size 0) is never taken off the list: the call that
    retrieves the packet with its timestamp adds no side data and leaves
    the entry where it is. *)
Theorem entry_without_payload_stays (c : Call AVDictionary) st p r st' tr :
  NoDup (map md_pts (metadata_list st)) ->
  In p (metadata_list st) -> has_payload p = false ->
  call pack c st = Done r st' tr ->
  c_got_packet c = 0 -> ret_got_packet r = 1 ->
  pkt_pts (ret_pkt r) = md_pts p ->
  pkt_side_data (ret_pkt r) = pkt_side_data (c_pkt c) /\
  In p (metadata_list st').
Proof.
  intros Hnd Hin Hpay H Hgot Hr Hpts. unfold call in H.
  apply eb_encode_frame_inv in H.
  destruct H as [(_ & -> & _)|(_ & b & st1 & tr1 & Hs & H)];
    [discriminate|].
  assert (Hnd1 : NoDup (map md_pts (metadata_list st1)))
    by (eapply submit_NoDup; eauto).
  assert (Hin1 : In p (metadata_list st1)).
  { apply submit_cache in Hs.
    destruct Hs as [(-> & _)|(f & d & _ & _ & _ & _ & ->)]; auto.
    apply in_or_app. now left. }
  destruct H as [(_ & -> & _)|(_ & tr2 & Hf & _)].
  - cbn in Hr. congruence.
  - apply fetch_packet_inv in Hf.
    destruct Hf as [(_ & -> & _)
                   |[(_ & h & _ & _ & -> & _)
                    |(_ & h & bytes & pkt1 & pkt2 & st2 & t1 & t2 & _ & _
                      & _ & Hsl & Hat & -> & -> & _)]];
      try (cbn in Hr; congruence).
    cbn in Hpts. cbn [ret_pkt].
    match type of Hsl with
    | slice_flags h ?x st1 = _ =>
        destruct (slice_flags_done h x st1)
          as (pkt1' & tr1' & Hs' & Hp1 & Hsd & _)
    end.
    rewrite Hsl in Hs'. inversion Hs'; subst pkt1' tr1'. cbn in Hp1, Hsd.
    assert (Hl : forall (b : bool) (X : SvtContext),
               metadata_list (if b then set_eos_flag EOS_RECEIVED X else X)
               = metadata_list X).
    { intros b' X. destruct b'; reflexivity. }
    rewrite Hl. apply attach_metadata_inv in Hat.
    assert (Hkey : pkt_pts pkt1 = md_pts p).
    { destruct Hat as [(b0 & q & a0 & _ & _ & _ & -> & _)|(_ & -> & _)];
        cbn in Hpts; congruence. }
    destruct (@list_for_each_until_unique (pkt_pts pkt1) (metadata_list st1) p
                Hnd1 Hin1 (eq_sym Hkey)) as (b0 & a0 & Hfind & _).
    destruct Hat as [(b' & q & a' & Hf' & Hq & _)|(_ & -> & -> & _)].
    + rewrite Hfind in Hf'. inversion Hf'; subst. congruence.
    + split; [exact Hsd|exact Hin1].
Qed.

Lemma slice_flags_value header pkt st pkt1 tr :
  slice_flags header pkt st = Done pkt1 st tr ->
  pkt1 = set_flags (Z.lor (pkt_flags pkt) (slice_type_flags (sliceType header)))
                   pkt.
Proof.
  unfold slice_flags, slice_type_flags. unfold_m. cbn -[Z.eqb Z.lor].
  destruct pkt as [dat sz p d fl sd]. unfold set_flags.
  cbn -[Z.eqb Z.lor].
  destruct (sliceType header =? EB_IDR_PICTURE) eqn:E1;
    [| destruct (sliceType header =? EB_I_PICTURE) eqn:E2];
    destruct (sliceType header =? EB_NON_REF_PICTURE) eqn:E3;
    cbn -[Z.lor]; intros H; inversion H; subst; clear H;
    rewrite ?Z.lor_0_r, ?Z.lor_0_l, ?Z.lor_assoc; reflexivity.
Qed.

Lemma land_lor_same a b : Z.land (Z.lor a b) b = b.
Proof.
  apply Z.bits_inj'. intros n _.
  rewrite Z.land_spec, Z.lor_spec.
  destruct (Z.testbit a n), (Z.testbit b n); reflexivity.
Qed.

Lemma memcpy_from_length src n bytes :
  memcpy_from src n = Some bytes -> Z.of_nat (length bytes) = n.
Proof.
  unfold memcpy_from. destruct src as [|d|b].
  - destruct (Z.eqb_spec n 0) as [E|E]; [|discriminate].
    intros H; inversion H; subst. reflexivity.
  - discriminate.
  - destruct (Z.leb_spec 0 n) as [H0|H0]; cbn [andb]; [|discriminate].
    destruct (Z.leb_spec n (Z.of_nat (length b))) as [H1|H1];
      [|discriminate].
    intros H; inversion H; subst. rewrite length_firstn. lia.
Qed.

(** X22. The packet a retrieval fills: its payload is the [nFilledLen]
    bytes at the start of the header's buffer, no more and no fewer, its
    size and timestamps are the header's, and its flags hold the key flag
    for IDR and I pictures and the disposable flag for non-reference
    pictures, whatever they held before. *)
Theorem fetch_packet_fills_packet env pkt got st r st' tr h :
  fetch_packet env pkt got st = Done r st' tr ->
  retrieved_header env = Some h ->
  ret_val r = 0 /\ ret_got_packet r = 1 /\
  memcpy_from (pBuffer h) (nFilledLen h) = Some (pkt_data (ret_pkt r)) /\
  Z.of_nat (length (pkt_data (ret_pkt r))) = nFilledLen h /\
  pkt_size (ret_pkt r) = Int.to_int32 (nFilledLen h) /\
  pkt_pts (ret_pkt r) = pts h /\ pkt_dts (ret_pkt r) = dts h /\
  Z.land (pkt_flags (ret_pkt r)) (slice_type_flags (sliceType h))
  = slice_type_flags (sliceType h).
Proof.
  intros H Hh. unfold retrieved_header in Hh. apply fetch_packet_inv in H.
  destruct H as [(He & _)
                |[(He & h0 & _ & Ha & _)
                 |(He & h0 & bytes & pkt1 & pkt2 & st2 & t1 & t2 & Hout & Ha
                   & Hcpy & Hsl & Hat & -> & _)]].
  - rewrite He in Hh. discriminate.
  - apply Z.eqb_neq in Ha. rewrite Ha in Hh.
    destruct (get_ret env); discriminate.
  - rewrite Ha, Hout in Hh. cbn [Z.eqb] in Hh.
    assert (h0 = h) by (destruct (get_ret env); congruence). subst h0.
    apply slice_flags_value in Hsl. cbn [pkt_flags] in Hsl.
    assert (Hpkt2 : pkt_data pkt2 = pkt_data pkt1 /\
                    pkt_size pkt2 = pkt_size pkt1 /\
                    pkt_pts pkt2 = pkt_pts pkt1 /\
                    pkt_dts pkt2 = pkt_dts pkt1 /\
                    pkt_flags pkt2 = pkt_flags pkt1).
    { apply attach_metadata_inv in Hat.
      destruct Hat as [(b0 & q & a0 & _ & _ & _ & -> & _)|(_ & -> & _)];
        cbn; auto. }
    cbn [ret_val ret_got_packet ret_pkt].
    destruct Hpkt2 as (-> & -> & -> & -> & ->). subst pkt1.
    cbn [set_flags pkt_data pkt_size pkt_pts pkt_dts pkt_flags].
    pose proof (memcpy_from_length _ _ Hcpy) as Hlen.
    repeat split; auto. apply land_lor_same.
Qed.

(** X23. A call returns a non-zero value only when [ff_alloc_packet2]
    failed on a header the encoder had handed out.  That header is
    released as the last step and its packet is lost: its [nFlags] are
    not looked at, so the flush state does not become [EOS_RECEIVED],
    and no entry leaves the metadata list. *)
Theorem failed_allocation_drops_packet env pkt
    (frame : option (AVFrame AVDictionary)) got st r st' tr :
  eb_encode_frame pack env pkt frame got st = Done r st' tr ->
  ret_val r <> 0 ->
  exists h tr1,
    get_out env = Some h /\
    tr = tr1 ++ [EvGetPacket (eos_flag st'); EvReadOut F_pts;
                 EvReadOut F_nFilledLen; EvAllocPacket (nFilledLen h);
                 EvReleaseOutBuffer] /\
    eos_flag st' <> EOS_RECEIVED /\
    (forall p, In p (metadata_list st) -> In p (metadata_list st')).
Proof.
  intros H Hr. apply eb_encode_frame_inv in H.
  destruct H as [(_ & -> & _)|(Hne & b & st1 & tr1 & Hs & H)];
    [cbn in Hr; congruence|].
  destruct H as [(_ & -> & _)|(_ & tr2 & Hf & ->)]; [cbn in Hr; congruence|].
  apply fetch_packet_inv in Hf.
  destruct Hf as [(_ & -> & _)
                 |[(_ & h & Hout & _ & _ & -> & ->)
                  |(_ & h & bytes & pkt1 & pkt2 & st2 & t1 & t2 & _ & _ & _
                    & _ & _ & -> & _)]]; try (cbn in Hr; congruence).
  exists h, tr1. split; [exact Hout|]. split; [reflexivity|]. split.
  - destruct frame as [f|].
    + apply submit_frame_inv in Hs. destruct Hs as (h0 & _ & He & _).
      congruence.
    + rewrite submit_eos in Hs.
      destruct (eos_flag st) eqn:E; inversion Hs; subst; cbn; congruence.
  - apply submit_cache in Hs.
    destruct Hs as [(-> & _)|(f & d & _ & _ & _ & _ & ->)]; auto.
    intros p Hp. apply in_or_app. now left.
Qed.

End MoreFacts.

(** * The further statements at work *)

Ltac repr_by_evaluation :=
  split;
  [ repeat constructor; cbn; intuition discriminate
  | split; vm_compute; repeat split; reflexivity ].

Ltac not_in_by_evaluation := cbn; intuition discriminate.

Lemma list_add_tail_repr_witness :
  ListMem.repr (ListMem.list_add_tail 4000 Example.head Example.mem_two)
               Example.head [2000; 3000; 4000].
Proof.
  refine (proj1 (@list_add_tail_repr Example.mem_two Example.head
                   [2000; 3000] 4000 _ _)).
  - repr_by_evaluation.
  - not_in_by_evaluation.
Defined.

Lemma list_add_repr_witness :
  ListMem.repr (ListMem.list_add 4000 Example.head Example.mem_two)
               Example.head [4000; 2000; 3000].
Proof.
  refine (@list_add_repr Example.mem_two Example.head [2000; 3000] 4000 _ _).
  - repr_by_evaluation.
  - not_in_by_evaluation.
Defined.

Lemma list_del_repr_witness :
  ListMem.repr (ListMem.list_del 2000 Example.mem_two) Example.head [3000] /\
  ListMem.next (ListMem.list_del 2000 Example.mem_two 2000)
  = ListMem.LIST_POISON1.
Proof.
  destruct (@list_del_repr Example.mem_two Example.head [] 2000 [3000])
    as (H1 & H2 & _).
  - repr_by_evaluation.
  - split; [exact H1|exact H2].
Defined.

Lemma list_for_each_repr_witness :
  ListMem.list_for_each 3 Example.mem_two Example.head = Some [2000; 3000].
Proof.
  refine (@list_for_each_repr Example.mem_two Example.head [2000; 3000] 3 _ _).
  - repr_by_evaluation.
  - cbn. lia.
Defined.

Lemma list_del_list_add_tail_witness :
  ListMem.list_del 4000
    (ListMem.list_add_tail 4000 Example.head Example.mem_two) 3000
  = Example.mem_two 3000.
Proof.
  refine (@list_del_list_add_tail Example.mem_two Example.head [2000; 3000]
            4000 _ _ 3000 _).
  - repr_by_evaluation.
  - not_in_by_evaluation.
  - discriminate.
Defined.

Lemma list_for_each_safe_del_first_witness :
  exists m',
    ListMem.list_for_each_safe 3 (ListMem.del_first Example.is_3000)
      Example.mem_two Example.head = Some m' /\
    ListMem.repr m' Example.head [2000].
Proof.
  refine (@list_for_each_safe_del_first Example.is_3000 Example.mem_two
            Example.head [2000; 3000] 3 _ _).
  - repr_by_evaluation.
  - cbn. lia.
Defined.

Lemma list_for_each_safe_del_each_witness :
  exists m',
    ListMem.list_for_each_safe 3 ListMem.del_each Example.mem_two Example.head
    = Some m' /\
    ListMem.repr m' Example.head [].
Proof.
  destruct (@list_for_each_safe_del_each Example.mem_two Example.head
              [2000; 3000] 3) as (m' & H1 & H2 & _).
  - repr_by_evaluation.
  - cbn. lia.
  - exists m'. split; [exact H1|exact H2].
Defined.

Lemma add_all_fifo_witness :
  ListMem.list_for_each 4
    (ListMem.add_all Example.head [2000; 3000; 4000] Example.mem0)
    Example.head
  = Some [2000; 3000; 4000].
Proof.
  refine (proj2 (@add_all_fifo Example.mem0 Example.head [2000; 3000; 4000] _)).
  repeat constructor; cbn; intuition discriminate.
Defined.

(** Main is asked for on 10-bit input: the profile left is not Main. *)
Lemma config_enc_params_profile_witness :
  Config.profile
    (snd (Config.config_enc_params Example.lib_defaults Example.avctx
            Example.opts))
  <> Config.FF_PROFILE_HEVC_MAIN.
Proof.
  destruct (@config_enc_params_profile Example.lib_defaults Example.avctx
              Example.opts eq_refl) as (_ & _ & _ & _ & H & _).
  apply H. reflexivity.
Defined.

Lemma eb_enc_init_success_witness :
  exists st tr,
    Init.eb_enc_init Example.env_ok Example.avctx Example.opts 72
      Example.blank = Init.InitDone 0 st tr /\
    Init.i_svt st
    = eb_enc_init (Config.read_view (Init.i_params st)) 1 72.
Proof.
  eassert (H : Init.eb_enc_init Example.env_ok Example.avctx Example.opts 72
                 Example.blank = Init.InitDone 0 _ _)
    by (vm_compute; reflexivity).
  eexists. eexists. split; [exact H|].
  destruct (eb_enc_init_success _ _ _ _ _ H) as (_ & H2).
  destruct (H2 eq_refl) as (_ & _ & H3 & _).
  apply H3. reflexivity.
Defined.

(** [alloc_buffer] fails: the encoder and the handle are shut down. *)
Lemma eb_enc_init_failure_cleanup_witness :
  exists ret st tr,
    Init.eb_enc_init Example.env_no_memory Example.avctx Example.opts 72
      Example.blank = Init.InitDone ret st tr /\
    ret < 0 /\
    svt_handle (Init.i_svt st) = None /\
    Init.count Init.is_deinit_handle tr = 1%nat /\
    Init.count Init.is_deinit_encoder tr = 1%nat.
Proof.
  eassert (H : Init.eb_enc_init Example.env_no_memory Example.avctx
                 Example.opts 72 Example.blank = Init.InitDone _ _ _)
    by (vm_compute; reflexivity).
  eexists. eexists. eexists. split; [exact H|].
  destruct (eb_enc_init_failure_cleanup _ _ _ _ _ H) as (H1 & H2);
    [discriminate|].
  destruct H2 as (H2 & H3 & _ & H4 & _).
  split; [exact H1|]. split; [exact H2|]. split; [exact H3|exact H4].
Defined.

Lemma eb_enc_close_after_failed_init_witness :
  exists ret st tr,
    Init.eb_enc_init Example.env_no_memory Example.avctx Example.opts 72
      Example.blank = Init.InitDone ret st tr /\
    eb_enc_close (Init.i_svt st)
    = Done 0 (Init.i_svt st)
           [EvFreeInData (pBuffer (in_buf (Init.i_svt st)))].
Proof.
  eassert (H : Init.eb_enc_init Example.env_no_memory Example.avctx
                 Example.opts 72 Example.blank = Init.InitDone _ _ _)
    by (vm_compute; reflexivity).
  eexists. eexists. eexists. split; [exact H|].
  destruct (eb_enc_close_after_failed_init _ _ _ _ _ H) as (H1 & _);
    [discriminate|reflexivity|].
  exact H1.
Defined.

(** The [rc] option asks for [vbr], yet the bounds of the codec context are
    not taken over: the library's default mode was 0.  With a default
    mode of 1 they are, and a [qmax] of -1 is held as 4294967295. *)
Lemma eb_enc_init_qp_bounds_witness :
  (exists st tr,
      Init.eb_enc_init Example.env_ok Example.avctx Example.opts 72
        Example.blank = Init.InitDone 0 st tr /\
      Config.rateControlMode (Init.i_params st) = 1 /\
      Config.maxQpAllowed (Init.i_params st) = 48) /\
  (exists st tr,
      Init.eb_enc_init Example.env_ok_vbr Example.avctx_qmax_unset
        Example.opts 72 Example.blank = Init.InitDone 0 st tr /\
      Config.maxQpAllowed (Init.i_params st) = 4294967295).
Proof.
  split.
  - eassert (H : Init.eb_enc_init Example.env_ok Example.avctx Example.opts
                   72 Example.blank = Init.InitDone 0 _ _)
      by (vm_compute; reflexivity).
    eexists. eexists. split; [exact H|].
    destruct (eb_enc_init_qp_bounds _ _ _ _ _ H) as (H1 & H2 & _).
    split; [exact H1|exact H2].
  - eassert (H : Init.eb_enc_init Example.env_ok_vbr Example.avctx_qmax_unset
                   Example.opts 72 Example.blank = Init.InitDone 0 _ _)
      by (vm_compute; reflexivity).
    eexists. eexists. split; [exact H|].
    destruct (eb_enc_init_qp_bounds _ _ _ _ _ H) as (_ & H2 & _).
    exact H2.
Defined.

Lemma frame_after_eos_crashes_witness :
  eb_encode_frame Sample.pack Sample.env_empty Sample.pkt0
    (Some (Sample.frame_at 5 None)) 0 Example.after_eos
  = Crash [].
Proof.
  refine (proj2 (@frame_after_eos_crashes Sample.Dict Sample.pack
                   Sample.env_empty Sample.pkt0 (Sample.frame_at 5 None) 0
                   Example.after_eos _ _)).
  - exists Sample.cfg_2x2, 1, 72, [Sample.c_eos].
    eexists. eexists. vm_compute. reflexivity.
  - reflexivity.
Defined.


(** [ff_alloc_packet2] fails with -12: that is what the call returns. *)
Lemma eb_encode_frame_return_value_witness :
  exists r st' tr,
    eb_encode_frame Sample.pack (Example.env_alloc_fails 100 0) Sample.pkt0
      (Some (Sample.frame_at 300 None)) 7 (Sample.ctx Sample.cfg_2x2)
    = Done r st' tr /\
    (ret_val r = 0 \/
     (ret_val r = -12 /\ -12 <> 0 /\
      get_ret (Example.env_alloc_fails 100 0) <> EB_NoErrorEmptyQueue /\
      ret_got_packet r = 7 /\ ret_pkt r = Sample.pkt0)).
Proof.
  eassert (H : eb_encode_frame Sample.pack (Example.env_alloc_fails 100 0)
                 Sample.pkt0 (Some (Sample.frame_at 300 None)) 7
                 (Sample.ctx Sample.cfg_2x2) = Done _ _ _)
    by (vm_compute; reflexivity).
  eexists. eexists. eexists. split; [exact H|].
  exact (eb_encode_frame_return_value _ _ _ _ _ _ H).
Defined.

(** A second frame stamped 100 with a dictionary: returned at once, with
    [*got_packet] as passed. *)
Lemma duplicate_timestamp_skips_retrieval_witness :
  exists st' tr,
    eb_encode_frame Sample.pack (Sample.env_packet 100 0) Sample.pkt0
      (Some (Sample.frame_at 100 (Some Sample.meta_b))) 7
      (Example.after_frame_100 Sample.meta_a)
    = Done {| ret_val := 0; ret_pkt := Sample.pkt0; ret_got_packet := 7 |}
           st' tr.
Proof.
  eexists. eexists.
  eapply (@duplicate_timestamp_skips_retrieval Sample.Dict Sample.pack
            (Sample.env_packet 100 0) Sample.pkt0
            (Sample.frame_at 100 (Some Sample.meta_b)) Sample.meta_b 7
            (Example.after_frame_100 Sample.meta_a)
            {| md_pts := 100; metadata := Some Sample.meta_a; size := 7 |}).
  - vm_compute. discriminate.
  - reflexivity.
  - vm_compute. left. reflexivity.
  - reflexivity.
  - vm_compute. reflexivity.
Defined.

(** Frame 100 went in with the empty dictionary: the packet stamped 100
    comes back bare and the entry stays. *)
Lemma entry_without_payload_stays_witness :
  exists r st' tr,
    call Sample.pack Sample.c400_gets_100 (Example.after_frame_100 [])
    = Done r st' tr /\
    pkt_side_data (ret_pkt r) = [] /\
    In {| md_pts := 100; metadata := None; size := 0 |} (metadata_list st').
Proof.
  eassert (H : call Sample.pack Sample.c400_gets_100
                 (Example.after_frame_100 []) = Done _ _ _)
    by (vm_compute; reflexivity).
  eexists. eexists. eexists. split; [exact H|].
  refine (@entry_without_payload_stays Sample.Dict Sample.pack
            Sample.c400_gets_100 (Example.after_frame_100 [])
            {| md_pts := 100; metadata := None; size := 0 |} _ _ _
            _ _ _ H _ _ _).
  - vm_compute. repeat constructor. intros [].
  - vm_compute. left. reflexivity.
  - reflexivity.
  - reflexivity.
  - reflexivity.
  - reflexivity.
Defined.

Lemma fetch_packet_fills_packet_witness :
  exists r st' tr,
    fetch_packet (Sample.env_packet 200 0) Sample.pkt0 0
      (Sample.ctx Sample.cfg_2x2) = Done r st' tr /\
    pkt_data (ret_pkt r) = [x00; x00; x01] /\
    pkt_pts (ret_pkt r) = 200 /\
    Z.land (pkt_flags (ret_pkt r)) AV_PKT_FLAG_KEY = AV_PKT_FLAG_KEY.
Proof.
  eassert (H : fetch_packet (Sample.env_packet 200 0) Sample.pkt0 0
                 (Sample.ctx Sample.cfg_2x2) = Done _ _ _)
    by (vm_compute; reflexivity).
  eexists. eexists. eexists. split; [exact H|].
  destruct (@fetch_packet_fills_packet (Sample.env_packet 200 0) Sample.pkt0 0
              (Sample.ctx Sample.cfg_2x2) _ _ _ (Sample.out_header 200 0)
              H eq_refl) as (_ & _ & H1 & _ & _ & H2 & _ & H3).
  split; [|split; [exact H2|exact H3]].
  apply (f_equal (fun o => match o with Some b => b | None => [] end)) in H1.
  symmetry. exact H1.
Defined.

(** The flagged packet is lost with the failed allocation: the flush state
    stays [EOS_SENT]. *)
Lemma failed_allocation_drops_packet_witness :
  exists r st' tr,
    eb_encode_frame Sample.pack
      (Example.env_alloc_fails 100 EB_BUFFERFLAG_EOS) Sample.pkt0 None 0
      Example.after_eos = Done r st' tr /\
    eos_flag st' <> EOS_RECEIVED.
Proof.
  eassert (H : eb_encode_frame Sample.pack
                 (Example.env_alloc_fails 100 EB_BUFFERFLAG_EOS) Sample.pkt0
                 None 0 Example.after_eos = Done _ _ _)
    by (vm_compute; reflexivity).
  eexists. eexists. eexists. split; [exact H|].
  destruct (@failed_allocation_drops_packet Sample.Dict Sample.pack
              _ _ _ _ _ _ _ _ H) as (h & tr1 & _ & _ & H1 & _).
  - discriminate.
  - exact H1.
Defined.
